(** * Post persistence layer: [app/models/post/dynamo.py]

    A shallow embedding of [PostDynamo] (the post record engine of the
    backend) together with the part of the DynamoDB client it talks to, and
    the properties of the specification that concern it: index maintenance on
    status and album changes, counter floors, expiry and checksum queries,
    argument validation and the followed-first-story aggregate. *)

From Stdlib Require Import ZArith QArith Qcanon List Permutation Sorted Ascii String Lia.
From stdpp Require Import gmap strings list fin_maps.

Set Warnings "-register-all,-clear-no-such-hyp".
Local Open Scope string_scope.

(** ** Python values, exceptions and results *)

Module Py.

(** The exceptions the embedded code can raise.  [AssertionError] carries the
    message of the failed [assert]; the last three are the store's. *)
Inductive exception :=
| AssertionError (msg : string)
| KeyError (k : string)
| IndexError
| TypeError
| PostException (msg : string)
| PostDoesNotExist (post_id : string)
| ConditionalCheckFailedException
| TransactionCanceledException
| ValidationException.

Inductive result (A : Type) :=
| Ok (a : A)
| Raise (e : exception).
Arguments Ok {A} a.
Arguments Raise {A} e.

Definition rbind {A B} (r : result A) (k : A -> result B) : result B :=
  match r with
  | Ok a => k a
  | Raise e => Raise e
  end.

(** [[f(x) for x in l]], stopping at the first exception. *)
Fixpoint rmap {A B} (f : A -> result B) (l : list A) : result (list B) :=
  match l with
  | [] => Ok []
  | x :: l' => rbind (f x) (fun y => rbind (rmap f l') (fun ys => Ok (y :: ys)))
  end.

(** [assert c, msg] *)
Definition assert (c : bool) (msg : string) : result unit :=
  if c then Ok tt else Raise (AssertionError msg).

(** [s.split('/')]: the fields of [s] between the separators. *)
Fixpoint split (sep : ascii) (s : string) : list string :=
  match s with
  | EmptyString => [EmptyString]
  | String c s' =>
      if Ascii.eqb c sep then EmptyString :: split sep s'
      else match split sep s' with
           | f :: fs => String c f :: fs
           | [] => [String c EmptyString]
           end
  end.

(** [l[i]], raising [IndexError] out of range. *)
Definition subscript {A} (l : list A) (i : nat) : result A :=
  match l !! i with
  | Some x => Ok x
  | None => Raise IndexError
  end.

(** Truthiness of a string ([bool(s)]) and of an optional string, where
    [None] is Python's [None]. *)
Definition str_truthy (s : string) : bool := negb (String.eqb s "").

Definition opt_truthy (o : option string) : bool :=
  match o with
  | Some s => str_truthy s
  | None => false
  end.

End Py.
Export Py.

Notation "'let!' x ':=' r 'in' k" := (rbind r (fun x => k))
  (at level 10, x name, r at level 100, k at level 200).
Notation "'let!' ' p ':=' r 'in' k" := (rbind r (fun 'p => k))
  (at level 10, p strict pattern, r at level 100, k at level 200).
Notation "'do!' r 'in' k" := (rbind r (fun _ => k))
  (at level 10, r at level 100, k at level 200).

(** ** The [pendulum] values the code formats

    Dates and times reach the store only through [str()] and
    [to_iso8601_string()]; the records below carry the fields and the
    functions render them the way Python's [isoformat] does. *)

Module Pendulum.

Definition digit (d : nat) : ascii := ascii_of_nat (48 + d).

(** [k] decimal digits of [n], most significant first (zero padded). *)
Fixpoint pad (k n : nat) : string :=
  match k with
  | O => EmptyString
  | S k' => pad k' (n / 10) +:+ String (digit (n mod 10)) EmptyString
  end.

Record Date := mkDate { year : nat; month : nat; day : nat }.

Record TimeOfDay := mkTime { hour : nat; minute : nat; second : nat; microsecond : nat }.

Record DateTime := mkDateTime { date : Date; time : TimeOfDay }.

(** [str(date)]: [YYYY-MM-DD]. *)
Definition date_str (d : Date) : string :=
  pad 4 (year d) +:+ "-" +:+ pad 2 (month d) +:+ "-" +:+ pad 2 (day d).

(** [str(time)]: [HH:MM:SS], followed by [.ffffff] when the microsecond is
    not zero. *)
Definition time_str (t : TimeOfDay) : string :=
  pad 2 (hour t) +:+ ":" +:+ pad 2 (minute t) +:+ ":" +:+ pad 2 (second t)
  +:+ (if Nat.eqb (microsecond t) 0 then "" else "." +:+ pad 6 (microsecond t)).

(** [dt.to_iso8601_string()] of a UTC instant. *)
Definition to_iso8601_string (dt : DateTime) : string :=
  date_str (date dt) +:+ "T" +:+ time_str (time dt) +:+ "Z".

Definition valid_time (t : TimeOfDay) : Prop :=
  hour t < 24 /\ minute t < 60 /\ second t < 60 /\ microsecond t < 10 ^ 6.

(** Chronological order of times of day. *)
Definition time_lt (a b : TimeOfDay) : Prop :=
  hour a < hour b \/
  (hour a = hour b /\
   (minute a < minute b \/
    (minute a = minute b /\
     (second a < second b \/
      (second a = second b /\ microsecond a < microsecond b))))).

End Pendulum.
Export Pendulum.

(** ** The store: a DynamoDB table behind the client

    Modelled from the spec: the storage adapter ([app/clients/dynamo.py] is not
    among the sources).  Section 6 of the specification gives its contract:
    point gets, conditional put/update/delete, all-or-nothing transactions,
    and index queries ordered by sort key.  The tests pin the rest:
    [update_item] requires the item to exist unless the caller passes a
    condition of its own and raises [ConditionalCheckFailedException];
    a transaction with a failed precondition raises
    [TransactionCanceledException]. *)

Module Dynamo.

(** Attribute values: [S], [N], [BOOL], [L] and [M] of DynamoDB. *)
Inductive attr_value :=
| Str (s : string)
| Num (n : Qc)
| Boolean (b : bool)
| Lst (l : list attr_value)
| Dict (m : list (string * attr_value)).

Abbreviation item := (gmap string attr_value).
Abbreviation key := (string * string)%type.
Abbreviation table := (gmap (string * string) (gmap string attr_value)).

(** Python truthiness of a deserialised attribute ([None] when absent). *)
Definition truthy (o : option attr_value) : bool :=
  match o with
  | None => false
  | Some (Str s) => str_truthy s
  | Some (Num n) => negb (bool_decide (n = 0%Qc))
  | Some (Boolean b) => b
  | Some (Lst l) => negb (bool_decide (length l = 0))
  | Some (Dict m) => negb (bool_decide (length m = 0))
  end.

(** [item[k]] inside an f-string.  The attributes the code formats this way
    are written as strings by [transact_add_pending_post]; other types are
    outside the model and reported as [TypeError]. *)
Definition getitem_str (it : item) (k : string) : result string :=
  match it !! k with
  | Some (Str s) => Ok s
  | Some _ => Raise TypeError
  | None => Raise (KeyError k)
  end.

(** Order on attribute values as the store compares them: strings by code
    units, numbers numerically; values of different types do not compare. *)
Definition value_compare (a b : attr_value) : option comparison :=
  match a, b with
  | Str x, Str y => Some (String.compare x y)
  | Num x, Num y => Some (x ?= y)%Qc
  | Boolean x, Boolean y => if Bool.eqb x y then Some Eq else None
  | _, _ => None
  end.

Definition value_eqb (a b : attr_value) : bool :=
  match value_compare a b with Some Eq => true | _ => false end.

Definition value_ltb (a b : attr_value) : bool :=
  match value_compare a b with Some Lt => true | _ => false end.

Definition value_leb (a b : attr_value) : bool :=
  match value_compare a b with Some Gt => false | _ => true end.

(** An operand of a comparison: a literal (boto3's [Key(..).eq(v)]) or a
    [:placeholder] of [ExpressionAttributeValues]. *)
Inductive operand :=
| Lit (v : attr_value)
| Ref (placeholder : string).

(** Condition, key-condition and filter expressions. *)
Inductive condition :=
| attribute_exists (path : string)
| attribute_not_exists (path : string)
| CEq (path : string) (o : operand)
| CNe (path : string) (o : operand)
| CLt (path : string) (o : operand)
| CGt (path : string) (o : operand)
| begins_with (path : string) (prefix : string)
| CAnd (a b : condition)
| COr (a b : condition).

(** The actions of an update expression. *)
Inductive action :=
| SET (path : string) (placeholder : string)
| REMOVE (path : string)
| ADD (path : string) (placeholder : string).

Record update_kwargs := mkUpdate {
  Key : key;
  UpdateExpression : list action;
  ExpressionAttributeNames : gmap string string;
  ExpressionAttributeValues : gmap string attr_value;
  ConditionExpression : option condition;
}.

Inductive transact_item :=
| Put (Item : item) (cond : option condition)
| Update (u : update_kwargs)
| Delete (k : key).

Record query_kwargs := mkQuery {
  KeyConditionExpression : condition;
  IndexName : string;
  FilterExpression : option condition;
  ProjectionExpression : option (list string);
}.

(** Requests that reach the store, most recent first. *)
Inductive request :=
| ReqGetItem (k : key)
| ReqUpdateItem (u : update_kwargs)
| ReqDeleteItem (k : key)
| ReqTransactWriteItems (l : list transact_item)
| ReqQuery (q : query_kwargs).

(** The state the code runs against: the table, the requests issued so far
    and the records of the [logging] module. *)
Record world := mkWorld {
  db : table;
  requests : list request;
  warnings : list string;
}.

(** Stateful computations that may raise. *)
Definition M (A : Type) : Type := world -> result A * world.

Definition ret {A} (a : A) : M A := fun w => (Ok a, w).

Definition raise {A} (e : exception) : M A := fun w => (Raise e, w).

Definition bind {A B} (m : M A) (k : A -> M B) : M B :=
  fun w => match m w with
           | (Ok a, w') => k a w'
           | (Raise e, w') => (Raise e, w')
           end.

Definition lift {A} (r : result A) : M A := fun w => (r, w).

(** [try: m  except e: h] *)
Definition try_except {A} (m : M A) (e : exception -> bool) (h : M A) : M A :=
  fun w => match m w with
           | (Raise x, w') => if e x then h w' else (Raise x, w')
           | r => r
           end.

Definition send (r : request) : M unit :=
  fun w => (Ok tt, mkWorld (db w) (r :: requests w) (warnings w)).

Definition set_db (t : table) : M unit :=
  fun w => (Ok tt, mkWorld t (requests w) (warnings w)).

Definition get_db : M table := fun w => (Ok (db w), w).

(** [logger.warning(msg)] *)
Definition logger_warning (msg : string) : M unit :=
  fun w => (Ok tt, mkWorld (db w) (requests w) (msg :: warnings w)).

Definition resolve_name (names : gmap string string) (path : string) : string :=
  default path (names !! path).

Definition resolve (values : gmap string attr_value) (o : operand) : option attr_value :=
  match o with
  | Lit v => Some v
  | Ref p => values !! p
  end.

(** A comparison holds when the attribute is there, the operand resolves and
    the test on their order succeeds. *)
Definition compare_with (values : gmap string attr_value) (it : item)
    (name : string) (o : operand) (test : attr_value -> attr_value -> bool) : bool :=
  match it !! name, resolve values o with
  | Some a, Some b => test a b
  | _, _ => false
  end.

Fixpoint eval_condition (names : gmap string string) (values : gmap string attr_value)
    (it : item) (c : condition) : bool :=
  match c with
  | attribute_exists p => bool_decide (is_Some (it !! resolve_name names p))
  | attribute_not_exists p => negb (bool_decide (is_Some (it !! resolve_name names p)))
  | CEq p o => compare_with values it (resolve_name names p) o value_eqb
  | CNe p o => negb (compare_with values it (resolve_name names p) o value_eqb)
  | CLt p o => compare_with values it (resolve_name names p) o value_ltb
  | CGt p o => compare_with values it (resolve_name names p) o (fun a b => value_ltb b a)
  | begins_with p pre =>
      match it !! resolve_name names p with
      | Some (Str s) => String.prefix pre s
      | _ => false
      end
  | CAnd a b => eval_condition names values it a && eval_condition names values it b
  | COr a b => eval_condition names values it a || eval_condition names values it b
  end.

(** One action of an update expression on an item.  [ADD] of a number creates
    the attribute when it is absent. *)
Definition apply_action (names : gmap string string) (values : gmap string attr_value)
    (act : action) (it : item) : result item :=
  match act with
  | SET p v =>
      match values !! v with
      | Some x => Ok (<[resolve_name names p := x]> it)
      | None => Raise ValidationException
      end
  | REMOVE p => Ok (delete (resolve_name names p) it)
  | ADD p v =>
      match values !! v, it !! resolve_name names p with
      | Some (Num d), None => Ok (<[resolve_name names p := Num d]> it)
      | Some (Num d), Some (Num n) => Ok (<[resolve_name names p := Num (n + d)%Qc]> it)
      | _, _ => Raise ValidationException
      end
  end.

Fixpoint apply_actions (names : gmap string string) (values : gmap string attr_value)
    (acts : list action) (it : item) : result item :=
  match acts with
  | [] => Ok it
  | a :: acts' =>
      let! it' := apply_action names values a it in
      apply_actions names values acts' it'
  end.

(** What [Key] designates: the stored item, or an item holding the key
    attributes alone when there is none (an update creates it). *)
Definition item_at (t : table) (k : key) : item :=
  default {[ "partitionKey" := Str k.1; "sortKey" := Str k.2 ]} (t !! k).

Definition condition_holds (t : table) (k : key) (names : gmap string string)
    (values : gmap string attr_value) (c : option condition) : bool :=
  match c with
  | None => true
  | Some c => eval_condition names values (default ∅ (t !! k)) c
  end.

(** A conditional update of the table: [None] when the condition fails. *)
Definition update_table (u : update_kwargs) (t : table) : result (option (item * table)) :=
  if condition_holds t (Key u) (ExpressionAttributeNames u)
       (ExpressionAttributeValues u) (ConditionExpression u)
  then
    let! it := apply_actions (ExpressionAttributeNames u) (ExpressionAttributeValues u)
                 (UpdateExpression u) (item_at t (Key u)) in
    Ok (Some (it, <[Key u := it]> t))
  else Ok None.

Definition item_key (it : item) : result key :=
  let! pk := getitem_str it "partitionKey" in
  let! sk := getitem_str it "sortKey" in
  Ok (pk, sk).

(** One write of a transaction on the table: [None] when its condition
    fails. *)
Definition transact_one (ti : transact_item) (t : table) : result (option table) :=
  match ti with
  | Put it c =>
      let! k := item_key it in
      if condition_holds t k ∅ ∅ c then Ok (Some (<[k := it]> t)) else Ok None
  | Update u =>
      let! r := update_table u t in
      Ok (snd <$> r)
  | Delete k => Ok (Some (delete k t))
  end.

Fixpoint transact_all (l : list transact_item) (t : table) : result (option table) :=
  match l with
  | [] => Ok (Some t)
  | ti :: l' =>
      let! r := transact_one ti t in
      match r with
      | Some t' => transact_all l' t'
      | None => Ok None
      end
  end.

(** [client.get_item(key)] *)
Definition get_item (k : key) : M (option item) :=
  bind (send (ReqGetItem k)) (fun _ =>
  bind get_db (fun t => ret (t !! k))).

(** [client.delete_item({'Key': key})] *)
Definition delete_item (k : key) : M unit :=
  bind (send (ReqDeleteItem k)) (fun _ =>
  bind get_db (fun t => set_db (delete k t))).

(** [client.update_item(kwargs)]: the update is conditioned on the item
    existing unless [kwargs] brings a condition; the new item is returned. *)
Definition update_item (u : update_kwargs) : M item :=
  let u' := mkUpdate (Key u) (UpdateExpression u) (ExpressionAttributeNames u)
              (ExpressionAttributeValues u)
              (Some (default (attribute_exists "partitionKey") (ConditionExpression u))) in
  bind (send (ReqUpdateItem u')) (fun _ =>
  bind get_db (fun t =>
  bind (lift (update_table u' t)) (fun r =>
  match r with
  | Some (it, t') => bind (set_db t') (fun _ => ret it)
  | None => raise ConditionalCheckFailedException
  end))).

(** [client.transact_write_items(items)]: every write or none. *)
Definition transact_write_items (l : list transact_item) : M unit :=
  bind (send (ReqTransactWriteItems l)) (fun _ =>
  bind get_db (fun t =>
  bind (lift (transact_all l t)) (fun r =>
  match r with
  | Some t' => set_db t'
  | None => raise TransactionCanceledException
  end))).

(** The secondary indexes of the table: the attributes holding their
    partition and sort keys, and whether the sort key is a number. *)
Record index := mkIndex { pk_attr : string; sk_attr : string; sk_numeric : bool }.

Definition index_of_name (n : string) : option index :=
  if String.eqb n "GSI-A1" then Some (mkIndex "gsiA1PartitionKey" "gsiA1SortKey" false)
  else if String.eqb n "GSI-A2" then Some (mkIndex "gsiA2PartitionKey" "gsiA2SortKey" false)
  else if String.eqb n "GSI-K1" then Some (mkIndex "gsiK1PartitionKey" "gsiK1SortKey" false)
  else if String.eqb n "GSI-K2" then Some (mkIndex "gsiK2PartitionKey" "gsiK2SortKey" false)
  else if String.eqb n "GSI-K3" then Some (mkIndex "gsiK3PartitionKey" "gsiK3SortKey" true)
  else None.

(** An item is projected into an index when it carries both key attributes
    with the index's types. *)
Definition in_index (ix : index) (it : item) : bool :=
  match it !! pk_attr ix, it !! sk_attr ix with
  | Some (Str _), Some (Str _) => negb (sk_numeric ix)
  | Some (Str _), Some (Num _) => sk_numeric ix
  | _, _ => false
  end.

(** Order of two items of an index by sort key. *)
Definition sk_leb (ix : index) (a b : item) : bool :=
  match a !! sk_attr ix, b !! sk_attr ix with
  | Some x, Some y => value_leb x y
  | _, _ => true
  end.

Fixpoint insert_sorted {A} (le : A -> A -> bool) (x : A) (l : list A) : list A :=
  match l with
  | [] => [x]
  | y :: l' => if le x y then x :: l else y :: insert_sorted le x l'
  end.

Definition isort {A} (le : A -> A -> bool) (l : list A) : list A :=
  foldr (insert_sorted le) [] l.

Definition project (attrs : option (list string)) (it : item) : item :=
  match attrs with
  | None => it
  | Some l => filter (fun kv => kv.1 ∈ l) it
  end.

(** The items a query yields, in order: those of the index that satisfy the
    key condition, ascending by sort key, then filtered and projected. *)
Definition query_items (q : query_kwargs) (t : table) : result (list item) :=
  match index_of_name (IndexName q) with
  | None => Raise ValidationException
  | Some ix =>
      let hits := List.filter
                    (fun it => in_index ix it && eval_condition ∅ ∅ it (KeyConditionExpression q))
                    (map_to_list t).*2 in
      let kept := match FilterExpression q with
                  | None => isort (sk_leb ix) hits
                  | Some f => List.filter (fun it => eval_condition ∅ ∅ it f) (isort (sk_leb ix) hits)
                  end in
      Ok (project (ProjectionExpression q) <$> kept)
  end.

(** [client.generate_all_query(kwargs)], as the list the generator yields. *)
Definition generate_all_query (q : query_kwargs) : M (list item) :=
  bind (send (ReqQuery q)) (fun _ =>
  bind get_db (fun t => lift (query_items q t))).

(** [client.query_head(kwargs)]: the first item of the query, if any. *)
Definition query_head (q : query_kwargs) : M (option item) :=
  bind (generate_all_query q) (fun l => ret (head l)).

End Dynamo.
Export Dynamo.

Notation "x <- m ;; k" := (bind m (fun x => k))
  (at level 100, m at next level, right associativity).
Notation "m ;;; k" := (bind m (fun _ => k))
  (at level 100, right associativity).

(** ** Enumerations

    Modelled from the spec: [app/models/post/enums.py] and
    [app/models/like/enums.py] are not among the sources.  The specification
    names the statuses; the code formats them into sort keys and the tests
    pass arbitrary strings, so a status is a string and each member is the
    string of its name. *)

Module PostStatus.
Definition PENDING : string := "PENDING".
Definition PROCESSING : string := "PROCESSING".
Definition COMPLETED : string := "COMPLETED".
Definition ARCHIVED : string := "ARCHIVED".
Definition DELETING : string := "DELETING".
End PostStatus.

Module LikeStatus.
Definition ONYMOUSLY_LIKED : string := "ONYMOUSLY_LIKED".
Definition ANONYMOUSLY_LIKED : string := "ANONYMOUSLY_LIKED".
End LikeStatus.

(** ** [class PostDynamo] *)

Module PostDynamo.

(** The primary key of the canonical record of a post. *)
Definition post_pk (post_id : string) : key := ("post/" +:+ post_id, "-").

(** The rank of every member of an album that is not completed. *)
Definition unranked : Qc := Q2Qc (-1 # 1).

Definition get_post (post_id : string) : M (option item) :=
  get_item (post_pk post_id).

Definition get_next_completed_post_to_expire (user_id : string)
    (exclude_post_id : option string) : M (option item) :=
  let query_kwargs :=
    mkQuery
      (CAnd (CEq "gsiA1PartitionKey" (Lit (Str ("post/" +:+ user_id))))
            (begins_with "gsiA1SortKey" (PostStatus.COMPLETED +:+ "/")))
      "GSI-A1"
      (if opt_truthy exclude_post_id
       then Some (CNe "postId" (Lit (Str (default "" exclude_post_id))))
       else None)
      None in
  l <- generate_all_query query_kwargs ;;
  ret (head l).

Definition generate_expired_post_pks_by_day (date : Date)
    (cut_off_time : option TimeOfDay) : M (list item) :=
  let key_conditions :=
    CEq "gsiK1PartitionKey" (Lit (Str ("post/" +:+ date_str date))) ::
    match cut_off_time with
    | Some t => [CLt "gsiK1SortKey" (Lit (Str (time_str t)))]
    | None => []
    end in
  let query_kwargs :=
    mkQuery
      (match key_conditions with
       | c :: cs => foldl CAnd c cs
       | [] => attribute_exists "partitionKey"
       end)
      "GSI-K1"
      None
      (Some ["partitionKey"; "sortKey"]) in
  generate_all_query query_kwargs.

Definition text_tags_value (text_tags : list (string * string)) : attr_value :=
  Lst ((fun tu => Dict [("tag", Str tu.1); ("userId", Str tu.2)]) <$> text_tags).

Definition set_if {A} (o : option A) (k : string) (f : A -> attr_value) (it : item) : item :=
  match o with
  | Some a => <[k := f a]> it
  | None => it
  end.

(** [now] stands for [pendulum.now('utc')]. *)
Definition transact_add_pending_post (now : DateTime) (posted_by_user_id post_id post_type : string)
    (posted_at expires_at : option DateTime) (album_id text : option string)
    (text_tags : option (list (string * string)))
    (comments_disabled likes_disabled sharing_disabled verification_hidden : option bool)
    : transact_item :=
  let posted_at := default now posted_at in
  let posted_at_str := to_iso8601_string posted_at in
  let post_status := PostStatus.PENDING in
  let post_item : item :=
    <["schemaVersion" := Num (Q2Qc 3)]>
    (<["partitionKey" := Str ("post/" +:+ post_id)]>
    (<["sortKey" := Str "-"]>
    (<["gsiA2PartitionKey" := Str ("post/" +:+ posted_by_user_id)]>
    (<["gsiA2SortKey" := Str (post_status +:+ "/" +:+ posted_at_str)]>
    (<["gsiA3PartitionKey" := Str ("post/" +:+ posted_by_user_id)]>
    (<["gsiA3SortKey" := Str (post_status +:+ "/" +:+ post_type +:+ "/" +:+ posted_at_str)]>
    (<["postId" := Str post_id]>
    (<["postedAt" := Str posted_at_str]>
    (<["postedByUserId" := Str posted_by_user_id]>
    (<["postType" := Str post_type]>
    (<["postStatus" := Str post_status]> ∅))))))))))) in
  let post_item :=
    match expires_at with
    | Some expires_at =>
        let expires_at_str := to_iso8601_string expires_at in
        <["expiresAt" := Str expires_at_str]>
        (<["gsiA1PartitionKey" := Str ("post/" +:+ posted_by_user_id)]>
        (<["gsiA1SortKey" := Str (post_status +:+ "/" +:+ expires_at_str)]>
        (<["gsiK1PartitionKey" := Str ("post/" +:+ date_str (date expires_at))]>
        (<["gsiK1SortKey" := Str (time_str (time expires_at))]> post_item))))
    | None => post_item
    end in
  let post_item :=
    if opt_truthy album_id then
      <["albumId" := Str (default "" album_id)]>
      (<["gsiK3PartitionKey" := Str ("post/" +:+ default "" album_id)]>
      (<["gsiK3SortKey" := Num unranked]> post_item))
    else post_item in
  let post_item :=
    if opt_truthy text then <["text" := Str (default "" text)]> post_item else post_item in
  let post_item := set_if text_tags "textTags" text_tags_value post_item in
  let post_item := set_if comments_disabled "commentsDisabled" Boolean post_item in
  let post_item := set_if likes_disabled "likesDisabled" Boolean post_item in
  let post_item := set_if sharing_disabled "sharingDisabled" Boolean post_item in
  let post_item := set_if verification_hidden "verificationHidden" Boolean post_item in
  Put post_item (Some (attribute_not_exists "partitionKey")).

Definition transact_increment_flag_count (post_id : string) : transact_item :=
  Update (mkUpdate (post_pk post_id)
    [ADD "flagCount" ":one"]
    ∅
    {[ ":one" := Num (Q2Qc 1) ]}
    (Some (attribute_exists "partitionKey"))).

Definition transact_decrement_flag_count (post_id : string) : transact_item :=
  Update (mkUpdate (post_pk post_id)
    [ADD "flagCount" ":neg_one"]
    ∅
    (<[":neg_one" := Num (Q2Qc (-1 # 1))]> {[ ":zero" := Num (Q2Qc 0) ]})
    (Some (CAnd (attribute_exists "partitionKey") (CGt "flagCount" (Ref ":zero"))))).

Definition transact_set_post_status (post_item : item) (status : string)
    (original_post_id : option string) (album_rank : option Qc) : result transact_item :=
  let album_id := post_item !! "albumId" in
  do! assert (Bool.eqb (bool_decide (is_Some album_rank))
                (truthy album_id && String.eqb status PostStatus.COMPLETED))
        "album_rank must be specified only when completing a post in an album" in
  let album_rank := default unranked album_rank in
  let exp_sets := [SET "postStatus" ":postStatus"; SET "gsiA2SortKey" ":gsia2sk";
                   SET "gsiA3SortKey" ":gsia3sk"] in
  let! posted_at := getitem_str post_item "postedAt" in
  let! post_type := getitem_str post_item "postType" in
  let exp_values : gmap string attr_value :=
    <[":postStatus" := Str status]>
    (<[":gsia2sk" := Str (status +:+ "/" +:+ posted_at)]>
    (<[":gsia3sk" := Str (status +:+ "/" +:+ post_type +:+ "/" +:+ posted_at)]> ∅)) in
  let '(exp_sets, exp_values) :=
    if opt_truthy original_post_id
    then ((exp_sets ++ [SET "originalPostId" ":opi"])%list,
          <[":opi" := Str (default "" original_post_id)]> exp_values)
    else (exp_sets, exp_values) in
  let '(exp_sets, exp_values) :=
    if truthy album_id
    then ((exp_sets ++ [SET "gsiK3SortKey" ":ar"])%list, <[":ar" := Num album_rank]> exp_values)
    else (exp_sets, exp_values) in
  let! '(exp_sets, exp_values) :=
    if bool_decide (is_Some (post_item !! "expiresAt"))
    then let! expires_at := getitem_str post_item "expiresAt" in
         Ok ((exp_sets ++ [SET "gsiA1SortKey" ":gsiA1SortKey"])%list,
             <[":gsiA1SortKey" := Str (status +:+ "/" +:+ expires_at)]> exp_values)
    else Ok (exp_sets, exp_values) in
  let! post_id := getitem_str post_item "postId" in
  Ok (Update (mkUpdate (post_pk post_id) exp_sets ∅ exp_values
                (Some (attribute_exists "partitionKey")))).

Definition is_ccf (e : exception) : bool :=
  match e with ConditionalCheckFailedException => true | _ => false end.

Definition increment_viewed_by_count (post_id : string) : M item :=
  let query_kwargs :=
    mkUpdate (post_pk post_id)
      [ADD "viewedByCount" ":one"]
      ∅
      {[ ":one" := Num (Q2Qc 1) ]}
      None in
  try_except (update_item query_kwargs) is_ccf (raise (PostDoesNotExist post_id)).

(** [PostDynamo.set]; the name [set] is taken by the library. *)
Definition set_ (post_id : string) (text : option string)
    (text_tags : option (list (string * string)))
    (comments_disabled likes_disabled sharing_disabled verification_hidden : option bool)
    : M item :=
  lift (assert (bool_decide (is_Some text) || bool_decide (is_Some comments_disabled)
                || bool_decide (is_Some likes_disabled) || bool_decide (is_Some sharing_disabled)
                || bool_decide (is_Some verification_hidden))
          "Action-less post edit requested") ;;;
  let '(exp_remove, exp_set, exp_names, exp_values) :=
    match text with
    | Some text =>
        (* empty string deletes *)
        if String.eqb text ""
        then ([REMOVE "#text"; REMOVE "textTags"], [],
              ({[ "#text" := "text" ]} : gmap string string),
              (∅ : gmap string attr_value))
        else ([], SET "#text" ":text" ::
                    match text_tags with Some _ => [SET "textTags" ":tu"] | None => [] end,
              {[ "#text" := "text" ]},
              set_if text_tags ":tu" text_tags_value {[ ":text" := Str text ]})
    | None => ([], [], ∅, ∅)
    end in
  let add_flag (o : option bool) (attr ph : string)
      (acc : list action * gmap string attr_value) :=
    match o with
    | Some b => ((acc.1 ++ [SET attr ph])%list, <[ph := Boolean b]> acc.2)
    | None => acc
    end in
  let '(exp_set, exp_values) :=
    add_flag verification_hidden "verificationHidden" ":vd"
      (add_flag sharing_disabled "sharingDisabled" ":sd"
         (add_flag likes_disabled "likesDisabled" ":ld"
            (add_flag comments_disabled "commentsDisabled" ":cd" (exp_set, exp_values)))) in
  let update_query_kwargs :=
    mkUpdate (post_pk post_id) (exp_remove ++ exp_set)%list exp_names exp_values None in
  update_item update_query_kwargs.

Definition set_checksum (post_id posted_at_str : string) (checksum : option string) : M item :=
  lift (assert (opt_truthy checksum) "") ;;;  (* no deletes *)
  let checksum := default "" checksum in
  let query_kwargs :=
    mkUpdate (post_pk post_id)
      [SET "checksum" ":checksum"; SET "gsiK2PartitionKey" ":pk"; SET "gsiK2SortKey" ":sk"]
      ∅
      (<[":checksum" := Str checksum]>
       (<[":pk" := Str ("postChecksum/" +:+ checksum)]>
        {[ ":sk" := Str posted_at_str ]}))
      None in
  update_item query_kwargs.

Definition get_first_with_checksum (checksum : string)
    : M (option string * option attr_value) :=
  let query_kwargs :=
    mkQuery (CEq "gsiK2PartitionKey" (Lit (Str ("postChecksum/" +:+ checksum))))
      "GSI-K2" None None in
  keys <- query_head query_kwargs ;;
  match keys with
  | Some keys =>
      if bool_decide (size keys = 0) then ret (None, None)
      else
        pk <- lift (getitem_str keys "partitionKey") ;;
        post_id <- lift (subscript (split "/" pk) 1) ;;
        match keys !! "gsiK2SortKey" with
        | Some posted_at => ret (Some post_id, Some posted_at)
        | None => raise (KeyError "gsiK2SortKey")
        end
  | None => ret (None, None)
  end.

Definition set_expires_at (post_item : item) (expires_at : DateTime) : M item :=
  let expires_at_str := to_iso8601_string expires_at in
  post_id <- lift (getitem_str post_item "postId") ;;
  posted_by_user_id <- lift (getitem_str post_item "postedByUserId") ;;
  post_status <- lift (getitem_str post_item "postStatus") ;;
  let update_query_kwargs :=
    mkUpdate (post_pk post_id)
      [SET "expiresAt" ":ea"; SET "gsiA1PartitionKey" ":ga1pk"; SET "gsiA1SortKey" ":ga1sk";
       SET "gsiK1PartitionKey" ":gk1pk"; SET "gsiK1SortKey" ":gk1sk"]
      ∅
      (<[":ea" := Str expires_at_str]>
       (<[":ga1pk" := Str ("post/" +:+ posted_by_user_id)]>
        (<[":ga1sk" := Str (post_status +:+ "/" +:+ expires_at_str)]>
         (<[":gk1pk" := Str ("post/" +:+ date_str (date expires_at))]>
          (<[":gk1sk" := Str (time_str (time expires_at))]>
           {[ ":ps" := Str post_status ]})))))
      (Some (CEq "postStatus" (Ref ":ps"))) in
  update_item update_query_kwargs.

Definition remove_expires_at (post_id : string) : M item :=
  let update_query_kwargs :=
    mkUpdate (post_pk post_id)
      [REMOVE "expiresAt"; REMOVE "gsiA1PartitionKey"; REMOVE "gsiA1SortKey";
       REMOVE "gsiK1PartitionKey"; REMOVE "gsiK1SortKey"]
      ∅ ∅ None in
  update_item update_query_kwargs.

Definition like_count_attribute (like_status : string) : result string :=
  if String.eqb like_status LikeStatus.ONYMOUSLY_LIKED then Ok "onymousLikeCount"
  else if String.eqb like_status LikeStatus.ANONYMOUSLY_LIKED then Ok "anonymousLikeCount"
  else Raise (PostException ("Unrecognized like status `" +:+ like_status +:+ "`")).

Definition transact_increment_like_count (post_id like_status : string) : result transact_item :=
  let! like_count_attribute := like_count_attribute like_status in
  Ok (Update (mkUpdate (post_pk post_id)
    [ADD "#count_name" ":one"]
    {[ "#count_name" := like_count_attribute ]}
    {[ ":one" := Num (Q2Qc 1) ]}
    (Some (attribute_exists "partitionKey")))).

Definition transact_decrement_like_count (post_id like_status : string) : result transact_item :=
  let! like_count_attribute := like_count_attribute like_status in
  Ok (Update (mkUpdate (post_pk post_id)
    [ADD "#count_name" ":negative_one"]
    {[ "#count_name" := like_count_attribute ]}
    (<[":negative_one" := Num (Q2Qc (-1 # 1))]> {[ ":zero" := Num (Q2Qc 0) ]})
    (* only updates and no going below zero *)
    (Some (CAnd (attribute_exists "partitionKey") (CGt "#count_name" (Ref ":zero")))))).

Definition transact_increment_comment_count (post_id : string) : transact_item :=
  Update (mkUpdate (post_pk post_id)
    [ADD "commentCount" ":one"]
    ∅
    {[ ":one" := Num (Q2Qc 1) ]}
    (Some (attribute_exists "partitionKey"))).

Definition transact_decrement_comment_count (post_id : string) : transact_item :=
  Update (mkUpdate (post_pk post_id)
    [ADD "commentCount" ":negative_one"]
    ∅
    (<[":negative_one" := Num (Q2Qc (-1 # 1))]> {[ ":zero" := Num (Q2Qc 0) ]})
    (* only updates and no going below zero *)
    (Some (CAnd (attribute_exists "partitionKey") (CGt "commentCount" (Ref ":zero"))))).

Definition transact_set_album_id (post_item : item) (album_id : option string)
    (album_rank : option Qc) : result transact_item :=
  let! post_id := getitem_str post_item "postId" in
  let! post_status := getitem_str post_item "postStatus" in
  do! assert (Bool.eqb (bool_decide (is_Some album_rank))
                (opt_truthy album_id && String.eqb post_status PostStatus.COMPLETED))
        "album_rank must be specified only when setting album_id for a completed post" in
  let album_rank := default unranked album_rank in
  if opt_truthy album_id then
    let album_id := default "" album_id in
    Ok (Update (mkUpdate (post_pk post_id)
      [SET "albumId" ":aid"; SET "gsiK3PartitionKey" ":pk"; SET "gsiK3SortKey" ":ar"]
      ∅
      (<[":aid" := Str album_id]>
       (<[":pk" := Str ("post/" +:+ album_id)]>
        (<[":ar" := Num album_rank]>
         {[ ":ps" := Str post_status ]})))
      (Some (CAnd (attribute_exists "partitionKey") (CEq "postStatus" (Ref ":ps"))))))
  else
    Ok (Update (mkUpdate (post_pk post_id)
      [REMOVE "albumId"; REMOVE "gsiK3PartitionKey"; REMOVE "gsiK3SortKey"]
      ∅ ∅
      (Some (attribute_exists "partitionKey")))).

Definition transact_set_album_rank (post_id : string) (album_rank : Qc) : transact_item :=
  Update (mkUpdate (post_pk post_id)
    [SET "gsiK3SortKey" ":ar"]
    ∅
    {[ ":ar" := Num album_rank ]}
    (Some (attribute_exists "partitionKey"))).

(** The generator is modelled by the list of ids it yields when consumed. *)
Definition generate_post_ids_in_album (album_id : string) (completed : option bool)
    (after_rank : option Qc) : M (list string) :=
  lift (assert (negb (bool_decide (is_Some completed)) || negb (bool_decide (is_Some after_rank)))
          "Cant specify both completed and after_rank kwargs") ;;;
  let key_exps := [CEq "gsiK3PartitionKey" (Lit (Str ("post/" +:+ album_id)))] in
  let key_exps :=
    match completed with
    | Some true => (key_exps ++ [CGt "gsiK3SortKey" (Lit (Num unranked))])%list
    | _ => key_exps
    end in
  let key_exps :=
    match completed with
    | Some false => (key_exps ++ [CEq "gsiK3SortKey" (Lit (Num unranked))])%list
    | _ => key_exps
    end in
  let key_exps :=
    match after_rank with
    | Some r => (key_exps ++ [CGt "gsiK3SortKey" (Lit (Num r))])%list
    | None => key_exps
    end in
  let query_kwargs :=
    mkQuery
      (match key_exps with
       | c :: cs => foldl CAnd c cs
       | [] => attribute_exists "partitionKey"
       end)
      "GSI-K3" None (Some ["partitionKey"]) in
  l <- generate_all_query query_kwargs ;;
  lift (rmap (fun it : item =>
          let! pk := getitem_str it "partitionKey" in
          subscript (split "/" pk) 1) l).

End PostDynamo.

(** ** Callers of the builders *)

Module Caller.
Import PostDynamo.

(** How the tests and the post model submit one built operation,
    [client.transact_write_items([build(...)])]: the builder runs first. *)
Definition write_one (build : result transact_item) : M unit :=
  tx <- lift build ;;
  transact_write_items [tx].

(** The counters that have a conditional decrement. *)
Inductive counter :=
| FlagCount
| OnymousLikeCount
| AnonymousLikeCount
| CommentCount.

Definition counter_attr (c : counter) : string :=
  match c with
  | FlagCount => "flagCount"
  | OnymousLikeCount => "onymousLikeCount"
  | AnonymousLikeCount => "anonymousLikeCount"
  | CommentCount => "commentCount"
  end.

Definition transact_increment (c : counter) (post_id : string) : result transact_item :=
  match c with
  | FlagCount => Ok (transact_increment_flag_count post_id)
  | OnymousLikeCount => transact_increment_like_count post_id LikeStatus.ONYMOUSLY_LIKED
  | AnonymousLikeCount => transact_increment_like_count post_id LikeStatus.ANONYMOUSLY_LIKED
  | CommentCount => Ok (transact_increment_comment_count post_id)
  end.

Definition transact_decrement (c : counter) (post_id : string) : result transact_item :=
  match c with
  | FlagCount => Ok (transact_decrement_flag_count post_id)
  | OnymousLikeCount => transact_decrement_like_count post_id LikeStatus.ONYMOUSLY_LIKED
  | AnonymousLikeCount => transact_decrement_like_count post_id LikeStatus.ANONYMOUSLY_LIKED
  | CommentCount => Ok (transact_decrement_comment_count post_id)
  end.

(** Modelled from the spec: the decrement call with its [fail_soft]
    parameter (section 4.1, counters; section 7, decrement-below-zero), which
    [dynamo.py] does not define although its tests call it.  The call submits
    the conditional update that [transact_decrement_*] builds; when the
    condition fails it propagates the conflict (fail hard) or logs a warning
    and returns nothing (fail soft). *)
Definition decrement_count (c : counter) (post_id : string) (fail_soft : bool)
    : M (option item) :=
  tx <- lift (transact_decrement c post_id) ;;
  match tx with
  | Update u =>
      try_except (it <- update_item u ;; ret (Some it)) is_ccf
        (if fail_soft
         then logger_warning ("Failed to decrement " +:+ counter_attr c
                              +:+ " for post " +:+ post_id) ;;;
              ret None
         else raise ConditionalCheckFailedException)
  | _ => raise ValidationException
  end.

(** The stored value of a counter of a post. *)
Definition counter_value (t : table) (post_id : string) (c : counter) : option attr_value :=
  t !! post_pk post_id ≫= fun it => it !! counter_attr c.

(** A call on a counter, and the state a sequence of calls leaves; an
    exception ends the call that raised it, not the sequence. *)
Inductive counter_call :=
| Increment (c : counter) (post_id : string)
| Decrement (c : counter) (post_id : string) (fail_soft : bool).

Definition counter_step (w : world) (op : counter_call) : world :=
  match op with
  | Increment c post_id => (write_one (transact_increment c post_id) w).2
  | Decrement c post_id fail_soft => (decrement_count c post_id fail_soft w).2
  end.

Definition counter_steps (ops : list counter_call) (w : world) : world :=
  foldl counter_step w ops.

(** A stored counter is a natural number. *)
Definition is_count (v : attr_value) : Prop :=
  exists n : nat, v = Num (Q2Qc (inject_Z (Z.of_nat n))).

Definition counters_ok (t : table) : Prop :=
  forall post_id c v, counter_value t post_id c = Some v -> is_count v.

End Caller.

(** ** The followed-first-story aggregate

    Modelled from the spec: [FollowedFirstStoryManager]
    ([app/models/followed_first_story]) is not among the sources, only its
    tests are.  Section 3 describes the pointer record, and section 4.4 the
    interface of [refreshAfterStoryChange] and the pages of up to 25
    followers.  Where the steps of section 4.4 and the assertions of
    [test_manager.py] differ, the tests are followed: the post of the call is
    excluded from the query of the next story to expire, the pointers are not
    read, and the story of the call is written to the pointers when nothing
    else expires before it, stored or not
    ([test_refresh_after_add_story_not_yet_in_db] and the last steps of
    [test_refresh_remove_story_order]).  Expiries are compared as the
    ISO-8601 strings the records hold.  Who follows whom belongs to the
    follow manager: [followers user_id] is the list of the followers of
    [user_id]. *)

Module FollowedFirstStory.
Import PostDynamo.

Section Manager.
Variable followers : string -> list string.

Definition ffs_pk (follower_user_id followed_user_id : string) : key :=
  ("followedFirstStory/" +:+ follower_user_id +:+ "/" +:+ followed_user_id, "-").

(** The pointer of a pair: the identity of the story and the fields copied
    from it. *)
Definition pointer_item (follower_user_id followed_user_id : string) (story : item) : item :=
  <["partitionKey" := Str (ffs_pk follower_user_id followed_user_id).1]>
  (<["sortKey" := Str "-"]>
  (filter (fun kv => kv.1 ∈ ["postId"; "postedByUserId"; "postedAt"; "expiresAt"]) story)).

(** Pages of up to [n] ids. *)
Fixpoint batches_from {A} (n : nat) (page : list A) (l : list A) : list (list A) :=
  match l with
  | [] => match page with [] => [] | _ => [rev page] end
  | x :: l' =>
      if Nat.eqb (S (length page)) n then rev (x :: page) :: batches_from n [] l'
      else batches_from n (x :: page) l'
  end.

Definition generate_batched_follower_user_ids (followed_user_id : string) : list (list string) :=
  batches_from 25 [] (followers followed_user_id).

(** Nothing but the story expires before the next story of the owner: there
    is a story, and either no next story or the expiry of the story is not
    above that of the next story, as strings. *)
Definition is_first (story next_story : option item) : result bool :=
  match story, next_story with
  | None, _ => Ok false
  | Some _, None => Ok true
  | Some s, Some n =>
      let! e := getitem_str s "expiresAt" in
      let! e' := getitem_str n "expiresAt" in
      Ok (String.leb e e')
  end.

(** The pointer of every follower is overwritten to reference the story,
    one transaction per page. *)
Fixpoint set_all (followed_user_id : string) (pages : list (list string)) (story : item)
    : M unit :=
  match pages with
  | [] => ret tt
  | page :: pages' =>
      transact_write_items
        ((fun f => Put (pointer_item f followed_user_id story) None) <$> page) ;;;
      set_all followed_user_id pages' story
  end.

(** The pointer of every follower is deleted, one transaction per page. *)
Fixpoint delete_all (followed_user_id : string) (pages : list (list string)) : M unit :=
  match pages with
  | [] => ret tt
  | page :: pages' =>
      transact_write_items ((fun f => Delete (ffs_pk f followed_user_id)) <$> page) ;;;
      delete_all followed_user_id pages'
  end.

(** The next story of the owner is queried with the post of the call
    excluded.  When nothing expires before [story_now], the pointers are set
    to it; else, when nothing expired before [story_prev], the pointers are
    set to the next story, or deleted when there is none; else they are left
    as they are. *)
Definition refresh_after_story_change (story_prev story_now : option item) : M unit :=
  lift (assert (bool_decide (is_Some story_prev) || bool_decide (is_Some story_now))
          "neither story_prev nor story_now") ;;;
  let story := default (default ∅ story_prev) story_now in
  post_id <- lift (getitem_str story "postId") ;;
  user_id <- lift (getitem_str story "postedByUserId") ;;
  let pages := generate_batched_follower_user_ids user_id in
  next_story <- get_next_completed_post_to_expire user_id (Some post_id) ;;
  now_first <- lift (is_first story_now next_story) ;;
  prev_first <- lift (is_first story_prev next_story) ;;
  if now_first then set_all user_id pages (default ∅ story_now)
  else if prev_first then
    match next_story with
    | Some s => set_all user_id pages s
    | None => delete_all user_id pages
    end
  else ret tt.

(** What happens to the stories of a user and to the aggregate: the store
    mutations of [PostDynamo] and the refresh calls that report them. *)
Inductive event :=
| SetExpiresAt (post_item : item) (expires_at : DateTime)
| RemoveExpiresAt (post_id : string)
| Refresh (story_prev story_now : option item).

Definition apply_event (w : world) (e : event) : world :=
  match e with
  | SetExpiresAt post_item expires_at => (set_expires_at post_item expires_at w).2
  | RemoveExpiresAt post_id => (remove_expires_at post_id w).2
  | Refresh story_prev story_now => (refresh_after_story_change story_prev story_now w).2
  end.

Definition apply_events (es : list event) (w : world) : world :=
  foldl apply_event w es.

End Manager.

Definition gsi_a1 : index := mkIndex "gsiA1PartitionKey" "gsiA1SortKey" false.

(** The active stories of a user: the completed posts the expiry index
    holds for them. *)
Definition is_story (user_id : string) (it : item) : bool :=
  in_index gsi_a1 it
  && eval_condition ∅ ∅ it
       (CAnd (CEq "gsiA1PartitionKey" (Lit (Str ("post/" +:+ user_id))))
             (begins_with "gsiA1SortKey" (PostStatus.COMPLETED +:+ "/"))).

Definition stories (t : table) (user_id : string) : list item :=
  List.filter (is_story user_id) (map_to_list t).*2.

(** The expiry the index holds for a story. *)
Definition expires (s : item) (expires_at : string) : Prop :=
  s !! "gsiA1SortKey" = Some (Str (PostStatus.COMPLETED +:+ "/" +:+ expires_at)).

(** [s] is a story of the user with the least expiry, in the order of the
    index: the expiries are compared as the strings the sort key holds, as
    [String.leb] compares them. *)
Definition first_story (t : table) (user_id : string) (s : item) : Prop :=
  In s (stories t user_id) /\
  forall s' e e', In s' (stories t user_id) -> expires s e -> expires s' e' ->
    String.leb e e' = true.

(** The pointer of a pair agrees with the stories of the followed user:
    absent when there is none, else a reference to a first story. *)
Definition pointer_correct (t : table) (follower_user_id followed_user_id : string) : Prop :=
  match t !! ffs_pk follower_user_id followed_user_id with
  | None => stories t followed_user_id = []
  | Some p => exists s, first_story t followed_user_id s /\ p !! "postId" = s !! "postId"
  end.

(** No pointer record is an entry of the expiry index. *)
Definition pointers_unindexed (t : table) : Prop :=
  forall f u it, t !! ffs_pk f u = Some it -> in_index gsi_a1 it = false.

End FollowedFirstStory.


(** ** Scans and batch reads

    Modelled from the spec: section 6 lists [scan] (a lazy sequence of the
    items that pass the filter, unordered) and [batchGetItems] (the items
    found, missing keys silently omitted) among the operations of the storage
    adapter.  Both only read; the request log, which records the calls the
    write paths are checked against, does not list them. *)

Module DynamoReads.

Record scan_kwargs := mkScan {
  ScanFilterExpression : option condition;
  ScanProjectionExpression : option (list string);
}.

(** The items a scan yields, in the order the table lists them. *)
Definition scan_items (q : scan_kwargs) (t : table) : list item :=
  project (ScanProjectionExpression q)
  <$> List.filter (fun it => match ScanFilterExpression q with
                             | Some f => eval_condition ∅ ∅ it f
                             | None => true
                             end) (map_to_list t).*2.

(** [client.generate_all_scan(kwargs)], as the list the generator yields. *)
Definition generate_all_scan (q : scan_kwargs) : M (list item) :=
  bind get_db (fun t => ret (scan_items q t)).

(** [client.batch_get_items(typed_keys, projection)] *)
Definition batch_get_items (keys : list key) (projection : list string) : M (list item) :=
  bind get_db (fun t => ret (omap (fun k => project (Some projection) <$> t !! k) keys)).

(** [r[k]['S']] on a typed item. *)
Definition typed_str (r : item) (k : string) : result string :=
  match r !! k with
  | Some (Str s) => Ok s
  | Some _ => Raise (KeyError "S")
  | None => Raise (KeyError k)
  end.

End DynamoReads.

(** ** [class PostDynamo]: deletion, original metadata, comment activity and
    the posts of a user *)

Module PostDynamoRecords.
Import PostDynamo DynamoReads.

(** The primary key of the original-metadata record of a post. *)
Definition original_metadata_pk (post_id : string) : key :=
  ("post/" +:+ post_id, "originalMetadata").

Definition get_original_metadata (post_id : string) : M (option item) :=
  get_item (original_metadata_pk post_id).

Definition delete_post (post_id : string) : M unit :=
  delete_item (post_pk post_id).

Definition delete_original_metadata (post_id : string) : M unit :=
  delete_item (original_metadata_pk post_id).

(** The filter ['postStatus = :status'] is written with the value of its
    placeholder, [PostStatus.COMPLETED], in place. *)
(** Given a list of post ids, return the ids of the users who posted them. *)
Definition batch_get_posted_by_user_ids (post_ids : list string) : M (list string) :=
  let projection_expression := ["postedByUserId"] in
  let typed_keys := post_pk <$> post_ids in
  typed_result <- batch_get_items typed_keys projection_expression ;;
  lift (rmap (fun r => typed_str r "postedByUserId") typed_result).

(** Do a table scan to generate pks of expired posts.  Does not include
    [cut_off_date]. *)
Definition generate_expired_post_pks_with_scan (cut_off_date : Date) : M (list item) :=
  let query_kwargs :=
    mkScan
      (Some (CAnd (begins_with "partitionKey" "post/")
                  (CLt "expiresAt" (Lit (Str (date_str cut_off_date))))))
      (Some ["partitionKey"; "sortKey"]) in
  generate_all_scan query_kwargs.

Definition generate_posts_by_user (user_id : string) (completed : option bool)
    : M (list item) :=
  let query_kwargs :=
    mkQuery (CEq "gsiA2PartitionKey" (Lit (Str ("post/" +:+ user_id))))
      "GSI-A2"
      (match completed with
       | Some completed =>
           Some (if completed
                 then CEq "postStatus" (Lit (Str PostStatus.COMPLETED))
                 else CNe "postStatus" (Lit (Str PostStatus.COMPLETED)))
       | None => None
       end)
      None in
  generate_all_query query_kwargs.

Definition transact_add_original_metadata (post_id original_metadata : string)
    : transact_item :=
  Put (<["schemaVersion" := Num (Q2Qc 0)]>
       (<["partitionKey" := Str ("post/" +:+ post_id)]>
       (<["sortKey" := Str "originalMetadata"]>
       (<["originalMetadata" := Str original_metadata]> ∅))))
      (Some (attribute_not_exists "partitionKey")).  (* no updates, just adds *)

(** Set the boolean [hasNewCommentActivity]. *)
Definition transact_set_has_new_comment_activity (post_id : string) (new_value : bool)
    : transact_item :=
  let cond_exp := attribute_exists "partitionKey" in
  let cond_exp :=
    if new_value
    then CAnd cond_exp (COr (attribute_not_exists "hasNewCommentActivity")
                            (CEq "hasNewCommentActivity" (Ref ":ov")))
    else CAnd cond_exp (CEq "hasNewCommentActivity" (Ref ":ov")) in
  Update (mkUpdate (post_pk post_id)
    [SET "hasNewCommentActivity" ":nv"]
    ∅
    (<[":nv" := Boolean new_value]> {[ ":ov" := Boolean (negb new_value) ]})
    (Some cond_exp)).

End PostDynamoRecords.

(** * Vocabulary of the properties and example stores *)

Import PostDynamo Caller FollowedFirstStory.

(** The post is in an album: its [albumId] is there and not empty, which is
    how [transact_add_pending_post] and [transact_set_album_id] write it and
    how the code reads it. *)
Definition has_album (post_item : item) : Prop :=
  truthy (post_item !! "albumId") = true.

(** The album rank is supplied exactly when it must be. *)
Definition rank_presence_ok (post_item : item) (status : string) (album_rank : option Qc) : Prop :=
  is_Some album_rank <-> (has_album post_item /\ status = PostStatus.COMPLETED).

(** [it] is the record the table holds under [k]; a record carries its key. *)
Definition stored (t : table) (k : key) (it : item) : Prop :=
  t !! k = Some it /\ it !! "partitionKey" = Some (Str k.1) /\ it !! "sortKey" = Some (Str k.2).

(** The in-memory item of a post as [get_post] returns it, as far as the
    status update reads it: identity, posting time and type are strings, and
    so is the expiry when there is one. *)
Definition well_formed_post (post_item : item) (post_id : string) : Prop :=
  post_item !! "postId" = Some (Str post_id)
  /\ (exists s, post_item !! "postedAt" = Some (Str s))
  /\ (exists s, post_item !! "postType" = Some (Str s))
  /\ (forall v, post_item !! "expiresAt" = Some v -> exists s, v = Str s).

(** The attributes a status update may write. *)
Definition status_attrs (post_item : item) (original_post_id : option string) : list string :=
  (["postStatus"; "gsiA2SortKey"; "gsiA3SortKey"]
   ++ (if opt_truthy original_post_id then ["originalPostId"] else [])
   ++ (if truthy (post_item !! "albumId") then ["gsiK3SortKey"] else [])
   ++ (if bool_decide (is_Some (post_item !! "expiresAt")) then ["gsiA1SortKey"] else []))%list.

(** The tags the table holds for a post. *)
Definition stored_tags (t : table) (post_id : string) : option attr_value :=
  t !! post_pk post_id ≫= fun it => it !! "textTags".

Definition record_at (t : table) (k : key) : item := default ∅ (t !! k).

Definition empty_world : world := mkWorld ∅ [] [].

Definition noon : DateTime := mkDateTime (mkDate 2020 1 2) (mkTime 12 0 0 0).

(** A table holding one pending post with a text and a tag. *)
Definition tagged_world : world :=
  (transact_write_items
     [transact_add_pending_post noon "uidA" "pid1" "TEXT_ONLY" None None None
        (Some "over the @rainbow") (Some [("@rainbow", "tagged-uid")])
        None None None None] empty_world).2.

(** An album prepared for the examples: a pending post of an album that
    expires the same afternoon, and a plain pending post. *)
Definition afternoon : DateTime := mkDateTime (mkDate 2020 1 2) (mkTime 16 0 0 0).

Definition album_world : world :=
  (transact_write_items
     [transact_add_pending_post noon "uid" "pid" "TEXT_ONLY" None (Some afternoon)
        (Some "aid") (Some "lore") None None None None None] empty_world).2.

Definition plain_world : world :=
  (transact_write_items
     [transact_add_pending_post noon "uid" "pid" "TEXT_ONLY" None None None
        (Some "lore") None None None None None] empty_world).2.

(** The operations that maintain the owner-status and album-rank keys. *)
Inductive index_op :=
| SetStatus (status : string) (original_post_id : option string) (album_rank : option Qc)
| SetAlbum (album_id : option string) (album_rank : option Qc).

Definition build_op (post_item : item) (op : index_op) : result transact_item :=
  match op with
  | SetStatus status original_post_id album_rank =>
      transact_set_post_status post_item status original_post_id album_rank
  | SetAlbum album_id album_rank => transact_set_album_id post_item album_id album_rank
  end.





Definition complete_in_album : index_op :=
  SetStatus PostStatus.COMPLETED None (Some (Q2Qc (1 # 2))).

Definition album_world_completed : world :=
  (write_one (build_op (record_at (db album_world) (post_pk "pid")) complete_in_album)
     album_world).2.

(** [ADD attr d] on a record. *)
Definition add_to (attr : string) (d : Qc) (it : item) : result item :=
  match it !! attr with
  | None => Ok (<[attr := Num d]> it)
  | Some (Num n) => Ok (<[attr := Num (n + d)%Qc]> it)
  | Some _ => Raise ValidationException
  end.

Definition is_positive (o : option attr_value) : bool :=
  match o with
  | Some v => value_ltb (Num (Q2Qc 0)) v
  | None => false
  end.

Definition count (n : nat) : Qc := Q2Qc (inject_Z (Z.of_nat n)).

(** An executable check of [counters_ok], for the examples. *)
Definition counters_okb (t : table) : bool :=
  forallb (fun kv : key * item =>
    forallb (fun c =>
      match kv.2 !! counter_attr c with
      | None => true
      | Some (Num n) => bool_decide (n = count (Z.to_nat (Qnum n)))
      | Some _ => false
      end) [FlagCount; OnymousLikeCount; AnonymousLikeCount; CommentCount])
    (map_to_list t).

Definition flag_calls : list counter_call :=
  [Increment FlagCount "pid"; Decrement FlagCount "pid" false;
   Decrement FlagCount "pid" true; Decrement FlagCount "pid" false].

Definition lex (c d : comparison) : comparison :=
  match c with Eq => d | _ => c end.

Definition time_compare (a b : TimeOfDay) : comparison :=
  lex (hour a ?= hour b)%nat
    (lex (minute a ?= minute b)%nat
       (lex (second a ?= second b)%nat (microsecond a ?= microsecond b)%nat)).

Definition fraction (us : nat) : string :=
  if Nat.eqb us 0 then "" else "." +:+ pad 6 us.

Definition indexed (ix : index) (it : item) : Prop := in_index ix it = true.

(** The entry of a post in the per-day expiry index: the day it expires on
    and the time of day, as the store holds them. *)
Definition day_entry (date : Date) (it : item) (time_of_day : string) : Prop :=
  it !! "gsiK1PartitionKey" = Some (Str ("post/" +:+ date_str date))
  /\ it !! "gsiK1SortKey" = Some (Str time_of_day).

(** The post expires on the day, strictly before the cut-off when there is
    one. *)
Definition expired_on (date : Date) (cut_off_time : option TimeOfDay) (it : item) : Prop :=
  exists time_of_day,
    day_entry date it time_of_day
    /\ match cut_off_time with
       | Some t => String.ltb time_of_day (time_str t) = true
       | None => True
       end.

Definition expired_onb (date : Date) (cut_off_time : option TimeOfDay) (it : item) : bool :=
  match it !! "gsiK1PartitionKey", it !! "gsiK1SortKey" with
  | Some (Str p), Some (Str s) =>
      String.eqb p ("post/" +:+ date_str date)
      && match cut_off_time with
         | Some t => String.ltb s (time_str t)
         | None => true
         end
  | _, _ => false
  end.

Definition earlier_in_day (a b : item) : Prop :=
  exists x y, a !! "gsiK1SortKey" = Some (Str x) /\ b !! "gsiK1SortKey" = Some (Str y)
              /\ String.leb x y = true.

(** The primary key of a record, which is what the query projects. *)
Definition key_of (it : item) : item :=
  filter (fun kv => kv.1 ∈ ["partitionKey"; "sortKey"]) it.

Definition gsi_k1 : index := mkIndex "gsiK1PartitionKey" "gsiK1SortKey" false.

Fixpoint has_char (c : ascii) (s : string) : bool :=
  match s with
  | EmptyString => false
  | String x s' => Ascii.eqb x c || has_char c s'
  end.

(** Post ids that the key scheme [post/<id>] can hold. *)
Definition no_slash (s : string) : Prop := has_char "/" s = false.

Definition gsi_k2 : index := mkIndex "gsiK2PartitionKey" "gsiK2SortKey" false.


Definition has_checksum (checksum : string) (it : item) : bool :=
  in_index gsi_k2 it
  && eval_condition ∅ ∅ it
       (CEq "gsiK2PartitionKey" (Lit (Str ("postChecksum/" +:+ checksum)))).


(** Two pending posts, the second posted four hours after the first. *)
Definition two_posts_world : world :=
  (transact_write_items
     [transact_add_pending_post noon "uid" "pid" "TEXT_ONLY" None None None
        (Some "lore") None None None None None;
      transact_add_pending_post afternoon "uid" "pid2" "TEXT_ONLY" None None None
        (Some "ipsum") None None None None None] empty_world).2.


(** A completed post of "uid" without an expiry, its in-memory item, and
    the story it becomes when it is given an expiry. *)
Definition plain_world_completed : world :=
  (write_one (build_op (record_at (db plain_world) (post_pk "pid"))
                (SetStatus PostStatus.COMPLETED None None)) plain_world).2.

Definition plain_post : item := record_at (db plain_world_completed) (post_pk "pid").

Definition plain_story : item :=
  record_at (db (set_expires_at plain_post afternoon plain_world_completed).2) (post_pk "pid").

Definition one_follower (u : string) : list string :=
  if String.eqb u "uid" then ["fid"] else [].

Import PostDynamoRecords.

(** Whether the stored flag lets [new_value] be written. *)
Definition activity_settable (it : item) (new_value : bool) : bool :=
  match it !! "hasNewCommentActivity" with
  | None => new_value
  | Some (Boolean b) => negb (Bool.eqb b new_value)
  | Some _ => false
  end.

(** The item of a put. *)
Definition put_item (tx : transact_item) : item :=
  match tx with
  | Put it _ => it
  | _ => ∅
  end.

(** The record of a post once it is given an expiry. *)
Definition with_expiry (it : item) (posted_by_user_id post_status : string)
    (expires_at : DateTime) : item :=
  <["gsiK1SortKey" := Str (time_str (time expires_at))]>
  (<["gsiK1PartitionKey" := Str ("post/" +:+ date_str (date expires_at))]>
  (<["gsiA1SortKey" := Str (post_status +:+ "/" +:+ to_iso8601_string expires_at)]>
  (<["gsiA1PartitionKey" := Str ("post/" +:+ posted_by_user_id)]>
  (<["expiresAt" := Str (to_iso8601_string expires_at)]> it)))).

(** The attributes that hold the expiry of a post and its index entries. *)
Definition expiry_attrs : list string :=
  ["expiresAt"; "gsiA1PartitionKey"; "gsiA1SortKey"; "gsiK1PartitionKey"; "gsiK1SortKey"].

(** The record of a post once its expiry is removed. *)
Definition without_expiry (it : item) : item :=
  delete "gsiK1SortKey" (delete "gsiK1PartitionKey" (delete "gsiA1SortKey"
    (delete "gsiA1PartitionKey" (delete "expiresAt" it)))).

(** A decision procedure for [valid_time]. *)
Definition valid_timeb (t : TimeOfDay) : bool :=
  (hour t <? 24)%nat && (minute t <? 60)%nat && (second t <? 60)%nat
  && (N.of_nat (microsecond t) <? 1000000)%N.

(** The completed post of "uid" once it expires in the afternoon. *)
Definition story_world : world := (set_expires_at plain_post afternoon plain_world_completed).2.

Definition half_past_five : TimeOfDay := mkTime 17 30 0 0.

(** The number of views a record holds. *)
Definition views (it : item) : Qc :=
  match it !! "viewedByCount" with
  | Some (Num n) => n
  | _ => Q2Qc 0
  end.

(** A decision procedure for the absence of a checksum from a table. *)
Definition no_checksum (t : table) (c : string) : bool :=
  forallb (fun kv : key * item =>
    match kv.2 !! "gsiK2PartitionKey" with
    | Some (Str p) => negb (String.eqb p ("postChecksum/" +:+ c))
    | _ => true
    end) (map_to_list t).

Definition gsi_k3 : index := mkIndex "gsiK3PartitionKey" "gsiK3SortKey" true.

(** The post is a member of the album with a rank the query asks for: above
    -1 for completed posts, -1 for the others, above the cursor when there
    is one. *)
Definition in_album (album_id : string) (completed : option bool) (after_rank : option Qc)
    (it : item) : Prop :=
  exists r,
    it !! "gsiK3PartitionKey" = Some (Str ("post/" +:+ album_id))
    /\ it !! "gsiK3SortKey" = Some (Num r)
    /\ (completed = Some true -> (unranked < r)%Qc)
    /\ (completed = Some false -> r = unranked)
    /\ (forall a, after_rank = Some a -> (a < r)%Qc).

Definition in_albumb (album_id : string) (completed : option bool) (after_rank : option Qc)
    (it : item) : bool :=
  match it !! "gsiK3PartitionKey", it !! "gsiK3SortKey" with
  | Some (Str p), Some (Num r) =>
      String.eqb p ("post/" +:+ album_id)
      && match completed with
         | Some true => value_ltb (Num unranked) (Num r)
         | Some false => value_eqb (Num r) (Num unranked)
         | None => true
         end
      && match after_rank with
         | Some a => value_ltb (Num a) (Num r)
         | None => true
         end
  | _, _ => false
  end.

(** Ascending order of rank. *)
Definition by_rank (a b : item) : Prop :=
  exists x y, a !! "gsiK3SortKey" = Some (Num x) /\ b !! "gsiK3SortKey" = Some (Num y)
              /\ (x <= y)%Qc.

(** A decision procedure for the hypothesis on the keys of album members:
    every record of the album index is keyed by one of [ids]. *)
Definition album_keys_okb (t : table) (ids : list string) : bool :=
  forallb (fun kv : key * item =>
    negb (in_index gsi_k3 kv.2)
    || existsb (fun id =>
         negb (has_char "/" id)
         && match kv.2 !! "partitionKey" with
            | Some (Str p) => String.eqb p ("post/" +:+ id)
            | _ => false
            end) ids) (map_to_list t).

Definition gsi_a2 : index := mkIndex "gsiA2PartitionKey" "gsiA2SortKey" false.

(** The post is filed under the user in the status index. *)
Definition posted_byb (user_id : string) (it : item) : bool :=
  match it !! "gsiA2PartitionKey", it !! "gsiA2SortKey" with
  | Some (Str p), Some (Str _) => String.eqb p ("post/" +:+ user_id)
  | _, _ => false
  end.

(** The filter on the status: completed posts only, all but completed posts,
    or every post. *)
Definition status_keptb (completed : option bool) (it : item) : bool :=
  match completed with
  | Some true =>
      match it !! "postStatus" with
      | Some v => value_eqb v (Str PostStatus.COMPLETED)
      | None => false
      end
  | Some false =>
      match it !! "postStatus" with
      | Some v => negb (value_eqb v (Str PostStatus.COMPLETED))
      | None => true
      end
  | None => true
  end.

(** Ascending order of the status-index sort key, [<status>/<postedAt>]. *)
Definition by_status_key (a b : item) : Prop :=
  exists x y, a !! "gsiA2SortKey" = Some (Str x) /\ b !! "gsiA2SortKey" = Some (Str y)
              /\ String.leb x y = true.

(** The operations on the record of a post that the builders mark "only
    updates, no creates", as built for the post [post_id]. *)
Inductive post_update (post_id : string) : transact_item -> Prop :=
| update_status post_item status original_post_id album_rank tx :
    post_item !! "postId" = Some (Str post_id) ->
    transact_set_post_status post_item status original_post_id album_rank = Ok tx ->
    post_update post_id tx
| update_album_id post_item album_id album_rank tx :
    post_item !! "postId" = Some (Str post_id) ->
    transact_set_album_id post_item album_id album_rank = Ok tx ->
    post_update post_id tx
| update_album_rank album_rank :
    post_update post_id (transact_set_album_rank post_id album_rank)
| update_comment_activity new_value :
    post_update post_id (transact_set_has_new_comment_activity post_id new_value)
| update_increment c tx :
    transact_increment c post_id = Ok tx -> post_update post_id tx
| update_decrement c tx :
    transact_decrement c post_id = Ok tx -> post_update post_id tx.

(** The owner the record of a post names. *)
Definition owner_of (t : table) (post_id : string) : option string :=
  t !! post_pk post_id ≫= fun it =>
    match it !! "postedByUserId" with
    | Some (Str u) => Some u
    | _ => None
    end.

Definition valid_date (d : Date) : Prop :=
  year d < 10 ^ 4 /\ month d < 10 ^ 2 /\ day d < 10 ^ 2.

(** Chronological order of dates. *)
Definition date_lt (a b : Date) : Prop :=
  year a < year b \/
  (year a = year b /\ (month a < month b \/ (month a = month b /\ day a < day b))).

(** The record is a post whose expiry is, as a string, before the rendered
    cut-off date. *)
Definition expired_before (cut_off_date : Date) (it : item) : Prop :=
  exists p e,
    it !! "partitionKey" = Some (Str ("post/" +:+ p))
    /\ it !! "expiresAt" = Some (Str e)
    /\ String.ltb e (date_str cut_off_date) = true.

Definition expired_beforeb (cut_off_date : Date) (it : item) : bool :=
  match it !! "partitionKey", it !! "expiresAt" with
  | Some (Str pk), Some (Str e) =>
      String.prefix "post/" pk && String.ltb e (date_str cut_off_date)
  | _, _ => false
  end.

Definition valid_datetime (dt : DateTime) : Prop :=
  valid_date (date dt) /\ valid_time (time dt).

(** Both instants are rendered with a fractional second, or neither is. *)
Definition same_precision (a b : DateTime) : Prop :=
  microsecond (time a) = 0 <-> microsecond (time b) = 0.

Definition date_compare (a b : Date) : comparison :=
  lex (year a ?= year b)%nat (lex (month a ?= month b)%nat (day a ?= day b)%nat).

Definition datetime_compare (a b : DateTime) : comparison :=
  lex (year (date a) ?= year (date b))%nat
    (lex (month (date a) ?= month (date b))%nat
       (lex (day (date a) ?= day (date b))%nat (time_compare (time a) (time b)))).

(** Chronological order of instants. *)
Definition datetime_lt (a b : DateTime) : Prop :=
  date_lt (date a) (date b) \/ (date a = date b /\ time_lt (time a) (time b)).

Definition datetime_le (a b : DateTime) : Prop := datetime_lt a b \/ a = b.



(** The record of the plain post, read while the post is pending and in no
    album. *)
Definition item_read_early : item := record_at (db plain_world) (post_pk "pid").

(** The post joins the album ["aid"] after the item was read. *)
Definition joined_album_world : world :=
  (write_one (transact_set_album_id item_read_early (Some "aid") None) plain_world).2.

(** A change of the stories of a user, as the post manager makes it: a post
    is given an expiry, or loses it. *)
Inductive change :=
| GiveExpiry (post_id : string) (expires_at : DateTime)
| DropExpiry (post_id : string).


(** The stored record of a post when it holds an expiry. *)
Definition story_of (t : table) (post_id : string) : option item :=
  match t !! post_pk post_id with
  | Some it => if bool_decide (is_Some (it !! "expiresAt")) then Some it else None
  | None => None
  end.

(** The store mutation of a change; [set_expires_at] is handed the stored
    record of the post. *)
Definition mutation (c : change) (w : world) : event :=
  match c with
  | GiveExpiry post_id expires_at =>
      SetExpiresAt (record_at (db w) (post_pk post_id)) expires_at
  | DropExpiry post_id => RemoveExpiresAt post_id
  end.

(** The refresh call that reports a change made in [w]: [story_prev] is the
    record of the post before the change when it holds an expiry,
    [story_now] the item [set_expires_at] returns. *)
Definition report (c : change) (w : world) : event :=
  match c with
  | GiveExpiry post_id expires_at =>
      Refresh (story_of (db w) post_id)
        (match (set_expires_at (record_at (db w) (post_pk post_id)) expires_at w).1 with
         | Ok it => Some it
         | Raise _ => None
         end)
  | DropExpiry post_id => Refresh (story_of (db w) post_id) None
  end.

(** A change and its refresh call, the call applied right before the store
    mutation ([refresh_first]) or right after it. *)
Definition apply_change (followers : string -> list string) (w : world)
    (c : change * bool) : world :=
  apply_events followers
    (if c.2 then [report c.1 w; mutation c.1 w] else [mutation c.1 w; report c.1 w]) w.

Definition apply_changes (followers : string -> list string) (l : list (change * bool))
    (w : world) : world :=
  foldl (apply_change followers) w l.









(** Two completed posts of "uid", neither with an expiry. *)
Definition two_completed_world : world :=
  (write_one (transact_set_post_status (record_at (db two_posts_world) (post_pk "pid2"))
                PostStatus.COMPLETED None None)
     (write_one (transact_set_post_status (record_at (db two_posts_world) (post_pk "pid"))
                   PostStatus.COMPLETED None None) two_posts_world).2).2.

Definition evening : DateTime := mkDateTime (mkDate 2020 1 2) (mkTime 17 30 0 0).







(** * Properties *)

(** ** What the specification talks about *)

(** ** Running computations *)

Ltac unfold_m :=
  unfold write_one, transact_write_items, update_item, generate_all_query, query_head,
    get_item, bind, lift, ret, raise, send, get_db, set_db, try_except, logger_warning in *.

(** Lookups in maps built by insertions and deletions under literal keys. *)
Ltac lookups :=
  repeat first
    [ rewrite lookup_insert_eq | rewrite lookup_insert_ne by done
    | rewrite lookup_singleton_eq | rewrite lookup_singleton_ne by done
    | rewrite lookup_delete_eq | rewrite lookup_delete_ne by done
    | rewrite lookup_empty | progress simpl ].

(** The two components of a run, and the record under a key, by name: the
    examples compute the small facts about them, never the maps. *)
Lemma run_eq {A} (m : M A) (w : world) (a : result A) :
  (m w).1 = a -> m w = (a, (m w).2).
Proof. intros <-. by destruct (m w). Qed.

Lemma record_at_stored (t : table) (k : key) :
  bool_decide (is_Some (t !! k)) = true ->
  record_at t k !! "partitionKey" = Some (Str k.1) ->
  record_at t k !! "sortKey" = Some (Str k.2) ->
  stored t k (record_at t k).
Proof.
  intros H%bool_decide_eq_true_1 Hp Hs. unfold stored, record_at in *.
  destruct H as [it Hit]. rewrite Hit in *. auto.
Qed.

Lemma world_eta (w : world) : mkWorld (db w) (requests w) (warnings w) = w.
Proof. by destruct w. Qed.

Lemma cons_neq_self {A} (x : A) (l : list A) : x :: l <> l.
Proof. intros H. apply (f_equal length) in H. simpl in H. lia. Qed.

(** A request leaves a trace: a computation that sends one does not give
    back the world it started from. *)
Lemma sent_neq (w : world) (r : request) (t : table) (ws : list string) :
  mkWorld t (r :: requests w) ws <> w.
Proof. intros H. apply (f_equal requests) in H. simpl in H. by apply cons_neq_self in H. Qed.

Lemma transact_write_items_requests (l : list transact_item) (w : world) :
  requests (transact_write_items l w).2 = ReqTransactWriteItems l :: requests w
  /\ warnings (transact_write_items l w).2 = warnings w.
Proof.
  unfold_m. simpl. destruct (transact_all l (db w)) as [[t'|]|e]; simpl; auto.
Qed.

Lemma string_eqb_true (a b : string) : String.eqb a b = true <-> a = b.
Proof. apply String.eqb_eq. Qed.

Lemma rank_presence_ok_iff (post_item : item) (status : string) (album_rank : option Qc) :
  Bool.eqb (bool_decide (is_Some album_rank))
    (truthy (post_item !! "albumId") && String.eqb status PostStatus.COMPLETED) = true
  <-> rank_presence_ok post_item status album_rank.
Proof.
  unfold rank_presence_ok, has_album.
  destruct (bool_decide_reflect (is_Some album_rank)) as [Hr|Hr];
    destruct (truthy (post_item !! "albumId"));
    destruct (String.eqb_spec status PostStatus.COMPLETED) as [Hs|Hs];
    simpl; intuition (try discriminate; try congruence).
Qed.

Lemma getitem_str_not_assert (it : item) (k msg : string) :
  getitem_str it k <> Raise (AssertionError msg).
Proof. unfold getitem_str. repeat case_match; congruence. Qed.

(** In a hypothesis [H] saying a computation raised an [AssertionError], step
    over a subscript of the item: it returns or raises something else. *)
Ltac step_getitem H :=
  match type of H with
  | context [getitem_str ?it ?k] =>
      let E := fresh "E" in
      destruct (getitem_str it k) eqn:E; simpl in H;
      [| injection H as ->; by apply getitem_str_not_assert in E]
  end.

Lemma set_post_status_assert (post_item : item) (status : string)
    (opi : option string) (album_rank : option Qc) :
  (exists msg, transact_set_post_status post_item status opi album_rank
               = Raise (AssertionError msg))
  <-> ~ rank_presence_ok post_item status album_rank.
Proof.
  rewrite <- rank_presence_ok_iff. unfold transact_set_post_status.
  destruct (Bool.eqb _ _); simpl.
  - split; [|congruence]. intros [msg H]. exfalso.
    do 2 step_getitem H.
    destruct (opt_truthy opi), (truthy (post_item !! "albumId")),
      (bool_decide (is_Some (post_item !! "expiresAt"))); simpl in H;
      repeat step_getitem H; discriminate.
  - split; [done|]. intros _. eauto.
Qed.

(** C2. [transact_set_post_status] raises its validation error exactly when
    the presence of the album rank does not match "the post has an album and
    the new status is COMPLETED"; the error comes before any request to the
    store, which is left as it was.  In particular completing a post in an
    album without a rank is rejected, and so is a rank given when the status
    is not COMPLETED or the post is in no album. *)
Theorem set_post_status_rejects_rank_mismatch (w : world) (post_item : item)
    (status : string) (original_post_id : option string) (album_rank : option Qc) :
  ((exists msg,
      write_one (transact_set_post_status post_item status original_post_id album_rank) w
      = (Raise (AssertionError msg), w))
   <-> ~ rank_presence_ok post_item status album_rank)
  /\ (has_album post_item -> status = PostStatus.COMPLETED -> album_rank = None ->
      ~ rank_presence_ok post_item status album_rank)
  /\ (is_Some album_rank -> status <> PostStatus.COMPLETED \/ ~ has_album post_item ->
      ~ rank_presence_ok post_item status album_rank).
Proof.
  split; [|split].
  - rewrite <- (set_post_status_assert post_item status original_post_id).
    unfold write_one, bind, lift.
    destruct (transact_set_post_status _ _ _ _) as [tx|e] eqn:E.
    + split; intros [msg H]; [|discriminate H]. exfalso.
      pose proof (transact_write_items_requests [tx] w) as [Hr _].
      rewrite H in Hr. simpl in Hr. symmetry in Hr. by apply cons_neq_self in Hr.
    + split; intros [msg H]; exists msg; congruence.
  - intros Ha Hs -> [_ H]. destruct H as [x Hx]; [done|discriminate].
  - intros Hr Hn [H _]. destruct (H Hr) as [Ha Hs]. tauto.
Qed.

(** ** The album query: validation *)

Lemma generate_all_query_run (q : query_kwargs) (w : world) :
  generate_all_query q w
  = (query_items q (db w), mkWorld (db w) (ReqQuery q :: requests w) (warnings w)).
Proof. reflexivity. Qed.

(** C9. The album-membership query rejects a completed filter combined with
    an after-rank cursor: the assertion fails and nothing was asked of the
    store.  With at most one of the two the call is accepted and the query
    is sent. *)
Theorem album_query_rejects_filter_with_cursor (w : world) (album_id : string)
    (completed : option bool) (after_rank : option Qc) :
  ((exists msg, generate_post_ids_in_album album_id completed after_rank w
                = (Raise (AssertionError msg), w))
   <-> (is_Some completed /\ is_Some after_rank))
  /\ (~ (is_Some completed /\ is_Some after_rank) ->
      exists q, requests (generate_post_ids_in_album album_id completed after_rank w).2
                = ReqQuery q :: requests w).
Proof.
  assert (Hsent : ~ (is_Some completed /\ is_Some after_rank) ->
            exists q, requests (generate_post_ids_in_album album_id completed after_rank w).2
                      = ReqQuery q :: requests w).
  { intros Hn. unfold generate_post_ids_in_album.
    destruct completed as [b|], after_rank as [r|];
      try (exfalso; apply Hn; split; eauto; fail);
      unfold_m; simpl; eexists; reflexivity. }
  split; [|exact Hsent]. split.
  - intros [msg H].
    destruct (decide (is_Some completed /\ is_Some after_rank)) as [|Hn]; [done|].
    destruct (Hsent Hn) as [q Hq]. rewrite H in Hq. simpl in Hq.
    symmetry in Hq. by apply cons_neq_self in Hq.
  - intros [[b ->] [r ->]]. eexists. reflexivity.
Qed.

(** ** Writes of the client *)

Lemma update_item_run (u : update_kwargs) (w : world) :
  let u' := mkUpdate (Key u) (UpdateExpression u) (ExpressionAttributeNames u)
              (ExpressionAttributeValues u)
              (Some (default (attribute_exists "partitionKey") (ConditionExpression u))) in
  update_item u w
  = match update_table u' (db w) with
    | Ok (Some (it, t')) => (Ok it, mkWorld t' (ReqUpdateItem u' :: requests w) (warnings w))
    | Ok None => (Raise ConditionalCheckFailedException,
                  mkWorld (db w) (ReqUpdateItem u' :: requests w) (warnings w))
    | Raise e => (Raise e, mkWorld (db w) (ReqUpdateItem u' :: requests w) (warnings w))
    end.
Proof.
  unfold_m. simpl. destruct (update_table _ (db w)) as [[[it t']|]|e]; reflexivity.
Qed.

Lemma transact_write_items_run (l : list transact_item) (w : world) :
  transact_write_items l w
  = match transact_all l (db w) with
    | Ok (Some t') => (Ok tt, mkWorld t' (ReqTransactWriteItems l :: requests w) (warnings w))
    | Ok None => (Raise TransactionCanceledException,
                  mkWorld (db w) (ReqTransactWriteItems l :: requests w) (warnings w))
    | Raise e => (Raise e, mkWorld (db w) (ReqTransactWriteItems l :: requests w) (warnings w))
    end.
Proof.
  unfold_m. simpl. destruct (transact_all l (db w)) as [[t'|]|e]; reflexivity.
Qed.

(** A condition that asks for the record fails when there is none. *)
Lemma update_table_absent (u : update_kwargs) (t : table) (c : condition) :
  t !! Key u = None ->
  ConditionExpression u = Some (attribute_exists "partitionKey")
  \/ ConditionExpression u = Some (CAnd (attribute_exists "partitionKey") c) ->
  ExpressionAttributeNames u !! "partitionKey" = None ->
  update_table u t = Ok None.
Proof.
  intros Hk Hc Hn. unfold update_table, condition_holds.
  destruct Hc as [-> | ->]; simpl; unfold resolve_name; rewrite Hk, Hn; simpl;
    rewrite lookup_empty; reflexivity.
Qed.

Lemma transact_increment_shape (c : counter) (post_id : string) :
  exists u, transact_increment c post_id = Ok (Update u)
            /\ Key u = post_pk post_id
            /\ ConditionExpression u = Some (attribute_exists "partitionKey")
            /\ ExpressionAttributeNames u !! "partitionKey" = None.
Proof. destruct c; eexists; (split; [reflexivity|]); simpl; auto. Qed.

(** ** Increments on a post that does not exist *)

(** C7, as amended.  When the canonical record of the post is absent, the
    viewed-by-count increment raises [PostDoesNotExist]; the transactional
    increments (flag, like and comment counts) are cancelled by the store
    with [TransactionCanceledException]; in both cases the table is left as
    it was, so no record is created or modified. *)
Theorem increment_on_absent_post (w : world) (post_id : string) (c : counter) :
  db w !! post_pk post_id = None ->
  (exists w', increment_viewed_by_count post_id w = (Raise (PostDoesNotExist post_id), w')
              /\ db w' = db w)
  /\ (exists w', write_one (transact_increment c post_id) w
                 = (Raise TransactionCanceledException, w')
                 /\ db w' = db w).
Proof.
  intros Habs. split.
  - unfold increment_viewed_by_count, try_except. rewrite update_item_run. simpl.
    rewrite (update_table_absent _ _ (attribute_exists "partitionKey")); simpl; auto.
    eexists; split; reflexivity.
  - destruct (transact_increment_shape c post_id) as (u & -> & Hk & Hc & Hn).
    unfold write_one, bind, lift. rewrite transact_write_items_run. simpl.
    rewrite (update_table_absent u _ (attribute_exists "partitionKey")); simpl; auto;
      [|by rewrite Hk].
    eexists; split; reflexivity.
Qed.

Lemma increment_on_absent_post_witness :
  db empty_world !! post_pk "post-id" = None
  /\ (exists w', increment_viewed_by_count "post-id" empty_world
                 = (Raise (PostDoesNotExist "post-id"), w')
                 /\ db w' = db empty_world)
  /\ (exists w', write_one (transact_increment FlagCount "post-id") empty_world
                 = (Raise TransactionCanceledException, w')
                 /\ db w' = db empty_world).
Proof.
  split; [reflexivity|].
  apply (increment_on_absent_post empty_world "post-id" FlagCount). reflexivity.
Defined.

(** The claim as the specification has it asks every increment on an absent
    record to fail with the not-found error: the flag-count increment,
    submitted on an empty table, is cancelled by the store instead. *)
Lemma increment_not_found_counterexample :
  db empty_world !! post_pk "post-id" = None
  /\ (write_one (transact_increment FlagCount "post-id") empty_world).1
     = Raise TransactionCanceledException
  /\ (write_one (transact_increment FlagCount "post-id") empty_world).1
     <> Raise (PostDoesNotExist "post-id").
Proof. split; [reflexivity|]. split; [reflexivity|]. discriminate. Qed.

(** ** The multi-field edit *)

Lemma set_no_text_tags_kept (w : world) (post_id : string)
    (text_tags : option (list (string * string))) (cd ld sd vh : option bool) :
  stored_tags (db (set_ post_id None text_tags cd ld sd vh w).2) post_id
  = stored_tags (db w) post_id.
Proof.
  unfold set_, bind, lift.
  destruct cd, ld, sd, vh; simpl; try reflexivity;
    rewrite update_item_run; unfold update_table, condition_holds, item_at, stored_tags;
    simpl; unfold resolve_name; rewrite ?lookup_empty; simpl;
    (destruct (db w !! post_pk post_id) as [it|] eqn:Hit; simpl;
     [|rewrite ?lookup_empty; simpl; by rewrite Hit]);
    (destruct (bool_decide (is_Some (it !! "partitionKey"))); simpl;
     [|by rewrite Hit]);
    lookups; reflexivity.
Qed.

Lemma set_empty_text_removes (w : world) (post_id : string) (it : item)
    (text_tags : option (list (string * string))) (cd ld sd vh : option bool) :
  stored (db w) (post_pk post_id) it ->
  exists it' w',
    set_ post_id (Some "") text_tags cd ld sd vh w = (Ok it', w')
    /\ db w' !! post_pk post_id = Some it'
    /\ it' !! "text" = None /\ it' !! "textTags" = None.
Proof.
  intros (Hit & Hpk & Hsk).
  unfold set_, bind, lift. simpl.
  destruct cd, ld, sd, vh; simpl;
    rewrite update_item_run; unfold update_table, condition_holds, item_at; simpl;
    rewrite Hit; simpl; unfold resolve_name; simpl;
    rewrite ?lookup_singleton_ne by done; simpl;
    rewrite Hpk; simpl;
    rewrite ?lookup_singleton_eq, ?lookup_singleton_ne by done; simpl;
    (do 2 eexists; split; [reflexivity|]; simpl;
     split; [by rewrite lookup_insert_eq|]; split; by simplify_map_eq).
Qed.

(** C8, as amended.  An edit that supplies none of the editable fields raises
    the validation error before any request is sent.  An edit whose text is
    the empty string removes both [text] and [textTags] from the record.
    Tags supplied without a text leave the stored tags unchanged, and tags
    supplied with an absent or empty text are not looked at: the call does
    what it does without them. *)
Theorem set_text_and_flags (w : world) (post_id : string) (it : item)
    (text_tags : option (list (string * string)))
    (comments_disabled likes_disabled sharing_disabled verification_hidden : option bool) :
  stored (db w) (post_pk post_id) it ->
  set_ post_id None text_tags None None None None w
  = (Raise (AssertionError "Action-less post edit requested"), w)
  /\ (exists it' w',
        set_ post_id (Some "") text_tags comments_disabled likes_disabled sharing_disabled
          verification_hidden w = (Ok it', w')
        /\ db w' !! post_pk post_id = Some it'
        /\ it' !! "text" = None /\ it' !! "textTags" = None)
  /\ stored_tags
       (db (set_ post_id None text_tags comments_disabled likes_disabled sharing_disabled
              verification_hidden w).2) post_id
     = stored_tags (db w) post_id
  /\ (forall text, text = None \/ text = Some "" ->
        set_ post_id text text_tags comments_disabled likes_disabled sharing_disabled
          verification_hidden w
        = set_ post_id text None comments_disabled likes_disabled sharing_disabled
            verification_hidden w).
Proof.
  intros Hst. split; [reflexivity|]. split; [by apply (set_empty_text_removes w post_id it)|].
  split; [apply set_no_text_tags_kept|].
  intros text [-> | ->]; reflexivity.
Qed.

Lemma set_text_and_flags_witness :
  stored (db tagged_world) (post_pk "pid1") (record_at (db tagged_world) (post_pk "pid1"))
  /\ exists it' w',
       set_ "pid1" (Some "") None (Some true) None None None tagged_world = (Ok it', w')
       /\ db w' !! post_pk "pid1" = Some it'
       /\ it' !! "text" = None /\ it' !! "textTags" = None.
Proof.
  assert (H : stored (db tagged_world) (post_pk "pid1")
                (record_at (db tagged_world) (post_pk "pid1"))).
  { apply record_at_stored; vm_compute; reflexivity. }
  split; [exact H|].
  exact (proj1 (proj2 (set_text_and_flags tagged_world "pid1" _ None (Some true) None None None H))).
Defined.

(** The claim as the specification has it: tags supplied without a non-empty
    text leave the stored tags as they were.  With the empty string as text
    the stored tags are removed. *)
Lemma set_empty_text_with_tags_counterexample :
  stored_tags (db tagged_world) "pid1" = Some (text_tags_value [("@rainbow", "tagged-uid")])
  /\ stored_tags
       (db (set_ "pid1" (Some "") (Some [("@rainbow", "tagged-uid")]) None None None None
              tagged_world).2) "pid1"
     = None.
Proof. split; vm_compute; reflexivity. Qed.

(** ** The status update *)

Lemma getitem_str_Some (it : item) (k s : string) :
  it !! k = Some (Str s) -> getitem_str it k = Ok s.
Proof. unfold getitem_str. by intros ->. Qed.

(** What a status update that passes validation does to the record. *)
Lemma set_post_status_run (w : world) (post_id : string) (old post_item : item)
    (status : string) (opi : option string) (album_rank : option Qc)
    (posted_at post_type : string) :
  stored (db w) (post_pk post_id) old ->
  post_item !! "postId" = Some (Str post_id) ->
  post_item !! "postedAt" = Some (Str posted_at) ->
  post_item !! "postType" = Some (Str post_type) ->
  (forall v, post_item !! "expiresAt" = Some v -> exists s, v = Str s) ->
  rank_presence_ok post_item status album_rank ->
  exists new tx,
    write_one (transact_set_post_status post_item status opi album_rank) w
    = (Ok tt, mkWorld (<[post_pk post_id := new]> (db w))
                (ReqTransactWriteItems [tx] :: requests w) (warnings w))
    /\ new !! "postStatus" = Some (Str status)
    /\ new !! "gsiA2SortKey" = Some (Str (status +:+ "/" +:+ posted_at))
    /\ new !! "gsiA3SortKey" = Some (Str (status +:+ "/" +:+ post_type +:+ "/" +:+ posted_at))
    /\ new !! "gsiK3SortKey"
       = (if truthy (post_item !! "albumId") then Some (Num (default unranked album_rank))
          else old !! "gsiK3SortKey")
    /\ new !! "gsiA1SortKey"
       = match post_item !! "expiresAt" with
         | Some (Str e) => Some (Str (status +:+ "/" +:+ e))
         | _ => old !! "gsiA1SortKey"
         end
    /\ (forall a, a ∉ status_attrs post_item opi -> new !! a = old !! a).
Proof.
  intros (Hold & Hpk & Hsk) Hid Hpa Hpt Hexp Hrank.
  apply rank_presence_ok_iff in Hrank.
  unfold write_one, bind, lift, transact_set_post_status, status_attrs.
  rewrite Hrank. simpl.
  rewrite (getitem_str_Some _ _ _ Hpa), (getitem_str_Some _ _ _ Hpt). simpl.
  destruct (post_item !! "expiresAt") as [v|] eqn:Hv;
    [destruct (Hexp v eq_refl) as [e ->]; rewrite (getitem_str_Some _ _ _ Hv)|];
    destruct (opt_truthy opi), (truthy (post_item !! "albumId")); simpl;
    rewrite (getitem_str_Some _ _ _ Hid); simpl;
    rewrite transact_write_items_run; simpl;
    unfold update_table, condition_holds, item_at; simpl; rewrite Hold; simpl;
    unfold resolve_name; lookups; rewrite Hpk; lookups;
    (do 2 eexists; split; [reflexivity|]);
    (repeat split; [lookups; reflexivity..|]);
    intros a Ha; repeat (apply not_elem_of_cons in Ha as [? Ha]);
    lookups; reflexivity.
Qed.

(** C10. A status update that passes validation succeeds on the stored
    record and writes nothing but [postStatus], [gsiA2SortKey] and
    [gsiA3SortKey], [originalPostId] when one is supplied, [gsiK3SortKey] when
    the post is in an album and [gsiA1SortKey] when it has an expiry: every
    other attribute of the record keeps its value, and no other record
    changes. *)
Theorem set_post_status_frame (w : world) (post_id : string) (old post_item : item)
    (status : string) (original_post_id : option string) (album_rank : option Qc) :
  stored (db w) (post_pk post_id) old ->
  well_formed_post post_item post_id ->
  rank_presence_ok post_item status album_rank ->
  exists new w',
    write_one (transact_set_post_status post_item status original_post_id album_rank) w
    = (Ok tt, w')
    /\ db w' = <[post_pk post_id := new]> (db w)
    /\ forall a, a ∉ status_attrs post_item original_post_id -> new !! a = old !! a.
Proof.
  intros Hold (Hid & [pa Hpa] & [pt Hpt] & Hexp) Hrank.
  destruct (set_post_status_run w post_id old post_item status original_post_id album_rank
              pa pt Hold Hid Hpa Hpt Hexp Hrank)
    as (new & tx & Hrun & _ & _ & _ & _ & _ & Hframe).
  exists new. eexists. split; [exact Hrun|]. split; [reflexivity|exact Hframe].
Qed.

Lemma record_at_well_formed (t : table) (k : key) (post_id pa pt e : string) :
  record_at t k !! "postId" = Some (Str post_id) ->
  record_at t k !! "postedAt" = Some (Str pa) ->
  record_at t k !! "postType" = Some (Str pt) ->
  record_at t k !! "expiresAt" = Some (Str e) ->
  well_formed_post (record_at t k) post_id.
Proof.
  intros H1 H2 H3 H4. repeat split; eauto.
  intros v Hv. rewrite H4 in Hv. injection Hv as <-. eauto.
Qed.

Lemma set_post_status_frame_witness :
  stored (db album_world) (post_pk "pid") (record_at (db album_world) (post_pk "pid"))
  /\ well_formed_post (record_at (db album_world) (post_pk "pid")) "pid"
  /\ rank_presence_ok (record_at (db album_world) (post_pk "pid")) PostStatus.COMPLETED
       (Some (Q2Qc (1 # 2)))
  /\ exists new w',
       write_one (transact_set_post_status (record_at (db album_world) (post_pk "pid"))
                    PostStatus.COMPLETED None (Some (Q2Qc (1 # 2)))) album_world
       = (Ok tt, w')
       /\ db w' = <[post_pk "pid" := new]> (db album_world)
       /\ forall a, a ∉ status_attrs (record_at (db album_world) (post_pk "pid")) None ->
            new !! a = record_at (db album_world) (post_pk "pid") !! a.
Proof.
  assert (H1 : stored (db album_world) (post_pk "pid")
                 (record_at (db album_world) (post_pk "pid"))).
  { apply record_at_stored; vm_compute; reflexivity. }
  assert (H2 : well_formed_post (record_at (db album_world) (post_pk "pid")) "pid").
  { eapply record_at_well_formed; vm_compute; reflexivity. }
  assert (H3 : rank_presence_ok (record_at (db album_world) (post_pk "pid"))
                 PostStatus.COMPLETED (Some (Q2Qc (1 # 2)))).
  { apply rank_presence_ok_iff. vm_compute. reflexivity. }
  split; [exact H1|]. split; [exact H2|]. split; [exact H3|].
  exact (set_post_status_frame album_world "pid" _ _ PostStatus.COMPLETED None
           (Some (Q2Qc (1 # 2))) H1 H2 H3).
Defined.

(** ** Index keys after a status or an album update *)

Lemma string_compare_refl (s : string) : String.compare s s = Eq.
Proof.
  induction s as [|c s IH]; simpl; [done|].
  unfold Ascii.compare. by rewrite N.compare_refl.
Qed.



Lemma value_eqb_refl_str (s : string) : value_eqb (Str s) (Str s) = true.
Proof. unfold value_eqb. simpl. by rewrite string_compare_refl. Qed.




(** ** Counters *)

Lemma transact_increment_table (c : counter) (post_id : string) (t : table) :
  exists u,
    transact_increment c post_id = Ok (Update u)
    /\ update_table u t
       = match t !! post_pk post_id with
         | Some it =>
             if bool_decide (is_Some (it !! "partitionKey"))
             then let! it' := add_to (counter_attr c) (Q2Qc 1) it in
                  Ok (Some (it', <[post_pk post_id := it']> t))
             else Ok None
         | None => Ok None
         end.
Proof.
  destruct c; eexists; (split; [reflexivity|]);
    unfold update_table, condition_holds, item_at, add_to; simpl;
    destruct (t !! post_pk post_id) as [it|]; simpl; try reflexivity;
    unfold resolve_name; lookups;
    destruct (bool_decide (is_Some (it !! "partitionKey"))); simpl; try reflexivity;
    lookups; repeat case_match; reflexivity.
Qed.

Lemma transact_decrement_table (c : counter) (post_id : string) (t : table) :
  exists u,
    transact_decrement c post_id = Ok (Update u)
    /\ is_Some (ConditionExpression u)
    /\ update_table u t
       = match t !! post_pk post_id with
         | Some it =>
             if bool_decide (is_Some (it !! "partitionKey"))
                && is_positive (it !! counter_attr c)
             then let! it' := add_to (counter_attr c) (Q2Qc (-1 # 1)) it in
                  Ok (Some (it', <[post_pk post_id := it']> t))
             else Ok None
         | None => Ok None
         end.
Proof.
  destruct c; eexists; (split; [reflexivity|]); (split; [simpl; eauto|]);
    unfold update_table, condition_holds, item_at, add_to, is_positive; simpl;
    destruct (t !! post_pk post_id) as [it|]; simpl; try reflexivity;
    unfold resolve_name, compare_with; lookups;
    destruct (bool_decide (is_Some (it !! "partitionKey"))); simpl; try reflexivity;
    lookups; repeat case_match; reflexivity.
Qed.

Lemma count_succ (n : nat) : (count n + Q2Qc 1)%Qc = count (S n).
Proof.
  apply Qc_is_canon. unfold count. simpl. rewrite !Qred_correct.
  unfold Qeq. simpl. lia.
Qed.

Lemma count_pred (n : nat) : (count (S n) + Q2Qc (-1 # 1))%Qc = count n.
Proof.
  apply Qc_is_canon. unfold count. simpl. rewrite !Qred_correct.
  unfold Qeq. simpl. lia.
Qed.

Lemma value_ltb_num (a b : Qc) : value_ltb (Num a) (Num b) = true <-> (a < b)%Qc.
Proof.
  unfold value_ltb. cbn [value_compare]. rewrite Qclt_alt.
  destruct (a ?= b)%Qc; split; intros; done.
Qed.

Lemma count_positive (n : nat) :
  value_ltb (Num (Q2Qc 0)) (Num (count n)) = true <-> 0 < n.
Proof.
  rewrite value_ltb_num. unfold Qclt, count. cbn [this Q2Qc].
  rewrite !Qred_correct. unfold Qlt. simpl. lia.
Qed.

Lemma count_nonneg (n : nat) : (0 <= count n)%Qc.
Proof.
  unfold Qcle, count. cbn [this Q2Qc]. rewrite !Qred_correct. unfold Qle. simpl. lia.
Qed.


Lemma counter_attr_inj (a b : counter) : counter_attr a = counter_attr b -> a = b.
Proof. destruct a, b; simpl; intros H; try reflexivity; discriminate H. Qed.

(** Writing a count into one counter of one record keeps all counters
    counts. *)
Lemma counters_ok_insert (t : table) (post_id : string) (it : item) (c : counter) (n : nat) :
  counters_ok t ->
  t !! post_pk post_id = Some it ->
  counters_ok (<[post_pk post_id := <[counter_attr c := Num (count n)]> it]> t).
Proof.
  intros Hok Hit pid' c' v. unfold counter_value.
  destruct (decide (post_pk post_id = post_pk pid')) as [E|E].
  - rewrite <- E, lookup_insert_eq. simpl.
    destruct (decide (counter_attr c = counter_attr c')) as [E'|E'].
    + rewrite <- E', lookup_insert_eq. intros [= <-]. by exists n.
    + rewrite lookup_insert_ne by done. intros Hv.
      apply (Hok post_id c' v). unfold counter_value. by rewrite Hit.
  - rewrite lookup_insert_ne by done. apply Hok.
Qed.

Lemma counters_ok_step (w : world) (op : counter_call) :
  counters_ok (db w) -> counters_ok (db (counter_step w op)).
Proof.
  intros Hok. destruct op as [c pid | c pid soft]; cbn [counter_step].
  - destruct (transact_increment_table c pid (db w)) as (u & Hb & Hu).
    unfold write_one, bind, lift. rewrite Hb, transact_write_items_run. simpl. rewrite Hu.
    destruct (db w !! post_pk pid) as [it|] eqn:Hit; simpl; [|done].
    destruct (bool_decide _); simpl; [|done].
    unfold add_to. destruct (it !! counter_attr c) as [v|] eqn:Hv; simpl.
    + destruct (Hok pid c v) as [n ->]; [unfold counter_value; by rewrite Hit|].
      simpl. fold (count n). rewrite count_succ. by apply counters_ok_insert.
    + by apply (counters_ok_insert _ _ _ _ 1).
  - destruct (transact_decrement_table c pid (db w)) as (u & Hb & [cond Hc] & Hu).
    unfold decrement_count, bind, lift, try_except, ret, raise, logger_warning.
    rewrite Hb, update_item_run. simpl. rewrite Hc. simpl.
    replace (mkUpdate (Key u) (UpdateExpression u) (ExpressionAttributeNames u)
               (ExpressionAttributeValues u) (Some cond)) with u
      by (destruct u; simpl in *; by subst).
    rewrite Hu.
    destruct (db w !! post_pk pid) as [it|] eqn:Hit; simpl; [|by destruct soft].
    destruct (bool_decide _); simpl; [|by destruct soft].
    unfold add_to, is_positive. destruct (it !! counter_attr c) as [v|] eqn:Hv; simpl;
      [|by destruct soft].
    destruct (Hok pid c v) as [n ->]; [unfold counter_value; by rewrite Hit|].
    fold (count n).
    destruct (value_ltb (Num (Q2Qc 0)) (Num (count n))) eqn:Hpos; simpl;
      [|by destruct soft].
    apply count_positive in Hpos. destruct n as [|n]; [lia|].
    rewrite count_pred. by apply counters_ok_insert.
Qed.

Lemma counters_ok_steps (ops : list counter_call) (w : world) :
  counters_ok (db w) -> counters_ok (db (counter_steps ops w)).
Proof.
  revert w. induction ops as [|op ops IH]; intros w Hok; simpl; [done|].
  apply IH. by apply counters_ok_step.
Qed.

Lemma decrement_blocked (c : counter) (post_id : string) (t : table) :
  counter_value t post_id c = None \/ counter_value t post_id c = Some (Num (Q2Qc 0)) ->
  exists u,
    transact_decrement c post_id = Ok (Update u)
    /\ mkUpdate (Key u) (UpdateExpression u) (ExpressionAttributeNames u)
         (ExpressionAttributeValues u)
         (Some (default (attribute_exists "partitionKey") (ConditionExpression u))) = u
    /\ update_table u t = Ok None.
Proof.
  intros Hv. destruct (transact_decrement_table c post_id t) as (u & Hb & [cond Hc] & Hu).
  exists u. split; [exact Hb|]. split; [destruct u; simpl in *; by subst|].
  rewrite Hu. unfold counter_value in Hv.
  destruct (t !! post_pk post_id) as [it|]; simpl in *; [|done].
  destruct Hv as [-> | ->]; simpl; by rewrite andb_false_r.
Qed.

(** C4.  A decrement of a counter that is 0 or absent fails its condition:
    called fail-hard it raises the conflict, called fail-soft it returns
    nothing and logs a warning, submitted in a transaction it cancels the
    transaction; the table is unchanged in each case.  Starting from counters
    that are counts, no sequence of increments and decrements brings a stored
    counter below 0. *)
Theorem decrement_never_below_zero (w : world) (post_id : string) (c : counter)
    (ops : list counter_call) :
  counter_value (db w) post_id c = None
  \/ counter_value (db w) post_id c = Some (Num (Q2Qc 0)) ->
  counters_ok (db w) ->
  (exists w', decrement_count c post_id false w = (Raise ConditionalCheckFailedException, w')
              /\ db w' = db w /\ warnings w' = warnings w)
  /\ (exists w' msg, decrement_count c post_id true w = (Ok None, w')
                     /\ db w' = db w /\ warnings w' = msg :: warnings w)
  /\ (exists w', write_one (transact_decrement c post_id) w
                 = (Raise TransactionCanceledException, w')
                 /\ db w' = db w)
  /\ counters_ok (db (counter_steps ops w))
  /\ (forall post_id' c' n,
        counter_value (db (counter_steps ops w)) post_id' c' = Some (Num n) -> (0 <= n)%Qc).
Proof.
  intros Hzero Hok.
  destruct (decrement_blocked c post_id (db w) Hzero) as (u & Hb & Hu' & Hu).
  repeat split.
  - unfold decrement_count, bind, lift, try_except, raise. rewrite Hb, update_item_run.
    cbv zeta. rewrite Hu', Hu. simpl. eexists. repeat split; reflexivity.
  - unfold decrement_count, bind, lift, try_except, raise, ret, logger_warning.
    rewrite Hb, update_item_run. cbv zeta. rewrite Hu', Hu. simpl.
    do 2 eexists. repeat split; reflexivity.
  - unfold write_one, bind, lift. rewrite Hb, transact_write_items_run. simpl.
    rewrite Hu. simpl. eexists. split; reflexivity.
  - by apply counters_ok_steps.
  - intros pid' c' n Hn. destruct (counters_ok_steps ops w Hok pid' c' _ Hn) as [m [= ->]].
    apply count_nonneg.
Qed.

Lemma counters_okb_sound (t : table) : counters_okb t = true -> counters_ok t.
Proof.
  intros H pid c v Hv. unfold counter_value in Hv.
  destruct (t !! post_pk pid) as [it|] eqn:E; simpl in Hv; [|done].
  apply elem_of_map_to_list, list_elem_of_In in E.
  unfold counters_okb in H. rewrite forallb_forall in H. specialize (H _ E).
  cbv beta in H. rewrite forallb_forall in H.
  assert (Hc : In c [FlagCount; OnymousLikeCount; AnonymousLikeCount; CommentCount])
    by (destruct c; simpl; tauto).
  specialize (H _ Hc). cbn [snd] in H. rewrite Hv in H. destruct v as [|n| | |]; try done.
  apply bool_decide_eq_true in H. eexists. by rewrite H at 1.
Qed.

Lemma decrement_never_below_zero_witness :
  (counter_value (db plain_world) "pid" FlagCount = None
   \/ counter_value (db plain_world) "pid" FlagCount = Some (Num (Q2Qc 0)))
  /\ counters_ok (db plain_world)
  /\ (exists w', decrement_count FlagCount "pid" false plain_world
                 = (Raise ConditionalCheckFailedException, w')
                 /\ db w' = db plain_world /\ warnings w' = warnings plain_world)
  /\ counters_ok (db (counter_steps flag_calls plain_world)).
Proof.
  assert (H1 : counter_value (db plain_world) "pid" FlagCount = None
               \/ counter_value (db plain_world) "pid" FlagCount = Some (Num (Q2Qc 0))).
  { left. vm_compute. reflexivity. }
  assert (H2 : counters_ok (db plain_world)).
  { apply counters_okb_sound. vm_compute. reflexivity. }
  pose proof (decrement_never_below_zero plain_world "pid" FlagCount flag_calls H1 H2) as H.
  split; [exact H1|]. split; [exact H2|].
  split; [exact (proj1 H)|exact (proj1 (proj2 (proj2 (proj2 H))))].
Defined.

(** ** Order of strings and sorting *)

Lemma ascii_compare_lt_trans (a b c : ascii) :
  Ascii.compare a b = Lt -> Ascii.compare b c = Lt -> Ascii.compare a c = Lt.
Proof.
  unfold Ascii.compare. rewrite !N.compare_lt_iff. lia.
Qed.

Lemma ascii_compare_refl (a : ascii) : Ascii.compare a a = Eq.
Proof. unfold Ascii.compare. apply N.compare_refl. Qed.

Lemma string_compare_lt_trans (a b c : string) :
  String.compare a b = Lt -> String.compare b c = Lt -> String.compare a c = Lt.
Proof.
  revert b c. induction a as [|x a IH]; intros [|y b] [|z c]; simpl; try done.
  destruct (Ascii.compare x y) eqn:Exy; try done;
    destruct (Ascii.compare y z) eqn:Eyz; try done; intros Hab Hbc.
  - apply Ascii.compare_eq_iff in Exy, Eyz. subst. rewrite ascii_compare_refl. eauto.
  - apply Ascii.compare_eq_iff in Exy. subst. by rewrite Eyz.
  - apply Ascii.compare_eq_iff in Eyz. subst. by rewrite Exy.
  - by rewrite (ascii_compare_lt_trans _ _ _ Exy Eyz).
Qed.

Lemma string_leb_trans (a b c : string) :
  String.leb a b = true -> String.leb b c = true -> String.leb a c = true.
Proof.
  unfold String.leb.
  destruct (String.compare a b) eqn:Eab; try done;
    destruct (String.compare b c) eqn:Ebc; try done; intros _ _.
  - apply String.compare_eq_iff in Eab, Ebc. subst. by rewrite string_compare_refl.
  - apply String.compare_eq_iff in Eab. subst. by rewrite Ebc.
  - apply String.compare_eq_iff in Ebc. subst. by rewrite Eab.
  - by rewrite (string_compare_lt_trans _ _ _ Eab Ebc).
Qed.

Lemma string_ltb_leb (a b : string) : String.ltb a b = true -> String.leb a b = true.
Proof. unfold String.ltb, String.leb. by destruct (String.compare a b). Qed.


(** Insertion sort under an order that is total and transitive on the
    elements it is given. *)
Section Isort.
Context {A : Type} (le : A -> A -> bool) (P : A -> Prop).
Hypothesis le_total : forall a b, P a -> P b -> le a b = true \/ le b a = true.
Hypothesis le_trans :
  forall a b c, P a -> P b -> P c -> le a b = true -> le b c = true -> le a c = true.

Lemma insert_sorted_perm (x : A) (l : list A) : Permutation (insert_sorted le x l) (x :: l).
Proof.
  induction l as [|y l IH]; simpl; [done|].
  destruct (le x y); [done|]. rewrite IH. apply perm_swap.
Qed.

Lemma isort_perm (l : list A) : Permutation (isort le l) l.
Proof.
  induction l as [|x l IH]; simpl; [done|].
  rewrite insert_sorted_perm. by constructor.
Qed.

Lemma insert_sorted_sorted (x : A) (l : list A) :
  P x -> Forall P l ->
  StronglySorted (fun a b => le a b = true) l ->
  StronglySorted (fun a b => le a b = true) (insert_sorted le x l).
Proof.
  intros Hx Hl Hs. induction l as [|y l IH]; simpl.
  - repeat constructor.
  - inversion Hl as [|? ? Hy Hl']; subst. inversion Hs as [|? ? Hs' Hall]; subst.
    destruct (le x y) eqn:Exy.
    + constructor; [done|]. constructor; [done|].
      rewrite Forall_forall in Hall, Hl' |- *. intros z Hz.
      apply (le_trans x y z); auto.
    + constructor; [by apply IH|].
      rewrite (insert_sorted_perm x l). constructor; [|done].
      destruct (le_total x y Hx Hy) as [E|E]; [congruence|done].
Qed.

Lemma isort_sorted (l : list A) :
  Forall P l -> StronglySorted (fun a b => le a b = true) (isort le l).
Proof.
  induction l as [|x l IH]; intros Hl; simpl; [constructor|].
  inversion Hl; subst. apply insert_sorted_sorted; auto.
  by rewrite isort_perm.
Qed.

End Isort.

(** ** Times of day as the store orders them *)

Lemma append_cons (x : ascii) (a b : string) : String x a +:+ b = String x (a +:+ b).
Proof. reflexivity. Qed.

Lemma append_nil (b : string) : "" +:+ b = b.
Proof. reflexivity. Qed.

Lemma append_assoc (a b c : string) : (a +:+ b) +:+ c = a +:+ (b +:+ c).
Proof. induction a as [|x a IH]; [done|]. by rewrite !append_cons, IH. Qed.

Lemma append_empty_r (a : string) : a +:+ "" = a.
Proof. induction a as [|x a IH]; [done|]. by rewrite append_cons, IH. Qed.

Lemma digit_compare (a b : nat) :
  a < 10 -> b < 10 -> Ascii.compare (digit a) (digit b) = (a ?= b)%nat.
Proof.
  intros Ha Hb. unfold Ascii.compare, digit, ascii_of_nat.
  rewrite !N_ascii_embedding by lia.
  rewrite <- Nat2N.inj_compare.
  destruct (Nat.compare_spec (48 + a) (48 + b)), (Nat.compare_spec a b); try done; lia.
Qed.

Lemma compare_div_mod (a b : nat) :
  lex (a / 10 ?= b / 10)%nat (a mod 10 ?= b mod 10)%nat = (a ?= b)%nat.
Proof.
  pose proof (Nat.div_mod_eq a 10). pose proof (Nat.div_mod_eq b 10).
  pose proof (Nat.mod_upper_bound a 10). pose proof (Nat.mod_upper_bound b 10).
  unfold lex.
  destruct (Nat.compare_spec (a / 10) (b / 10)), (Nat.compare_spec (a mod 10) (b mod 10)),
    (Nat.compare_spec a b); try done; lia.
Qed.

Lemma pad_succ (k n : nat) (x : string) :
  pad (S k) n +:+ x = pad k (n / 10) +:+ String (digit (n mod 10)) x.
Proof. cbn [pad]. by rewrite append_assoc, append_cons, append_nil. Qed.

(** Zero-padded numbers of the same width compare as the numbers do. *)
Lemma compare_pad (k a b : nat) (x y : string) :
  a < 10 ^ k -> b < 10 ^ k ->
  String.compare (pad k a +:+ x) (pad k b +:+ y) = lex (a ?= b)%nat (String.compare x y).
Proof.
  revert a b x y. induction k as [|k IH]; intros a b x y Ha Hb.
  - simpl in Ha, Hb. assert (a = 0) as -> by lia. assert (b = 0) as -> by lia. reflexivity.
  - rewrite !pad_succ. rewrite Nat.pow_succ_r' in Ha, Hb.
    rewrite IH by (apply Nat.Div0.div_lt_upper_bound; lia).
    cbn [String.compare]. rewrite digit_compare by (apply Nat.mod_upper_bound; lia).
    rewrite <- (compare_div_mod a b).
    by destruct (a / 10 ?= b / 10)%nat, (a mod 10 ?= b mod 10)%nat.
Qed.

Lemma fraction_compare (a b : nat) :
  a < 10 ^ 6 -> b < 10 ^ 6 ->
  String.compare (fraction a) (fraction b) = (a ?= b)%nat.
Proof.
  intros Ha Hb. unfold fraction.
  destruct (Nat.eqb_spec a 0) as [->|Ha0], (Nat.eqb_spec b 0) as [->|Hb0].
  - reflexivity.
  - rewrite append_cons. cbn [String.compare]. destruct b; [done|reflexivity].
  - rewrite append_cons. cbn [String.compare]. destruct a; [done|reflexivity].
  - rewrite !append_cons, !append_nil. cbn [String.compare].
    rewrite ascii_compare_refl.
    rewrite <- (append_empty_r (pad 6 a)), <- (append_empty_r (pad 6 b)).
    rewrite compare_pad by done. by destruct (a ?= b)%nat.
Qed.

Lemma time_str_compare (a b : TimeOfDay) :
  valid_time a -> valid_time b ->
  String.compare (time_str a) (time_str b) = time_compare a b.
Proof.
  intros (Ha1 & Ha2 & Ha3 & Ha4) (Hb1 & Hb2 & Hb3 & Hb4).
  unfold time_str, time_compare. fold (fraction (microsecond a)) (fraction (microsecond b)).
  rewrite compare_pad by (simpl; lia). f_equal.
  rewrite ?append_cons, ?append_nil. cbn [String.compare]. rewrite ascii_compare_refl.
  rewrite compare_pad by (simpl; lia). f_equal.
  rewrite ?append_cons, ?append_nil. cbn [String.compare]. rewrite ascii_compare_refl.
  rewrite compare_pad by (simpl; lia). f_equal.
  by apply fraction_compare.
Qed.

(** The store's order on the rendered times is the order of the times. *)
Lemma time_str_ltb (a b : TimeOfDay) :
  valid_time a -> valid_time b ->
  (String.ltb (time_str a) (time_str b) = true <-> time_lt a b).
Proof.
  intros Ha Hb. unfold String.ltb. rewrite time_str_compare by done.
  unfold time_compare, time_lt, lex.
  destruct (Nat.compare_spec (hour a) (hour b)), (Nat.compare_spec (minute a) (minute b)),
    (Nat.compare_spec (second a) (second b)),
    (Nat.compare_spec (microsecond a) (microsecond b));
    split; intros Hlt; try done; try lia.
Qed.

(** ** Queries *)

Lemma value_leb_num (a b : Qc) : value_leb (Num a) (Num b) = true <-> (a <= b)%Qc.
Proof.
  unfold value_leb. cbn [value_compare]. rewrite Qcle_alt.
  destruct (a ?= b)%Qc; split; intros; done.
Qed.

Lemma sk_leb_total (ix : index) (a b : item) :
  indexed ix a -> indexed ix b -> sk_leb ix a b = true \/ sk_leb ix b a = true.
Proof.
  unfold indexed, in_index, sk_leb. intros Ha Hb.
  destruct (a !! pk_attr ix) as [[]|]; try done.
  destruct (b !! pk_attr ix) as [[]|]; try done.
  destruct (a !! sk_attr ix) as [[x|x| | |]|], (b !! sk_attr ix) as [[y|y| | |]|];
    try done; destruct (sk_numeric ix); try done.
  - apply String.leb_total.
  - rewrite !value_leb_num. destruct (Qclt_le_dec x y) as [H|H]; [left|by right].
    by apply Qclt_le_weak.
Qed.

Lemma sk_leb_trans (ix : index) (a b c : item) :
  indexed ix a -> indexed ix b -> indexed ix c ->
  sk_leb ix a b = true -> sk_leb ix b c = true -> sk_leb ix a c = true.
Proof.
  unfold indexed, in_index, sk_leb. intros Ha Hb Hc.
  destruct (a !! pk_attr ix) as [[]|]; try done.
  destruct (b !! pk_attr ix) as [[]|]; try done.
  destruct (c !! pk_attr ix) as [[]|]; try done.
  destruct (a !! sk_attr ix) as [[x|x| | |]|], (b !! sk_attr ix) as [[y|y| | |]|],
    (c !! sk_attr ix) as [[z|z| | |]|];
    try done; destruct (sk_numeric ix); try done.
  - apply string_leb_trans.
  - rewrite !value_leb_num. apply Qcle_trans.
Qed.

(** What a query without filter yields: the items of the index that satisfy
    the key condition, each once, in ascending order of sort key. *)
Lemma query_items_sorted (q : query_kwargs) (t : table) (ix : index) :
  index_of_name (IndexName q) = Some ix ->
  FilterExpression q = None ->
  exists sorted,
    query_items q t = Ok (project (ProjectionExpression q) <$> sorted)
    /\ Permutation sorted
         (List.filter (fun it => in_index ix it
                                 && eval_condition ∅ ∅ it (KeyConditionExpression q))
            (map_to_list t).*2)
    /\ StronglySorted (fun a b => sk_leb ix a b = true) sorted
    /\ Forall (indexed ix) sorted.
Proof.
  intros Hix Hf. unfold query_items. rewrite Hix, Hf.
  eexists. split; [reflexivity|].
  assert (Hall : Forall (indexed ix)
            (List.filter (fun it => in_index ix it
                                    && eval_condition ∅ ∅ it (KeyConditionExpression q))
               (map_to_list t).*2)).
  { rewrite Forall_forall. intros it Hit%list_elem_of_In%filter_In.
    destruct Hit as [_ Hit]. by apply andb_true_iff in Hit as [? _]. }
  split; [apply isort_perm|]. split.
  - apply (isort_sorted _ (indexed ix));
      [apply sk_leb_total|apply sk_leb_trans|exact Hall].
  - by rewrite isort_perm.
Qed.

Lemma StronglySorted_weaken {A} (R R' : A -> A -> Prop) (P : A -> Prop) (l : list A) :
  (forall a b, P a -> P b -> R a b -> R' a b) ->
  Forall P l -> StronglySorted R l -> StronglySorted R' l.
Proof.
  intros HR HP HS. induction HS as [|a l HS IH Hall]; [constructor|].
  inversion HP as [|? ? Ha Hl]; subst. constructor; [by apply IH|].
  rewrite Forall_forall in Hall, Hl |- *. intros b Hb. apply HR; auto.
Qed.

Lemma value_eqb_str (a b : string) : value_eqb (Str a) (Str b) = String.eqb a b.
Proof.
  unfold value_eqb. cbn [value_compare].
  destruct (String.eqb_spec a b) as [->|Hne]; [by rewrite string_compare_refl|].
  destruct (String.compare a b) eqn:E; try done.
  by apply String.compare_eq_iff in E.
Qed.

(** ** Expired posts of a day *)

Lemma expired_onb_spec (date : Date) (cut_off_time : option TimeOfDay) (it : item) :
  expired_onb date cut_off_time it = true <-> expired_on date cut_off_time it.
Proof.
  unfold expired_onb, expired_on, day_entry. split.
  - destruct (it !! "gsiK1PartitionKey") as [[p| | | |]|]; try done.
    destruct (it !! "gsiK1SortKey") as [[s| | | |]|]; try done.
    intros [Hp Hc]%andb_true_iff. apply String.eqb_eq in Hp as ->.
    exists s. split; [done|]. by destruct cut_off_time.
  - intros (s & [-> ->] & Hc). rewrite String.eqb_refl. by destruct cut_off_time.
Qed.

Lemma day_query_hits (date : Date) (cut_off_time : option TimeOfDay) (it : item) :
  in_index gsi_k1 it
  && eval_condition ∅ ∅ it
       (match cut_off_time with
        | Some t => CAnd (CEq "gsiK1PartitionKey" (Lit (Str ("post/" +:+ date_str date))))
                      (CLt "gsiK1SortKey" (Lit (Str (time_str t))))
        | None => CEq "gsiK1PartitionKey" (Lit (Str ("post/" +:+ date_str date)))
        end)
  = expired_onb date cut_off_time it.
Proof.
  unfold in_index, expired_onb. cbn [pk_attr sk_attr sk_numeric gsi_k1].
  destruct cut_off_time as [t|]; cbn [eval_condition]; unfold compare_with, resolve_name;
    rewrite !lookup_empty; cbn [default resolve];
    destruct (it !! "gsiK1PartitionKey") as [[p| | | |]|]; try done;
    destruct (it !! "gsiK1SortKey") as [[s| | | |]|]; try done;
    rewrite ?value_eqb_str; cbn [negb andb]; try reflexivity;
    rewrite ?andb_false_r, ?andb_true_r; reflexivity.
Qed.

(** C5.  The per-day query yields the keys of exactly the posts whose entry
    in the per-day expiry index is on the day asked for and, when a cut-off is
    given, strictly before it, in ascending order of time of day; without
    cut-off it yields the whole day.  The store orders the rendered times as
    the times themselves, so a post that expires at the cut-off is left out
    and one that expires earlier is included. *)
Theorem expired_post_pks_by_day (w : world) (date : Date) (cut_off_time : option TimeOfDay) :
  (exists entries q,
     generate_expired_post_pks_by_day date cut_off_time w
     = (Ok (key_of <$> entries), mkWorld (db w) (ReqQuery q :: requests w) (warnings w))
     /\ Permutation entries
          (List.filter (expired_onb date cut_off_time) (map_to_list (db w)).*2)
     /\ StronglySorted earlier_in_day entries)
  /\ (forall it, expired_onb date cut_off_time it = true <-> expired_on date cut_off_time it)
  /\ (forall it, expired_on date None it <-> exists time_of_day, day_entry date it time_of_day)
  /\ (forall a b, valid_time a -> valid_time b ->
        (String.ltb (time_str a) (time_str b) = true <-> time_lt a b)).
Proof.
  split; [|split; [apply expired_onb_spec|split; [|apply time_str_ltb]]].
  - unfold generate_expired_post_pks_by_day. rewrite generate_all_query_run.
    match goal with |- context [query_items ?q _] => set (qk := q) end.
    destruct (query_items_sorted qk (db w) gsi_k1) as (sorted & Hq & Hperm & Hsort & Hall);
      [reflexivity..|].
    exists sorted, qk. rewrite Hq. split; [reflexivity|]. split.
    + rewrite Hperm. erewrite List.filter_ext; [reflexivity|].
      intros it. subst qk. cbn [KeyConditionExpression].
      rewrite <- (day_query_hits date cut_off_time it). by destruct cut_off_time.
    + eapply StronglySorted_weaken; [|exact Hall|exact Hsort].
      unfold indexed, in_index, sk_leb, earlier_in_day. cbn [pk_attr sk_attr sk_numeric gsi_k1].
      intros a b Ha Hb Hle.
      destruct (a !! "gsiK1PartitionKey") as [[]|]; try done.
      destruct (b !! "gsiK1PartitionKey") as [[]|]; try done.
      destruct (a !! "gsiK1SortKey") as [[x| | | |]|]; try done.
      destruct (b !! "gsiK1SortKey") as [[y| | | |]|]; try done.
      exists x, y. auto.
  - intros it. unfold expired_on. split; [intros (s & H & _); eauto|intros (s & H); eauto].
Qed.

(** ** The checksum index *)

Lemma split_no_sep (c : ascii) (s : string) : has_char c s = false -> split c s = [s].
Proof.
  induction s as [|x s IH]; simpl; [done|].
  intros [Hx Hs]%orb_false_iff. rewrite Hx, (IH Hs). reflexivity.
Qed.

Lemma split_post_pk (post_id : string) :
  no_slash post_id -> subscript (split "/" ("post/" +:+ post_id)) 1 = Ok post_id.
Proof.
  intros H. change ("post/" +:+ post_id)
    with (String "p" (String "o" (String "s" (String "t" (String "/" post_id))))).
  simpl. by rewrite (split_no_sep _ _ H).
Qed.


Lemma map_to_list_insert_perm (t : table) (k : key) (it : item) :
  Permutation (map_to_list (<[k := it]> t)) ((k, it) :: map_to_list (delete k t)).
Proof.
  rewrite <- (insert_delete_eq t k it). apply map_to_list_insert, lookup_delete_eq.
Qed.

Lemma values_insert_perm (t : table) (k : key) (it : item) :
  Permutation (map_to_list (<[k := it]> t)).*2 (it :: (map_to_list (delete k t)).*2).
Proof.
  change (it :: (map_to_list (delete k t)).*2) with (((k, it) :: map_to_list (delete k t)).*2).
  apply fmap_Permutation, map_to_list_insert_perm.
Qed.

Lemma filter_perm {A} (f : A -> bool) (l l' : list A) :
  Permutation l l' -> Permutation (List.filter f l) (List.filter f l').
Proof.
  induction 1 as [|x l l' _ IH|x y l|l l' l'' _ IH1 _ IH2]; simpl.
  - done.
  - destruct (f x); [by constructor|done].
  - destruct (f x), (f y); try done. apply perm_swap.
  - by etransitivity.
Qed.

Lemma filter_none {A} (f : A -> bool) (l : list A) :
  (forall x, In x l -> f x = false) -> List.filter f l = [].
Proof.
  induction l as [|x l IH]; intros H; simpl; [done|].
  rewrite (H x) by (by left). apply IH. intros y Hy. apply H. by right.
Qed.


Lemma other_no_hit (it : item) (c : string) :
  it !! "gsiK2PartitionKey" <> Some (Str ("postChecksum/" +:+ c)) ->
  has_checksum c it = false.
Proof.
  intros H. unfold has_checksum, in_index. cbn [pk_attr sk_attr sk_numeric gsi_k2
    eval_condition]. unfold compare_with, resolve_name.
  rewrite lookup_empty. cbn [default resolve].
  destruct (it !! "gsiK2PartitionKey") as [[p| | | |]|]; try done.
  rewrite value_eqb_str. destruct (String.eqb_spec p ("postChecksum/" +:+ c)) as [->|];
    [done|]. by rewrite andb_false_r.
Qed.




(** ** The followed-first-story aggregate *)


Lemma append_inv_head (a b c : string) : a +:+ b = a +:+ c -> b = c.
Proof.
  induction a as [|x a IH]; [done|]. rewrite !append_cons. intros [= H]. by apply IH.
Qed.


Lemma post_pk_not_ffs (post_id f u : string) : post_pk post_id <> ffs_pk f u.
Proof.
  unfold post_pk, ffs_pk. intros H. apply (f_equal fst) in H. cbn [fst] in H.
  rewrite !append_cons in H. discriminate H.
Qed.

Lemma is_story_indexed (u : string) (it : item) :
  in_index gsi_a1 it = false -> is_story u it = false.
Proof. unfold is_story. by intros ->. Qed.

Lemma values_delete_perm (t : table) (k : key) (old : item) :
  t !! k = Some old ->
  Permutation (map_to_list t).*2 (old :: (map_to_list (delete k t)).*2).
Proof.
  intros H. rewrite <- (insert_id t k old H) at 1. apply values_insert_perm.
Qed.

(** The stories of a user are the same, up to the order in which the table
    lists them, after a write under a key whose records are outside the
    expiry index. *)
Lemma stories_delete (t : table) (k : key) (u : string) :
  (forall old, t !! k = Some old -> in_index gsi_a1 old = false) ->
  Permutation (stories (delete k t) u) (stories t u).
Proof.
  intros Hold. unfold stories. destruct (t !! k) as [old|] eqn:E.
  - symmetry. etransitivity; [apply filter_perm, (values_delete_perm _ _ _ E)|].
    cbn [List.filter]. by rewrite (is_story_indexed _ _ (Hold old eq_refl)).
  - by rewrite (delete_id _ _ E).
Qed.

Lemma stories_insert (t : table) (k : key) (it : item) (u : string) :
  (forall old, t !! k = Some old -> in_index gsi_a1 old = false) ->
  in_index gsi_a1 it = false ->
  Permutation (stories (<[k := it]> t) u) (stories t u).
Proof.
  intros Hold Hit. etransitivity; [|by apply stories_delete].
  unfold stories. etransitivity; [apply filter_perm, values_insert_perm|].
  cbn [List.filter]. by rewrite (is_story_indexed _ _ Hit).
Qed.

Lemma first_story_perm (t t' : table) (u : string) (s : item) :
  Permutation (stories t' u) (stories t u) -> first_story t u s -> first_story t' u s.
Proof.
  intros Hp [Hin Hmin]. split.
  - apply list_elem_of_In. rewrite Hp. by apply list_elem_of_In.
  - intros s' e e' Hs'. apply Hmin. apply list_elem_of_In. rewrite <- Hp.
    by apply list_elem_of_In.
Qed.

Lemma pointer_correct_preserved (t t' : table) (f u : string) :
  t' !! ffs_pk f u = t !! ffs_pk f u ->
  Permutation (stories t' u) (stories t u) ->
  pointer_correct t f u -> pointer_correct t' f u.
Proof.
  unfold pointer_correct. intros -> Hp. destruct (t !! ffs_pk f u) as [p|].
  - intros (s & Hs & Hid). exists s. split; [|done]. by apply (first_story_perm t).
  - intros E. rewrite E in Hp. by apply Permutation_nil_r in Hp.
Qed.

Lemma string_compare_app (p a b : string) :
  String.compare (p +:+ a) (p +:+ b) = String.compare a b.
Proof.
  induction p as [|x p IH]; [done|]. rewrite !append_cons. cbn [String.compare].
  by rewrite ascii_compare_refl.
Qed.

(** The head of the stories in index order is a first story. *)
Lemma head_first_story (t : table) (u : string) (sorted : list item) :
  Permutation sorted (stories t u) ->
  StronglySorted (fun a b => sk_leb gsi_a1 a b = true) sorted ->
  match head sorted with
  | Some s => first_story t u s
  | None => stories t u = []
  end.
Proof.
  intros Hp Hs. destruct sorted as [|s sorted]; simpl.
  - by apply Permutation_nil in Hp.
  - split.
    + apply list_elem_of_In. rewrite <- Hp. by left.
    + intros s' e e' Hs' He He'.
      apply list_elem_of_In in Hs'. rewrite <- Hp in Hs'.
      apply elem_of_cons in Hs' as [->|Hin].
      * unfold expires in He, He'. rewrite He in He'. injection He' as He'.
        apply append_inv_head in He'. subst. unfold String.leb.
        by rewrite string_compare_refl.
      * inversion Hs as [|? ? _ Hall]; subst.
        rewrite Forall_forall in Hall. specialize (Hall s' Hin).
        unfold sk_leb in Hall. cbn [sk_attr gsi_a1] in Hall.
        unfold expires in He, He'. rewrite He, He' in Hall.
        unfold value_leb in Hall. cbn [value_compare] in Hall.
        change (PostStatus.COMPLETED +:+ "/" +:+ e)
          with ((PostStatus.COMPLETED +:+ "/") +:+ e) in Hall.
        unfold String.leb.
        rewrite !(append_assoc PostStatus.COMPLETED "/"), string_compare_app in Hall
          || rewrite string_compare_app in Hall.
        exact Hall.
Qed.

Lemma next_to_expire_run (u : string) (w : world) :
  exists sorted q,
    get_next_completed_post_to_expire u None w
    = (Ok (head sorted), mkWorld (db w) (ReqQuery q :: requests w) (warnings w))
    /\ Permutation sorted (stories (db w) u)
    /\ StronglySorted (fun a b => sk_leb gsi_a1 a b = true) sorted.
Proof.
  unfold get_next_completed_post_to_expire. cbn [opt_truthy]. unfold bind at 1.
  rewrite generate_all_query_run.
  match goal with |- context [query_items ?q _] => set (qk := q) end.
  destruct (query_items_sorted qk (db w) gsi_a1) as (sorted & Hq & Hperm & Hsort & _);
    [reflexivity..|].
  rewrite Hq. exists sorted, qk. cbn [lift ret project ProjectionExpression qk].
  change (project None) with (fun it : item => it). rewrite list_fmap_id.
  split; [reflexivity|]. split; [exact Hperm|exact Hsort].
Qed.





Lemma value_eqb_eq (a b : attr_value) : value_eqb a b = true -> a = b.
Proof.
  unfold value_eqb. destruct a as [x|x|x|x|x], b as [y|y|y|y|y]; cbn [value_compare]; try done.
  - destruct (String.compare x y) eqn:E; try done.
    apply String.compare_eq_iff in E. by subst.
  - destruct (x ?= y)%Qc eqn:E; try done. apply Qceq_alt in E. by subst.
  - destruct (Bool.eqb x y) eqn:E; try done. apply Bool.eqb_prop in E. by subst.
Qed.

Lemma get_item_run (k : key) (w : world) :
  get_item k w = (Ok (db w !! k), mkWorld (db w) (ReqGetItem k :: requests w) (warnings w)).
Proof. reflexivity. Qed.


Lemma update_item_unindexed (uk : update_kwargs) (w : world) (post_id : string) :
  Key uk = post_pk post_id ->
  pointers_unindexed (db w) -> pointers_unindexed (db (update_item uk w).2).
Proof.
  intros Hk Hun. rewrite update_item_run. cbv zeta. unfold update_table.
  cbn [Key UpdateExpression ExpressionAttributeNames ExpressionAttributeValues
       ConditionExpression].
  destruct (condition_holds _ _ _ _ _); [|exact Hun].
  destruct (apply_actions _ _ _ _) as [it|e]; [|exact Hun].
  cbn [rbind snd db]. intros f u p. rewrite lookup_insert_ne; [apply Hun|].
  rewrite Hk. apply post_pk_not_ffs.
Qed.

Lemma set_expires_at_unindexed (post_item : item) (expires_at : DateTime) (w : world) :
  pointers_unindexed (db w) -> pointers_unindexed (db (set_expires_at post_item expires_at w).2).
Proof.
  intros Hun. unfold set_expires_at. unfold bind at 1, lift at 1.
  destruct (getitem_str post_item "postId") as [post_id|e]; [|exact Hun].
  unfold bind at 1, lift at 1.
  destruct (getitem_str post_item "postedByUserId") as [user_id|e]; [|exact Hun].
  unfold bind at 1, lift at 1.
  destruct (getitem_str post_item "postStatus") as [post_status|e]; [|exact Hun].
  by apply (update_item_unindexed _ _ post_id).
Qed.

Lemma remove_expires_at_unindexed (post_id : string) (w : world) :
  pointers_unindexed (db w) -> pointers_unindexed (db (remove_expires_at post_id w).2).
Proof. intros Hun. by apply (update_item_unindexed _ _ post_id). Qed.

Lemma prefix_app (p s : string) : String.prefix p (p +:+ s) = true.
Proof.
  induction p as [|a p IH]; [by destruct s|].
  rewrite append_cons. cbn [String.prefix]. by destruct (ascii_dec a a).
Qed.


(** * Further properties of [PostDynamo] *)

(** A transaction of one update. *)
Lemma transact_write_update_run (u : update_kwargs) (w : world) :
  transact_write_items [Update u] w
  = match update_table u (db w) with
    | Ok (Some (_, t')) =>
        (Ok tt, mkWorld t' (ReqTransactWriteItems [Update u] :: requests w) (warnings w))
    | Ok None =>
        (Raise TransactionCanceledException,
         mkWorld (db w) (ReqTransactWriteItems [Update u] :: requests w) (warnings w))
    | Raise e =>
        (Raise e, mkWorld (db w) (ReqTransactWriteItems [Update u] :: requests w) (warnings w))
    end.
Proof.
  rewrite transact_write_items_run. cbn [transact_all transact_one].
  by destruct (update_table u (db w)) as [[[it t']|]|e].
Qed.

(** A transaction of one put. *)
Lemma transact_write_put_run (it : item) (c : option condition) (k : key) (w : world) :
  item_key it = Ok k ->
  transact_write_items [Put it c] w
  = if condition_holds (db w) k ∅ ∅ c
    then (Ok tt, mkWorld (<[k := it]> (db w))
                   (ReqTransactWriteItems [Put it c] :: requests w) (warnings w))
    else (Raise TransactionCanceledException,
          mkWorld (db w) (ReqTransactWriteItems [Put it c] :: requests w) (warnings w)).
Proof.
  intros Hk. rewrite transact_write_items_run. cbn [transact_all transact_one].
  rewrite Hk. cbn [rbind]. by destruct (condition_holds (db w) k ∅ ∅ c).
Qed.

(** ** [transact_set_has_new_comment_activity] *)

(** X1.  On a stored post the flag [hasNewCommentActivity] can be set to
    [true] when it is absent or [false], and to [false] only when it is
    [true]; the transaction then writes the flag and nothing else.  In every
    other case, in particular when the post already has the value, the
    transaction is cancelled and the table is left as it was; so a call that
    succeeded is cancelled when it is repeated, and the opposite call
    succeeds. *)
Theorem set_has_new_comment_activity_toggles (w : world) (post_id : string)
    (new_value : bool) (it : item) :
  stored (db w) (post_pk post_id) it ->
  (transact_write_items [transact_set_has_new_comment_activity post_id new_value] w).1
  = (if activity_settable it new_value then Ok tt else Raise TransactionCanceledException)
  /\ db (transact_write_items [transact_set_has_new_comment_activity post_id new_value] w).2
     = (if activity_settable it new_value
        then <[post_pk post_id := <["hasNewCommentActivity" := Boolean new_value]> it]> (db w)
        else db w)
  /\ activity_settable (<["hasNewCommentActivity" := Boolean new_value]> it) new_value = false
  /\ activity_settable (<["hasNewCommentActivity" := Boolean new_value]> it) (negb new_value)
     = true.
Proof.
  intros (Hit & Hpk & _).
  assert (Hrun : transact_write_items
                   [transact_set_has_new_comment_activity post_id new_value] w
                 = (if activity_settable it new_value
                    then (Ok tt,
                          mkWorld (<[post_pk post_id :=
                                       <["hasNewCommentActivity" := Boolean new_value]> it]>
                                     (db w))
                            (ReqTransactWriteItems
                               [transact_set_has_new_comment_activity post_id new_value]
                             :: requests w) (warnings w))
                    else (Raise TransactionCanceledException,
                          mkWorld (db w)
                            (ReqTransactWriteItems
                               [transact_set_has_new_comment_activity post_id new_value]
                             :: requests w) (warnings w)))).
  { unfold transact_set_has_new_comment_activity.
    rewrite transact_write_update_run.
    unfold update_table, condition_holds, item_at, activity_settable.
    cbn [Key ExpressionAttributeNames ExpressionAttributeValues ConditionExpression
         UpdateExpression].
    rewrite Hit. cbn [default id].
    destruct new_value; cbn [eval_condition]; unfold resolve_name, compare_with;
      rewrite !lookup_empty; cbn [default resolve]; rewrite Hpk; lookups;
      destruct (it !! "hasNewCommentActivity") as [[| |[]| |]|]; simpl; lookups; reflexivity. }
  rewrite Hrun. split; [by destruct (activity_settable it new_value)|].
  split; [by destruct (activity_settable it new_value)|].
  unfold activity_settable. rewrite lookup_insert_eq. by destruct new_value.
Qed.

Lemma plain_world_stored :
  stored (db plain_world) (post_pk "pid") (record_at (db plain_world) (post_pk "pid")).
Proof. apply record_at_stored; vm_compute; reflexivity. Qed.

Lemma set_has_new_comment_activity_toggles_witness :
  stored (db plain_world) (post_pk "pid") (record_at (db plain_world) (post_pk "pid"))
  /\ activity_settable (record_at (db plain_world) (post_pk "pid")) true = true
  /\ (transact_write_items [transact_set_has_new_comment_activity "pid" true] plain_world).1
     = (if activity_settable (record_at (db plain_world) (post_pk "pid")) true
        then Ok tt else Raise TransactionCanceledException).
Proof.
  split; [exact plain_world_stored|]. split; [vm_compute; reflexivity|].
  exact (proj1 (set_has_new_comment_activity_toggles plain_world "pid" true _
                  plain_world_stored)).
Defined.

(** ** Original metadata and deletion *)

Lemma original_metadata_pk_not_post (a b : string) : original_metadata_pk a <> post_pk b.
Proof. unfold original_metadata_pk, post_pk. by intros [= _]. Qed.

(** X2.  The original metadata of a post is a record of its own.  Added when
    there is none, it is read back by [get_original_metadata] and no other
    record changes; a second add, whatever its content, is cancelled and
    changes nothing; [delete_original_metadata] then restores the table. *)
Theorem original_metadata_round_trip (w : world) (post_id m m' : string) :
  db w !! original_metadata_pk post_id = None ->
  exists w1 it,
    transact_write_items [transact_add_original_metadata post_id m] w = (Ok tt, w1)
    /\ (get_original_metadata post_id w1).1 = Ok (Some it)
    /\ it !! "originalMetadata" = Some (Str m)
    /\ (forall k, k <> original_metadata_pk post_id -> db w1 !! k = db w !! k)
    /\ (exists w2, transact_write_items [transact_add_original_metadata post_id m'] w1
                   = (Raise TransactionCanceledException, w2) /\ db w2 = db w1)
    /\ (get_original_metadata post_id (delete_original_metadata post_id w1).2).1 = Ok None
    /\ db (delete_original_metadata post_id w1).2 = db w.
Proof.
  intros Hnone. unfold transact_add_original_metadata.
  rewrite (transact_write_put_run _ _ (original_metadata_pk post_id)) by reflexivity.
  unfold condition_holds at 1. rewrite Hnone. cbn [default eval_condition].
  unfold resolve_name. rewrite !lookup_empty. cbn [default]. rewrite ?lookup_empty.
  rewrite bool_decide_eq_false_2 by (by intros [? ?]). cbn [negb].
  eexists _, _. split; [reflexivity|]. cbn [db requests warnings].
  split; [cbn; by rewrite lookup_insert_eq|]. split; [by lookups|].
  split; [intros k Hk; by rewrite lookup_insert_ne|]. split; [|split].
  - rewrite (transact_write_put_run _ _ (original_metadata_pk post_id)) by reflexivity.
    unfold condition_holds. cbn [db]. rewrite lookup_insert_eq.
    cbn [default eval_condition]. unfold resolve_name. rewrite !lookup_empty. cbn [default].
    lookups. eexists. split; reflexivity.
  - cbn. by rewrite lookup_delete_eq.
  - cbn. by rewrite delete_insert_id.
Qed.

Lemma original_metadata_round_trip_witness :
  db plain_world !! original_metadata_pk "pid" = None
  /\ exists w1 it,
       transact_write_items [transact_add_original_metadata "pid" "{}"] plain_world = (Ok tt, w1)
       /\ (get_original_metadata "pid" w1).1 = Ok (Some it)
       /\ it !! "originalMetadata" = Some (Str "{}")
       /\ (forall k, k <> original_metadata_pk "pid" -> db w1 !! k = db plain_world !! k)
       /\ (exists w2, transact_write_items [transact_add_original_metadata "pid" "[]"] w1
                      = (Raise TransactionCanceledException, w2) /\ db w2 = db w1)
       /\ (get_original_metadata "pid" (delete_original_metadata "pid" w1).2).1 = Ok None
       /\ db (delete_original_metadata "pid" w1).2 = db plain_world.
Proof.
  assert (H : db plain_world !! original_metadata_pk "pid" = None) by (vm_compute; reflexivity).
  split; [exact H|]. exact (original_metadata_round_trip plain_world "pid" "{}" "[]" H).
Defined.

(** X3.  [delete_post] removes the record of the post and no other: the post
    is no longer read back, its original metadata stays where it was, and
    deleting a post that is not stored changes nothing. *)
Theorem delete_post_removes_post_only (w : world) (post_id : string) :
  exists w',
    delete_post post_id w = (Ok tt, w')
    /\ (get_post post_id w').1 = Ok None
    /\ (forall k, k <> post_pk post_id -> db w' !! k = db w !! k)
    /\ (get_original_metadata post_id w').1 = (get_original_metadata post_id w).1
    /\ (db w !! post_pk post_id = None -> db w' = db w).
Proof.
  eexists. split; [reflexivity|]. cbn [db].
  split; [cbn; by rewrite lookup_delete_eq|].
  split; [intros k Hk; by rewrite lookup_delete_ne|].
  split; [cbn; by rewrite lookup_delete_ne by (symmetry; apply original_metadata_pk_not_post)|].
  intros Hnone. by apply delete_id.
Qed.

(** ** [transact_add_pending_post] *)

Lemma set_if_lookup_ne {A} (o : option A) (k : string) (f : A -> attr_value) (it : item)
    (a : string) :
  a <> k -> set_if o k f it !! a = it !! a.
Proof. intros Hne. destruct o; [by cbn; rewrite lookup_insert_ne|done]. Qed.

Ltac pending_post_lookup :=
  unfold transact_add_pending_post; cbv zeta; cbn [put_item];
  rewrite !set_if_lookup_ne by done;
  repeat match goal with
         | |- context [if ?b then _ else _] => destruct b
         | |- context [match ?o with Some _ => _ | None => _ end] => destruct o
         end;
  rewrite ?lookup_insert_ne by done; rewrite ?lookup_insert_eq; try reflexivity.

Section PendingPost.
Variables (now : DateTime) (posted_by_user_id post_id post_type : string).
Variables (posted_at expires_at : option DateTime) (album_id text : option string).
Variable text_tags : option (list (string * string)).
Variables comments_disabled likes_disabled sharing_disabled verification_hidden : option bool.

Let tx : transact_item :=
  transact_add_pending_post now posted_by_user_id post_id post_type posted_at expires_at
    album_id text text_tags comments_disabled likes_disabled sharing_disabled
    verification_hidden.

Lemma add_pending_post_put :
  tx = Put (put_item tx) (Some (attribute_not_exists "partitionKey")).
Proof. reflexivity. Qed.

Lemma add_pending_post_key : item_key (put_item tx) = Ok (post_pk post_id).
Proof.
  unfold item_key, getitem_str.
  assert (put_item tx !! "partitionKey" = Some (Str ("post/" +:+ post_id))) as ->
    by (subst tx; pending_post_lookup).
  assert (put_item tx !! "sortKey" = Some (Str "-")) as -> by (subst tx; pending_post_lookup).
  reflexivity.
Qed.

End PendingPost.

(** X4.  Added when no record has its key, a pending post is stored and read
    back by [get_post] with its identity, owner, type, posting time (the
    current time when none is given) and the status [PENDING], filed under
    its owner in the status index; no other record changes. *)
Theorem add_pending_post_round_trip (w : world) (now : DateTime)
    (posted_by_user_id post_id post_type : string) (posted_at expires_at : option DateTime)
    (album_id text : option string) (text_tags : option (list (string * string)))
    (comments_disabled likes_disabled sharing_disabled verification_hidden : option bool) :
  db w !! post_pk post_id = None ->
  exists w' it,
    transact_write_items
      [transact_add_pending_post now posted_by_user_id post_id post_type posted_at expires_at
         album_id text text_tags comments_disabled likes_disabled sharing_disabled
         verification_hidden] w = (Ok tt, w')
    /\ (get_post post_id w').1 = Ok (Some it)
    /\ it !! "postId" = Some (Str post_id)
    /\ it !! "postedByUserId" = Some (Str posted_by_user_id)
    /\ it !! "postType" = Some (Str post_type)
    /\ it !! "postStatus" = Some (Str PostStatus.PENDING)
    /\ it !! "postedAt" = Some (Str (to_iso8601_string (default now posted_at)))
    /\ it !! "gsiA2PartitionKey" = Some (Str ("post/" +:+ posted_by_user_id))
    /\ it !! "gsiA2SortKey"
       = Some (Str (PostStatus.PENDING +:+ "/" +:+ to_iso8601_string (default now posted_at)))
    /\ (forall k, k <> post_pk post_id -> db w' !! k = db w !! k).
Proof.
  intros Hnone.
  rewrite (add_pending_post_put now posted_by_user_id post_id post_type posted_at expires_at
             album_id text text_tags comments_disabled likes_disabled sharing_disabled
             verification_hidden).
  rewrite (transact_write_put_run _ _ (post_pk post_id)) by apply add_pending_post_key.
  unfold condition_holds. rewrite Hnone. cbn [default eval_condition].
  unfold resolve_name. rewrite !lookup_empty. cbn [default]. rewrite ?lookup_empty.
  rewrite bool_decide_eq_false_2 by (by intros [? ?]). cbn [negb].
  eexists _, _. split; [reflexivity|].
  split; [cbn [get_post get_item bind send get_db ret fst db]; by rewrite lookup_insert_eq|].
  repeat split; try (intros k Hk; cbn [db]; by rewrite lookup_insert_ne);
    pending_post_lookup.
Qed.

Lemma add_pending_post_round_trip_witness :
  db empty_world !! post_pk "pid" = None
  /\ exists w' it,
       transact_write_items
         [transact_add_pending_post noon "uid" "pid" "TEXT_ONLY" None (Some afternoon)
            (Some "aid") (Some "lore") None None None None None] empty_world = (Ok tt, w')
       /\ (get_post "pid" w').1 = Ok (Some it)
       /\ it !! "postId" = Some (Str "pid")
       /\ it !! "postedByUserId" = Some (Str "uid")
       /\ it !! "postType" = Some (Str "TEXT_ONLY")
       /\ it !! "postStatus" = Some (Str PostStatus.PENDING)
       /\ it !! "postedAt" = Some (Str (to_iso8601_string (default noon None)))
       /\ it !! "gsiA2PartitionKey" = Some (Str ("post/" +:+ "uid"))
       /\ it !! "gsiA2SortKey"
          = Some (Str (PostStatus.PENDING +:+ "/" +:+ to_iso8601_string (default noon None)))
       /\ (forall k, k <> post_pk "pid" -> db w' !! k = db empty_world !! k).
Proof.
  split; [reflexivity|].
  exact (add_pending_post_round_trip empty_world noon "uid" "pid" "TEXT_ONLY" None
           (Some afternoon) (Some "aid") (Some "lore") None None None None None eq_refl).
Defined.

(** X5.  A pending post is never written over a stored record: when a record
    has the key of the post, the transaction is cancelled and the table is
    left as it was. *)
Theorem add_pending_post_never_overwrites (w : world) (old : item) (now : DateTime)
    (posted_by_user_id post_id post_type : string) (posted_at expires_at : option DateTime)
    (album_id text : option string) (text_tags : option (list (string * string)))
    (comments_disabled likes_disabled sharing_disabled verification_hidden : option bool) :
  stored (db w) (post_pk post_id) old ->
  exists w',
    transact_write_items
      [transact_add_pending_post now posted_by_user_id post_id post_type posted_at expires_at
         album_id text text_tags comments_disabled likes_disabled sharing_disabled
         verification_hidden] w = (Raise TransactionCanceledException, w')
    /\ db w' = db w.
Proof.
  intros (Hold & Hpk & _).
  rewrite (add_pending_post_put now posted_by_user_id post_id post_type posted_at expires_at
             album_id text text_tags comments_disabled likes_disabled sharing_disabled
             verification_hidden).
  rewrite (transact_write_put_run _ _ (post_pk post_id)) by apply add_pending_post_key.
  unfold condition_holds. rewrite Hold. cbn [default eval_condition].
  unfold resolve_name. rewrite !lookup_empty. cbn [default id]. rewrite Hpk.
  rewrite bool_decide_eq_true_2 by eauto. cbn [negb].
  eexists. split; reflexivity.
Qed.

Lemma add_pending_post_never_overwrites_witness :
  stored (db plain_world) (post_pk "pid") (record_at (db plain_world) (post_pk "pid"))
  /\ exists w',
       transact_write_items
         [transact_add_pending_post afternoon "other" "pid" "IMAGE" None None None None None
            None None None None] plain_world = (Raise TransactionCanceledException, w')
       /\ db w' = db plain_world.
Proof.
  split; [exact plain_world_stored|].
  exact (add_pending_post_never_overwrites plain_world _ afternoon "other" "pid" "IMAGE"
           None None None None None None None None None plain_world_stored).
Defined.

(** ** [set_expires_at] and [remove_expires_at] *)

Lemma value_eqb_neq (a b : attr_value) : a <> b -> value_eqb a b = false.
Proof.
  intros Hne. destruct (value_eqb a b) eqn:E; [|done]. by apply value_eqb_eq in E.
Qed.

Lemma set_expires_at_run (w : world) (post_item it : item) (expires_at : DateTime)
    (post_id user_id post_status : string) :
  post_item !! "postId" = Some (Str post_id) ->
  post_item !! "postedByUserId" = Some (Str user_id) ->
  post_item !! "postStatus" = Some (Str post_status) ->
  db w !! post_pk post_id = Some it ->
  it !! "postStatus" = Some (Str post_status) ->
  exists r,
    set_expires_at post_item expires_at w
    = (Ok (with_expiry it user_id post_status expires_at),
       mkWorld (<[post_pk post_id := with_expiry it user_id post_status expires_at]> (db w))
         (r :: requests w) (warnings w)).
Proof.
  intros Hid Hu Hst Hit Hps. unfold set_expires_at, bind, lift, getitem_str.
  rewrite Hid, Hu, Hst. rewrite update_item_run.
  unfold update_table, condition_holds, item_at.
  cbn [Key ExpressionAttributeNames ExpressionAttributeValues ConditionExpression
       UpdateExpression default].
  rewrite Hit. cbn [default id eval_condition]. unfold resolve_name, compare_with.
  eexists. lookups. rewrite Hps. lookups.
  rewrite value_eqb_refl_str. lookups. reflexivity.
Qed.

Lemma set_expires_at_stale_run (w : world) (post_item : item) (expires_at : DateTime)
    (post_id user_id post_status : string) :
  post_item !! "postId" = Some (Str post_id) ->
  post_item !! "postedByUserId" = Some (Str user_id) ->
  post_item !! "postStatus" = Some (Str post_status) ->
  db w !! post_pk post_id ≫= (fun it => it !! "postStatus") <> Some (Str post_status) ->
  exists r,
    set_expires_at post_item expires_at w
    = (Raise ConditionalCheckFailedException, mkWorld (db w) (r :: requests w) (warnings w)).
Proof.
  intros Hid Hu Hst Hps. unfold set_expires_at, bind, lift, getitem_str.
  rewrite Hid, Hu, Hst. rewrite update_item_run.
  unfold update_table, condition_holds, item_at.
  cbn [Key ExpressionAttributeNames ExpressionAttributeValues ConditionExpression
       UpdateExpression default].
  eexists.
  destruct (db w !! post_pk post_id) as [it|];
    cbn [default id mbind option_bind eval_condition] in *;
    unfold resolve_name, compare_with; lookups; [|reflexivity].
  destruct (it !! "postStatus") as [v|]; [|reflexivity].
  rewrite value_eqb_neq by congruence. reflexivity.
Qed.

Lemma set_expires_at_inv (w w' : world) (post_item new : item) (expires_at : DateTime) :
  set_expires_at post_item expires_at w = (Ok new, w') ->
  exists post_id user_id post_status it,
    post_item !! "postId" = Some (Str post_id)
    /\ post_item !! "postedByUserId" = Some (Str user_id)
    /\ post_item !! "postStatus" = Some (Str post_status)
    /\ db w !! post_pk post_id = Some it
    /\ it !! "postStatus" = Some (Str post_status)
    /\ new = with_expiry it user_id post_status expires_at
    /\ db w' = <[post_pk post_id := new]> (db w).
Proof.
  intros Hrun.
  destruct (post_item !! "postId") as [[post_id| | | |]|] eqn:Hid;
    try (unfold set_expires_at, bind, lift, getitem_str in Hrun; rewrite Hid in Hrun;
         discriminate Hrun).
  destruct (post_item !! "postedByUserId") as [[user_id| | | |]|] eqn:Hu;
    try (unfold set_expires_at, bind, lift, getitem_str in Hrun; rewrite Hid, Hu in Hrun;
         discriminate Hrun).
  destruct (post_item !! "postStatus") as [[post_status| | | |]|] eqn:Hst;
    try (unfold set_expires_at, bind, lift, getitem_str in Hrun; rewrite Hid, Hu, Hst in Hrun;
         discriminate Hrun).
  exists post_id, user_id, post_status.
  assert (Hdec : db w !! post_pk post_id ≫= (fun it => it !! "postStatus")
                 = Some (Str post_status)
                 \/ db w !! post_pk post_id ≫= (fun it => it !! "postStatus")
                    <> Some (Str post_status)).
  { destruct (db w !! post_pk post_id) as [it|]; [|by right]. cbn.
    destruct (it !! "postStatus") as [v|]; [|by right].
    destruct (value_eqb v (Str post_status)) eqn:E.
    - left. by rewrite (value_eqb_eq _ _ E).
    - right. intros [= ->]. by rewrite value_eqb_refl_str in E. }
  destruct Hdec as [Heq|Hne].
  - destruct (db w !! post_pk post_id) as [it|] eqn:Hit; [|done]. cbn in Heq.
    destruct (set_expires_at_run w post_item it expires_at post_id user_id post_status
                Hid Hu Hst Hit Heq) as [r Hr].
    rewrite Hr in Hrun. injection Hrun as <- <-. exists it. by repeat split.
  - destruct (set_expires_at_stale_run w post_item expires_at post_id user_id post_status
                Hid Hu Hst Hne) as [r Hr].
    rewrite Hr in Hrun. discriminate Hrun.
Qed.

(** X6.  [set_expires_at] writes only while the stored status of the post is
    the status of the item it was given: when the post is not stored, or its
    status has changed since the item was read, the call raises
    [ConditionalCheckFailedException] and the table is left as it was. *)
Theorem set_expires_at_rejects_stale_status (w : world) (post_item : item)
    (expires_at : DateTime) (post_id user_id post_status : string) :
  post_item !! "postId" = Some (Str post_id) ->
  post_item !! "postedByUserId" = Some (Str user_id) ->
  post_item !! "postStatus" = Some (Str post_status) ->
  db w !! post_pk post_id ≫= (fun it => it !! "postStatus") <> Some (Str post_status) ->
  exists w',
    set_expires_at post_item expires_at w = (Raise ConditionalCheckFailedException, w')
    /\ db w' = db w.
Proof.
  intros Hid Hu Hst Hne.
  destruct (set_expires_at_stale_run w post_item expires_at post_id user_id post_status
              Hid Hu Hst Hne) as [r ->].
  eexists. split; reflexivity.
Qed.

Lemma set_expires_at_rejects_stale_status_witness :
  record_at (db plain_world) (post_pk "pid") !! "postId" = Some (Str "pid")
  /\ record_at (db plain_world) (post_pk "pid") !! "postedByUserId" = Some (Str "uid")
  /\ record_at (db plain_world) (post_pk "pid") !! "postStatus" = Some (Str "PENDING")
  /\ db plain_world_completed !! post_pk "pid" ≫= (fun it => it !! "postStatus")
     <> Some (Str "PENDING")
  /\ exists w',
       set_expires_at (record_at (db plain_world) (post_pk "pid")) afternoon
         plain_world_completed = (Raise ConditionalCheckFailedException, w')
       /\ db w' = db plain_world_completed.
Proof.
  assert (H1 : record_at (db plain_world) (post_pk "pid") !! "postId" = Some (Str "pid"))
    by (vm_compute; reflexivity).
  assert (H2 : record_at (db plain_world) (post_pk "pid") !! "postedByUserId"
               = Some (Str "uid")) by (vm_compute; reflexivity).
  assert (H3 : record_at (db plain_world) (post_pk "pid") !! "postStatus"
               = Some (Str "PENDING")) by (vm_compute; reflexivity).
  assert (H4 : db plain_world_completed !! post_pk "pid" ≫= (fun it => it !! "postStatus")
               <> Some (Str "PENDING")) by (vm_compute; discriminate).
  split; [exact H1|]. split; [exact H2|]. split; [exact H3|]. split; [exact H4|].
  exact (set_expires_at_rejects_stale_status plain_world_completed _ afternoon
           "pid" "uid" "PENDING" H1 H2 H3 H4).
Defined.

Lemma without_expiry_lookup (it : item) (a : string) :
  without_expiry it !! a = if bool_decide (a ∈ expiry_attrs) then None else it !! a.
Proof.
  unfold without_expiry, expiry_attrs. case_bool_decide as Hin.
  - repeat (apply elem_of_cons in Hin as [->|Hin]); [by lookups..|by apply elem_of_nil in Hin].
  - repeat (apply not_elem_of_cons in Hin as [? Hin]). by rewrite !lookup_delete_ne.
Qed.

Lemma with_expiry_lookup (it : item) (u st : string) (e : DateTime) (a : string) :
  a ∉ expiry_attrs -> with_expiry it u st e !! a = it !! a.
Proof.
  unfold with_expiry, expiry_attrs. intros Hin.
  repeat (apply not_elem_of_cons in Hin as [? Hin]). by rewrite !lookup_insert_ne.
Qed.

Lemma remove_expires_at_run (w : world) (post_id : string) (it : item) :
  stored (db w) (post_pk post_id) it ->
  exists r,
    remove_expires_at post_id w
    = (Ok (without_expiry it),
       mkWorld (<[post_pk post_id := without_expiry it]> (db w)) (r :: requests w) (warnings w)).
Proof.
  intros (Hit & Hpk & _). unfold remove_expires_at. rewrite update_item_run.
  unfold update_table, condition_holds, item_at.
  cbn [Key ExpressionAttributeNames ExpressionAttributeValues ConditionExpression
       UpdateExpression default].
  rewrite Hit. cbn [default id eval_condition]. unfold resolve_name.
  eexists. lookups. rewrite Hpk. lookups. reflexivity.
Qed.

(** X7.  Giving a stored post an expiry and removing it again restores the
    table: [set_expires_at] writes the expiry and its four index keys on a
    post that has none of them, and [remove_expires_at] removes exactly
    these five attributes. *)
Theorem expires_at_round_trip (w : world) (post_item it : item) (expires_at : DateTime)
    (post_id user_id post_status : string) :
  post_item !! "postId" = Some (Str post_id) ->
  post_item !! "postedByUserId" = Some (Str user_id) ->
  post_item !! "postStatus" = Some (Str post_status) ->
  stored (db w) (post_pk post_id) it ->
  it !! "postStatus" = Some (Str post_status) ->
  (forall a, a ∈ expiry_attrs -> it !! a = None) ->
  exists new w1 w2,
    set_expires_at post_item expires_at w = (Ok new, w1)
    /\ (forall a, a ∈ expiry_attrs -> is_Some (new !! a))
    /\ (forall a, a ∉ expiry_attrs -> new !! a = it !! a)
    /\ remove_expires_at post_id w1 = (Ok it, w2)
    /\ db w2 = db w.
Proof.
  intros Hid Hu Hst Hstored Hps Hnone.
  destruct (set_expires_at_run w post_item it expires_at post_id user_id post_status
              Hid Hu Hst (proj1 Hstored) Hps) as [r Hr].
  assert (Hback : without_expiry (with_expiry it user_id post_status expires_at) = it).
  { apply map_eq. intros a. rewrite without_expiry_lookup. case_bool_decide as Hin.
    - symmetry. by apply Hnone.
    - by apply with_expiry_lookup. }
  destruct (remove_expires_at_run
              (mkWorld (<[post_pk post_id := with_expiry it user_id post_status expires_at]>
                          (db w)) (r :: requests w) (warnings w))
              post_id (with_expiry it user_id post_status expires_at)) as [r' Hr'].
  { destruct Hstored as (_ & Hpk & Hsk). split; [cbn; by rewrite lookup_insert_eq|].
    rewrite !with_expiry_lookup by (unfold expiry_attrs; set_solver). done. }
  rewrite Hback in Hr'. cbn [db requests warnings] in Hr'.
  rewrite insert_insert_eq, (insert_id _ _ _ (proj1 Hstored)) in Hr'.
  eexists _, _, _. split; [exact Hr|]. split.
  { intros a Hin. unfold expiry_attrs in Hin.
    repeat (apply elem_of_cons in Hin as [->|Hin]);
      [unfold with_expiry; lookups; eauto..|by apply elem_of_nil in Hin]. }
  split; [intros a Hin; by apply with_expiry_lookup|].
  split; [exact Hr'|reflexivity].
Qed.

Lemma expires_at_round_trip_witness :
  plain_post !! "postId" = Some (Str "pid")
  /\ plain_post !! "postedByUserId" = Some (Str "uid")
  /\ plain_post !! "postStatus" = Some (Str "COMPLETED")
  /\ stored (db plain_world_completed) (post_pk "pid") plain_post
  /\ (forall a, a ∈ expiry_attrs -> plain_post !! a = None)
  /\ exists new w1 w2,
       set_expires_at plain_post afternoon plain_world_completed = (Ok new, w1)
       /\ (forall a, a ∈ expiry_attrs -> is_Some (new !! a))
       /\ (forall a, a ∉ expiry_attrs -> new !! a = plain_post !! a)
       /\ remove_expires_at "pid" w1 = (Ok plain_post, w2)
       /\ db w2 = db plain_world_completed.
Proof.
  assert (H1 : plain_post !! "postId" = Some (Str "pid")) by (vm_compute; reflexivity).
  assert (H2 : plain_post !! "postedByUserId" = Some (Str "uid")) by (vm_compute; reflexivity).
  assert (H3 : plain_post !! "postStatus" = Some (Str "COMPLETED")) by (vm_compute; reflexivity).
  assert (H4 : stored (db plain_world_completed) (post_pk "pid") plain_post)
    by (apply record_at_stored; vm_compute; reflexivity).
  assert (H5 : forall a, a ∈ expiry_attrs -> plain_post !! a = None).
  { intros a Hin%list_elem_of_In. cbn [In expiry_attrs] in Hin.
    destruct Hin as [<-|[<-|[<-|[<-|[<-|[]]]]]]; reflexivity. }
  split; [exact H1|]. split; [exact H2|]. split; [exact H3|]. split; [exact H4|].
  split; [exact H5|].
  exact (expires_at_round_trip plain_world_completed plain_post plain_post afternoon
           "pid" "uid" "COMPLETED" H1 H2 H3 H4 H3 H5).
Defined.

(** What the per-day query yields, before projection. *)
Lemma expired_post_pks_entries (w : world) (date : Date) (cut_off_time : option TimeOfDay) :
  exists entries q,
    generate_expired_post_pks_by_day date cut_off_time w
    = (Ok (key_of <$> entries), mkWorld (db w) (ReqQuery q :: requests w) (warnings w))
    /\ Permutation entries
         (List.filter (expired_onb date cut_off_time) (map_to_list (db w)).*2).
Proof.
  unfold generate_expired_post_pks_by_day. rewrite generate_all_query_run.
  match goal with |- context [query_items ?q _] => set (qk := q) end.
  destruct (query_items_sorted qk (db w) gsi_k1) as (sorted & Hq & Hperm & _);
    [reflexivity..|].
  exists sorted, qk. rewrite Hq. split; [reflexivity|].
  rewrite Hperm. erewrite List.filter_ext; [reflexivity|].
  intros it. subst qk. cbn [KeyConditionExpression].
  rewrite <- (day_query_hits date cut_off_time it). by destruct cut_off_time.
Qed.

Lemma record_in_values (t : table) (k : key) (it : item) :
  t !! k = Some it -> In it (map_to_list t).*2.
Proof.
  intros H. apply list_elem_of_In, list_elem_of_fmap. exists (k, it).
  split; [done|]. by apply elem_of_map_to_list.
Qed.

(** X8.  Once [set_expires_at] has given a post the expiry [expires_at], the
    per-day query for the day of [expires_at] holds the record of the post
    when there is no cut-off or the time of [expires_at] is strictly before
    the cut-off, and only then. *)
Theorem set_expires_at_then_day_query (w w' : world) (post_item new : item)
    (expires_at : DateTime) (cut_off_time : option TimeOfDay) :
  set_expires_at post_item expires_at w = (Ok new, w') ->
  valid_time (time expires_at) ->
  (forall t, cut_off_time = Some t -> valid_time t) ->
  exists entries,
    (generate_expired_post_pks_by_day (date expires_at) cut_off_time w').1
    = Ok (key_of <$> entries)
    /\ Permutation entries
         (List.filter (expired_onb (date expires_at) cut_off_time) (map_to_list (db w')).*2)
    /\ (In new entries <-> forall t, cut_off_time = Some t -> time_lt (time expires_at) t).
Proof.
  intros Hrun Hve Hvc.
  destruct (set_expires_at_inv _ _ _ _ _ Hrun)
    as (post_id & user_id & post_status & it & _ & _ & _ & _ & _ & -> & Hdb).
  destruct (expired_post_pks_entries w' (date expires_at) cut_off_time)
    as (entries & q & -> & Hperm).
  exists entries. split; [reflexivity|]. split; [exact Hperm|].
  assert (Hin : In (with_expiry it user_id post_status expires_at) (map_to_list (db w')).*2).
  { apply (record_in_values _ (post_pk post_id)). rewrite Hdb. apply lookup_insert_eq. }
  assert (Hon : expired_onb (date expires_at) cut_off_time
                  (with_expiry it user_id post_status expires_at)
                = match cut_off_time with
                  | Some t => String.ltb (time_str (time expires_at)) (time_str t)
                  | None => true
                  end).
  { unfold expired_onb, with_expiry.
    rewrite (lookup_insert_ne _ "gsiK1SortKey" "gsiK1PartitionKey") by done.
    rewrite !lookup_insert_eq. by rewrite String.eqb_refl. }
  split.
  - intros Hnew%list_elem_of_In t ->. rewrite Hperm in Hnew.
    apply list_elem_of_In, filter_In in Hnew as [_ Hnew]. rewrite Hon in Hnew.
    apply time_str_ltb; auto.
  - intros Hlt. apply list_elem_of_In. rewrite Hperm. apply list_elem_of_In, filter_In.
    split; [exact Hin|]. rewrite Hon. destruct cut_off_time as [t|]; [|done].
    apply time_str_ltb; auto.
Qed.

Lemma prefix_app_inv (p s : string) :
  String.prefix p s = true -> exists r, s = p +:+ r.
Proof.
  revert s. induction p as [|a p IH]; intros s; [by exists s|].
  destruct s as [|b s]; [done|]. cbn [String.prefix].
  destruct (ascii_dec a b) as [->|]; [|done].
  intros [r ->]%IH. exists r. by rewrite append_cons.
Qed.

Lemma story_expires (u : string) (s : item) :
  is_story u s = true -> exists e, expires s e.
Proof.
  unfold is_story, expires. intros [_ H]%andb_true_iff. cbn [eval_condition] in H.
  apply andb_true_iff in H as [_ H]. unfold resolve_name in H.
  rewrite lookup_empty in H. cbn [default] in H.
  destruct (s !! "gsiA1SortKey") as [[x| | | |]|]; try done.
  apply prefix_app_inv in H as [r ->]. exists r. by rewrite <- append_assoc.
Qed.

Lemma valid_timeb_sound (t : TimeOfDay) : valid_timeb t = true -> valid_time t.
Proof.
  unfold valid_timeb, valid_time.
  intros [[[Hh Hm]%andb_true_iff Hs]%andb_true_iff Hu]%andb_true_iff.
  apply Nat.ltb_lt in Hh, Hm, Hs. apply N.ltb_lt in Hu.
  assert (Hpow : 10 ^ 6 = N.to_nat 1000000).
  { apply Nat2N.inj. rewrite Nat2N.inj_pow, N2Nat.id. vm_compute. reflexivity. }
  split; [exact Hh|]. split; [exact Hm|]. split; [exact Hs|]. rewrite Hpow. lia.
Qed.

Lemma story_world_run :
  set_expires_at plain_post afternoon plain_world_completed = (Ok plain_story, story_world).
Proof. apply run_eq. vm_cast_no_check (eq_refl (Ok plain_story)). Qed.

Lemma set_expires_at_then_day_query_witness :
  set_expires_at plain_post afternoon plain_world_completed = (Ok plain_story, story_world)
  /\ valid_time (time afternoon)
  /\ (forall t, Some half_past_five = Some t -> valid_time t)
  /\ time_lt (time afternoon) half_past_five
  /\ exists entries,
       (generate_expired_post_pks_by_day (date afternoon) (Some half_past_five) story_world).1
       = Ok (key_of <$> entries)
       /\ Permutation entries
            (List.filter (expired_onb (date afternoon) (Some half_past_five))
               (map_to_list (db story_world)).*2)
       /\ (In plain_story entries
           <-> forall t, Some half_past_five = Some t -> time_lt (time afternoon) t).
Proof.
  assert (H2 : valid_time (time afternoon))
    by (apply valid_timeb_sound; vm_compute; reflexivity).
  assert (H3 : forall t, Some half_past_five = Some t -> valid_time t)
    by (intros t [= <-]; apply valid_timeb_sound; vm_compute; reflexivity).
  split; [exact story_world_run|]. split; [exact H2|]. split; [exact H3|].
  split; [left; cbn; lia|].
  exact (set_expires_at_then_day_query plain_world_completed story_world plain_post
           plain_story afternoon (Some half_past_five) story_world_run H2 H3).
Defined.

(** ** [get_next_completed_post_to_expire] with an excluded post *)

(** What a query with a filter yields: the filter is applied to the items of
    the index in ascending order of sort key. *)
Lemma query_items_filtered (q : query_kwargs) (t : table) (ix : index) (f : condition) :
  index_of_name (IndexName q) = Some ix ->
  FilterExpression q = Some f ->
  exists sorted,
    query_items q t
    = Ok (project (ProjectionExpression q)
            <$> List.filter (fun it => eval_condition ∅ ∅ it f) sorted)
    /\ Permutation sorted
         (List.filter (fun it => in_index ix it
                                 && eval_condition ∅ ∅ it (KeyConditionExpression q))
            (map_to_list t).*2)
    /\ StronglySorted (fun a b => sk_leb ix a b = true) sorted
    /\ Forall (indexed ix) sorted.
Proof.
  intros Hix Hf. unfold query_items. rewrite Hix, Hf.
  eexists. split; [reflexivity|].
  assert (Hall : Forall (indexed ix)
            (List.filter (fun it => in_index ix it
                                    && eval_condition ∅ ∅ it (KeyConditionExpression q))
               (map_to_list t).*2)).
  { rewrite Forall_forall. intros it Hit%list_elem_of_In%filter_In.
    destruct Hit as [_ Hit]. by apply andb_true_iff in Hit as [? _]. }
  split; [apply isort_perm|]. split.
  - apply (isort_sorted _ (indexed ix));
      [apply sk_leb_total|apply sk_leb_trans|exact Hall].
  - by rewrite isort_perm.
Qed.

Lemma StronglySorted_filter {A} (R : A -> A -> Prop) (f : A -> bool) (l : list A) :
  StronglySorted R l -> StronglySorted R (List.filter f l).
Proof.
  induction 1 as [|a l HS IH Hall]; cbn [List.filter]; [constructor|].
  destruct (f a); [|exact IH]. constructor; [exact IH|].
  rewrite Forall_forall in Hall |- *. intros b Hb%list_elem_of_In%filter_In.
  apply Hall, list_elem_of_In, Hb.
Qed.

(** In a list in index order, the head expires no later than any other. *)
Lemma sorted_head_least (l : list item) (s s' : item) (e e' : string) :
  StronglySorted (fun a b => sk_leb gsi_a1 a b = true) l ->
  head l = Some s -> In s' l -> expires s e -> expires s' e' -> String.leb e e' = true.
Proof.
  intros Hs Hhead Hin He He'. destruct l as [|x l]; [done|]. injection Hhead as ->.
  destruct Hin as [->|Hin].
  - unfold expires in He, He'. rewrite He in He'. injection He' as He'.
    apply append_inv_head in He'. subst. unfold String.leb. by rewrite string_compare_refl.
  - inversion Hs as [|? ? _ Hall]; subst.
    rewrite Forall_forall in Hall. specialize (Hall s' (proj2 (list_elem_of_In _ _) Hin)).
    unfold sk_leb in Hall. cbn [sk_attr gsi_a1] in Hall.
    unfold expires in He, He'. rewrite He, He' in Hall.
    unfold value_leb in Hall. cbn [value_compare] in Hall.
    unfold String.leb. by rewrite string_compare_app in Hall.
Qed.

(** The filter [Attr('postId').ne(x)] keeps the items whose [postId] is not
    [x]. *)
Lemma post_id_ne_spec (x : string) (s : item) :
  eval_condition ∅ ∅ s (CNe "postId" (Lit (Str x))) = true <-> s !! "postId" <> Some (Str x).
Proof.
  cbn [eval_condition]. unfold resolve_name, compare_with. rewrite lookup_empty.
  cbn [default resolve]. destruct (s !! "postId") as [v|]; [|done].
  destruct (value_eqb v (Str x)) eqn:E; cbn [negb].
  - apply value_eqb_eq in E as ->. split; [done|]. by intros [].
  - split; [|done]. intros _ [= ->]. by rewrite value_eqb_refl_str in E.
Qed.

Lemma next_to_expire_excluding_run (u x : string) (w : world) :
  x <> "" ->
  exists sorted q,
    get_next_completed_post_to_expire u (Some x) w
    = (Ok (head (List.filter (fun s => eval_condition ∅ ∅ s (CNe "postId" (Lit (Str x))))
                   sorted)),
       mkWorld (db w) (ReqQuery q :: requests w) (warnings w))
    /\ Permutation sorted (stories (db w) u)
    /\ StronglySorted (fun a b => sk_leb gsi_a1 a b = true) sorted.
Proof.
  intros Hx. unfold get_next_completed_post_to_expire. cbn [opt_truthy]. unfold str_truthy.
  apply String.eqb_neq in Hx. rewrite Hx. cbn [negb default]. unfold bind at 1.
  rewrite generate_all_query_run.
  match goal with |- context [query_items ?q _] => set (qk := q) end.
  destruct (query_items_filtered qk (db w) gsi_a1 (CNe "postId" (Lit (Str x))))
    as (sorted & Hq & Hperm & Hsort & _); [reflexivity..|].
  rewrite Hq. exists sorted, qk. cbn [lift ret project ProjectionExpression qk].
  change (project None) with (fun it : item => it). rewrite list_fmap_id.
  split; [reflexivity|]. split; [exact Hperm|exact Hsort].
Qed.

(** ** Counters *)

(** X11.  On a stored post whose view count is absent or a number,
    [increment_viewed_by_count] returns the record with the count raised by
    one (an absent count counts as 0), stores it, and changes nothing else. *)
Theorem increment_viewed_by_count_adds_one (w : world) (post_id : string) (it : item) :
  stored (db w) (post_pk post_id) it ->
  it !! "viewedByCount" = None \/ (exists n, it !! "viewedByCount" = Some (Num n)) ->
  exists w',
    increment_viewed_by_count post_id w
    = (Ok (<["viewedByCount" := Num (views it + Q2Qc 1)%Qc]> it), w')
    /\ db w' = <[post_pk post_id := <["viewedByCount" := Num (views it + Q2Qc 1)%Qc]> it]> (db w).
Proof.
  intros (Hit & Hpk & _) Hv. unfold increment_viewed_by_count, try_except.
  rewrite update_item_run. unfold update_table, condition_holds, item_at.
  cbn [Key ExpressionAttributeNames ExpressionAttributeValues ConditionExpression
       UpdateExpression default].
  rewrite Hit. cbn [default id eval_condition]. unfold resolve_name.
  rewrite lookup_empty. cbn [default]. rewrite Hpk.
  rewrite bool_decide_eq_true_2 by eauto.
  cbn [apply_actions apply_action rbind]. unfold resolve_name.
  rewrite lookup_empty. cbn [default]. rewrite lookup_singleton_eq. unfold views.
  destruct Hv as [Hv|[n Hv]]; rewrite Hv; cbn [rbind].
  - rewrite Qcplus_0_l. eexists. split; reflexivity.
  - eexists. split; reflexivity.
Qed.

Lemma increment_viewed_by_count_adds_one_witness :
  stored (db plain_world) (post_pk "pid") (record_at (db plain_world) (post_pk "pid"))
  /\ (record_at (db plain_world) (post_pk "pid") !! "viewedByCount" = None
      \/ exists n, record_at (db plain_world) (post_pk "pid") !! "viewedByCount" = Some (Num n))
  /\ exists w',
       increment_viewed_by_count "pid" plain_world
       = (Ok (<["viewedByCount" :=
                  Num (views (record_at (db plain_world) (post_pk "pid")) + Q2Qc 1)%Qc]>
                (record_at (db plain_world) (post_pk "pid"))), w')
       /\ db w'
          = <[post_pk "pid" :=
                <["viewedByCount" :=
                    Num (views (record_at (db plain_world) (post_pk "pid")) + Q2Qc 1)%Qc]>
                  (record_at (db plain_world) (post_pk "pid"))]> (db plain_world).
Proof.
  assert (H : record_at (db plain_world) (post_pk "pid") !! "viewedByCount" = None
              \/ exists n, record_at (db plain_world) (post_pk "pid") !! "viewedByCount"
                           = Some (Num n)) by (left; reflexivity).
  split; [exact plain_world_stored|]. split; [exact H|].
  exact (increment_viewed_by_count_adds_one plain_world "pid" _ plain_world_stored H).
Defined.

Lemma counter_attr_not_key (c : counter) : counter_attr c <> "partitionKey".
Proof. by destruct c. Qed.

Lemma write_one_update (u : update_kwargs) (build : result transact_item) (w : world) :
  build = Ok (Update u) -> write_one build w = transact_write_items [Update u] w.
Proof. intros ->. reflexivity. Qed.

(** X12.  On a stored post, an increment of a counter followed by a
    decrement of the same counter succeeds and leaves the count as it was:
    a count of [n] goes to [n + 1] and back to [n], and the table is the
    same as before; a counter that was absent goes to 1 and back to 0,
    where it stays as an attribute. *)
Theorem increment_then_decrement_restores (w : world) (c : counter) (post_id : string)
    (it : item) (n : nat) :
  stored (db w) (post_pk post_id) it ->
  it !! counter_attr c = Some (Num (count n)) \/ (it !! counter_attr c = None /\ n = 0) ->
  exists w1 w2,
    write_one (transact_increment c post_id) w = (Ok tt, w1)
    /\ counter_value (db w1) post_id c = Some (Num (count (S n)))
    /\ write_one (transact_decrement c post_id) w1 = (Ok tt, w2)
    /\ db w2 = <[post_pk post_id := <[counter_attr c := Num (count n)]> it]> (db w)
    /\ (it !! counter_attr c = Some (Num (count n)) -> db w2 = db w).
Proof.
  intros (Hit & Hpk & _) Hv.
  destruct (transact_increment_table c post_id (db w)) as (u & Hb & Hu).
  rewrite Hit, Hpk in Hu. rewrite bool_decide_eq_true_2 in Hu by eauto.
  assert (Hadd : add_to (counter_attr c) (Q2Qc 1) it
                 = Ok (<[counter_attr c := Num (count (S n))]> it)).
  { unfold add_to. destruct Hv as [->|[-> ->]]; [by rewrite count_succ|reflexivity]. }
  rewrite Hadd in Hu. cbn [rbind] in Hu.
  set (it1 := <[counter_attr c := Num (count (S n))]> it) in *.
  set (w1 := mkWorld (<[post_pk post_id := it1]> (db w))
               (ReqTransactWriteItems [Update u] :: requests w) (warnings w)).
  destruct (transact_decrement_table c post_id (db w1)) as (u' & Hb' & _ & Hu').
  subst w1. cbn [db] in Hu'. rewrite lookup_insert_eq in Hu'.
  assert (Hpk1 : it1 !! "partitionKey" = Some (Str (post_pk post_id).1)).
  { subst it1. rewrite lookup_insert_ne by apply counter_attr_not_key. exact Hpk. }
  assert (Hc1 : it1 !! counter_attr c = Some (Num (count (S n))))
    by (subst it1; apply lookup_insert_eq).
  rewrite Hpk1, Hc1 in Hu'. rewrite bool_decide_eq_true_2 in Hu' by eauto.
  unfold is_positive in Hu'. rewrite (proj2 (count_positive (S n))) in Hu' by lia.
  cbn [andb] in Hu'. unfold add_to in Hu'. rewrite Hc1, count_pred in Hu'.
  cbn [rbind] in Hu'. subst it1. rewrite insert_insert_eq in Hu'.
  rewrite insert_insert_eq in Hu'.
  eexists _, _. split.
  { rewrite (write_one_update u) by exact Hb. rewrite transact_write_update_run, Hu.
    reflexivity. }
  split; [unfold counter_value; cbn [db]; by rewrite lookup_insert_eq; cbn;
          rewrite lookup_insert_eq|].
  split.
  { rewrite (write_one_update u') by exact Hb'. rewrite transact_write_update_run.
    cbn [db]. rewrite Hu'. reflexivity. }
  cbn [db]. split; [reflexivity|].
  intros Hn. by rewrite (insert_id it), (insert_id (db w)).
Qed.

Lemma increment_then_decrement_restores_witness :
  stored (db plain_world) (post_pk "pid") (record_at (db plain_world) (post_pk "pid"))
  /\ (record_at (db plain_world) (post_pk "pid") !! counter_attr CommentCount
      = Some (Num (count 0))
      \/ (record_at (db plain_world) (post_pk "pid") !! counter_attr CommentCount = None
          /\ 0 = 0))
  /\ exists w1 w2,
       write_one (transact_increment CommentCount "pid") plain_world = (Ok tt, w1)
       /\ counter_value (db w1) "pid" CommentCount = Some (Num (count 1))
       /\ write_one (transact_decrement CommentCount "pid") w1 = (Ok tt, w2)
       /\ db w2
          = <[post_pk "pid" := <[counter_attr CommentCount := Num (count 0)]>
                                 (record_at (db plain_world) (post_pk "pid"))]>
              (db plain_world)
       /\ (record_at (db plain_world) (post_pk "pid") !! counter_attr CommentCount
           = Some (Num (count 0)) -> db w2 = db plain_world).
Proof.
  assert (H : record_at (db plain_world) (post_pk "pid") !! counter_attr CommentCount
              = Some (Num (count 0))
              \/ (record_at (db plain_world) (post_pk "pid") !! counter_attr CommentCount = None
                  /\ 0 = 0)) by (right; split; reflexivity).
  split; [exact plain_world_stored|]. split; [exact H|].
  exact (increment_then_decrement_restores plain_world CommentCount "pid" _ 0
           plain_world_stored H).
Defined.

(** X13.  The like counters take the two like statuses only: for any other
    status both builders raise [PostException] naming the status, so a
    caller that submits the built operation reaches no store call. *)
Theorem unrecognized_like_status_rejected (w : world) (post_id like_status : string) :
  like_status <> LikeStatus.ONYMOUSLY_LIKED ->
  like_status <> LikeStatus.ANONYMOUSLY_LIKED ->
  transact_increment_like_count post_id like_status
  = Raise (PostException ("Unrecognized like status `" +:+ like_status +:+ "`"))
  /\ transact_decrement_like_count post_id like_status
     = Raise (PostException ("Unrecognized like status `" +:+ like_status +:+ "`"))
  /\ write_one (transact_increment_like_count post_id like_status) w
     = (Raise (PostException ("Unrecognized like status `" +:+ like_status +:+ "`")), w)
  /\ write_one (transact_decrement_like_count post_id like_status) w
     = (Raise (PostException ("Unrecognized like status `" +:+ like_status +:+ "`")), w).
Proof.
  intros H1%String.eqb_neq H2%String.eqb_neq.
  unfold write_one, transact_increment_like_count, transact_decrement_like_count,
    like_count_attribute, bind, lift.
  rewrite H1, H2. cbn [rbind]. by repeat split.
Qed.

Lemma unrecognized_like_status_rejected_witness :
  "NOT_LIKED" <> LikeStatus.ONYMOUSLY_LIKED
  /\ "NOT_LIKED" <> LikeStatus.ANONYMOUSLY_LIKED
  /\ transact_increment_like_count "pid" "NOT_LIKED"
     = Raise (PostException ("Unrecognized like status `" +:+ "NOT_LIKED" +:+ "`"))
  /\ transact_decrement_like_count "pid" "NOT_LIKED"
     = Raise (PostException ("Unrecognized like status `" +:+ "NOT_LIKED" +:+ "`"))
  /\ write_one (transact_increment_like_count "pid" "NOT_LIKED") plain_world
     = (Raise (PostException ("Unrecognized like status `" +:+ "NOT_LIKED" +:+ "`")),
        plain_world)
  /\ write_one (transact_decrement_like_count "pid" "NOT_LIKED") plain_world
     = (Raise (PostException ("Unrecognized like status `" +:+ "NOT_LIKED" +:+ "`")),
        plain_world).
Proof.
  assert (H1 : "NOT_LIKED" <> LikeStatus.ONYMOUSLY_LIKED) by discriminate.
  assert (H2 : "NOT_LIKED" <> LikeStatus.ANONYMOUSLY_LIKED) by discriminate.
  split; [exact H1|]. split; [exact H2|].
  exact (unrecognized_like_status_rejected plain_world "pid" "NOT_LIKED" H1 H2).
Defined.

(** ** Checksums *)

Lemma update_item_absent (u : update_kwargs) (w : world) :
  db w !! Key u = None ->
  ConditionExpression u = None ->
  ExpressionAttributeNames u !! "partitionKey" = None ->
  exists r,
    update_item u w
    = (Raise ConditionalCheckFailedException, mkWorld (db w) (r :: requests w) (warnings w)).
Proof.
  intros Hk Hc Hn. rewrite update_item_run. cbv zeta. rewrite Hc. cbn [default].
  rewrite (update_table_absent _ _ (attribute_exists "partitionKey")); [|done|by left|done].
  eexists. reflexivity.
Qed.

(** X14.  [set_checksum] never removes a checksum and never creates a
    record: without a checksum, or with an empty one, it fails its assertion
    before any store call; for a post that is not stored it raises
    [ConditionalCheckFailedException] and the table is left as it was. *)
Theorem set_checksum_edge_cases (w : world) (post_id posted_at_str : string) :
  set_checksum post_id posted_at_str None w = (Raise (AssertionError ""), w)
  /\ set_checksum post_id posted_at_str (Some "") w = (Raise (AssertionError ""), w)
  /\ forall checksum,
       checksum <> "" -> db w !! post_pk post_id = None ->
       exists w',
         set_checksum post_id posted_at_str (Some checksum) w
         = (Raise ConditionalCheckFailedException, w')
         /\ db w' = db w.
Proof.
  split; [reflexivity|]. split; [reflexivity|].
  intros checksum Hc%String.eqb_neq Hnone. unfold set_checksum, bind, lift.
  cbn [opt_truthy]. unfold str_truthy. rewrite Hc. cbn [negb assert default].
  match goal with |- context [update_item ?u w] =>
    destruct (update_item_absent u w) as [r ->]; [exact Hnone|reflexivity|reflexivity|]
  end.
  eexists. split; reflexivity.
Qed.

Lemma no_checksum_sound (t : table) (c : string) :
  no_checksum t c = true ->
  forall k it, t !! k = Some it ->
    it !! "gsiK2PartitionKey" <> Some (Str ("postChecksum/" +:+ c)).
Proof.
  intros H k it Hit Hp. unfold no_checksum in H. rewrite forallb_forall in H.
  apply elem_of_map_to_list, list_elem_of_In in Hit. specialize (H _ Hit).
  cbn [fst snd] in H. by rewrite Hp, String.eqb_refl in H.
Qed.

(** X15.  When no record carries the checksum, [get_first_with_checksum]
    returns no post id and no posting time. *)
Theorem first_with_checksum_none (w : world) (checksum : string) :
  (forall k it, db w !! k = Some it ->
     it !! "gsiK2PartitionKey" <> Some (Str ("postChecksum/" +:+ checksum))) ->
  (get_first_with_checksum checksum w).1 = Ok (None, None).
Proof.
  intros Hnone. unfold get_first_with_checksum, query_head. unfold bind at 1 2.
  rewrite generate_all_query_run.
  match goal with |- context [query_items ?q _] => set (qk := q) end.
  destruct (query_items_sorted qk (db w) gsi_k2) as (sorted & Hq & Hperm & _);
    [reflexivity..|].
  rewrite Hq.
  assert (Hperm' : Permutation sorted (List.filter (has_checksum checksum)
                                         (map_to_list (db w)).*2)) by exact Hperm.
  rewrite filter_none in Hperm'.
  - apply Permutation_nil_r in Hperm'. subst sorted. reflexivity.
  - intros it Hit. apply list_elem_of_In, list_elem_of_fmap in Hit as ([k it'] & -> & Hin).
    apply elem_of_map_to_list in Hin. apply other_no_hit. by apply (Hnone k).
Qed.

Lemma first_with_checksum_none_witness :
  (get_first_with_checksum "shaken" two_posts_world).1 = Ok (None, None).
Proof.
  apply (first_with_checksum_none two_posts_world "shaken").
  apply no_checksum_sound. vm_compute. reflexivity.
Defined.

(** ** [generate_post_ids_in_album] *)

Lemma in_albumb_spec (album_id : string) (completed : option bool) (after_rank : option Qc)
    (it : item) :
  in_albumb album_id completed after_rank it = true
  <-> in_album album_id completed after_rank it.
Proof.
  unfold in_albumb, in_album. split.
  - destruct (it !! "gsiK3PartitionKey") as [[p| | | |]|]; try done.
    destruct (it !! "gsiK3SortKey") as [[|r| | |]|]; try done.
    intros [[Hp Hc]%andb_true_iff Ha]%andb_true_iff. apply String.eqb_eq in Hp as ->.
    exists r. split; [done|]. split; [done|]. split; [|split].
    + intros ->. by apply value_ltb_num.
    + intros ->. apply value_eqb_eq in Hc. by injection Hc.
    + intros a ->. by apply value_ltb_num.
  - intros (r & -> & -> & Ht & Hf & Ha). rewrite String.eqb_refl. cbn [andb].
    apply andb_true_iff. split.
    + destruct completed as [[]|]; [by apply value_ltb_num, Ht| |done].
      rewrite (Hf eq_refl). unfold value_eqb. cbn [value_compare].
      by rewrite (proj1 (Qceq_alt _ _) eq_refl).
    + destruct after_rank as [a|]; [|done]. by apply value_ltb_num, Ha.
Qed.

Lemma album_query_hits (album_id : string) (completed : option bool) (after_rank : option Qc)
    (it : item) :
  completed = None \/ after_rank = None ->
  in_index gsi_k3 it
  && eval_condition ∅ ∅ it
       (match completed, after_rank with
        | Some true, _ =>
            CAnd (CEq "gsiK3PartitionKey" (Lit (Str ("post/" +:+ album_id))))
              (CGt "gsiK3SortKey" (Lit (Num unranked)))
        | Some false, _ =>
            CAnd (CEq "gsiK3PartitionKey" (Lit (Str ("post/" +:+ album_id))))
              (CEq "gsiK3SortKey" (Lit (Num unranked)))
        | None, Some a =>
            CAnd (CEq "gsiK3PartitionKey" (Lit (Str ("post/" +:+ album_id))))
              (CGt "gsiK3SortKey" (Lit (Num a)))
        | None, None => CEq "gsiK3PartitionKey" (Lit (Str ("post/" +:+ album_id)))
        end)
  = in_albumb album_id completed after_rank it.
Proof.
  intros Hone. unfold in_index, in_albumb. cbn [pk_attr sk_attr sk_numeric gsi_k3].
  destruct (it !! "gsiK3PartitionKey") as [[p| | | |]|] eqn:Hp;
    destruct (it !! "gsiK3SortKey") as [[|r| | |]|] eqn:Hr; try done;
    destruct Hone as [-> | ->]; try destruct completed as [[]|]; try destruct after_rank;
    cbn [eval_condition]; unfold resolve_name, compare_with; rewrite ?lookup_empty;
    cbn [default resolve]; rewrite ?Hp, ?Hr; rewrite ?value_eqb_str;
    cbn [andb]; rewrite ?andb_true_r; reflexivity.
Qed.

Lemma project_lookup (attrs : list string) (it : item) (a : string) :
  a ∈ attrs -> project (Some attrs) it !! a = it !! a.
Proof.
  intros Ha. cbn [project]. rewrite map_lookup_filter.
  destruct (it !! a) as [v|]; [|done]. cbn. by rewrite option_guard_True.
Qed.

Lemma post_ids_of_keys (l : list item) :
  Forall (fun it => exists id, no_slash id
                               /\ it !! "partitionKey" = Some (Str ("post/" +:+ id))) l ->
  exists ids,
    rmap (fun it : item =>
            let! pk := getitem_str it "partitionKey" in
            subscript (split "/" pk) 1) (project (Some ["partitionKey"]) <$> l) = Ok ids
    /\ Forall2 (fun it id => it !! "partitionKey" = Some (Str ("post/" +:+ id))) l ids.
Proof.
  induction 1 as [|it l (id & Hid & Hpk) _ (ids & Hids & Hall)].
  - exists []. split; [reflexivity|constructor].
  - exists (id :: ids). split; [|by constructor].
    cbn [fmap list_fmap rmap]. fold (fmap (M := list) (project (Some ["partitionKey"])) l).
    unfold getitem_str at 1. rewrite project_lookup by set_solver. rewrite Hpk.
    cbn [rbind]. rewrite (split_post_pk _ Hid). cbn [rbind]. rewrite Hids. reflexivity.
Qed.

(** X16.  With at most one of [completed] and [after_rank], the album query
    yields the ids of exactly the posts filed under the album whose rank is
    above -1 ([completed] true), equal to -1 ([completed] false) or above the
    cursor, each once, in ascending order of rank.  The ids are read off the
    partition keys [post/<id>] of the records. *)
Theorem post_ids_in_album (w : world) (album_id : string) (completed : option bool)
    (after_rank : option Qc) :
  completed = None \/ after_rank = None ->
  (forall k it, db w !! k = Some it -> in_index gsi_k3 it = true ->
     exists id, no_slash id /\ it !! "partitionKey" = Some (Str ("post/" +:+ id))) ->
  exists entries ids,
    (generate_post_ids_in_album album_id completed after_rank w).1 = Ok ids
    /\ Forall2 (fun it id => it !! "partitionKey" = Some (Str ("post/" +:+ id))) entries ids
    /\ Permutation entries
         (List.filter (in_albumb album_id completed after_rank) (map_to_list (db w)).*2)
    /\ StronglySorted by_rank entries
    /\ (forall it, in_albumb album_id completed after_rank it = true
                   <-> in_album album_id completed after_rank it).
Proof.
  intros Hone Hkeys. unfold generate_post_ids_in_album.
  assert (negb (bool_decide (is_Some completed)) || negb (bool_decide (is_Some after_rank))
          = true) as ->.
  { destruct Hone as [-> | ->]; [done|]. by rewrite orb_true_r. }
  cbn [assert]. unfold bind at 1, lift at 1. unfold bind at 1.
  rewrite generate_all_query_run.
  match goal with |- context [query_items ?q _] => set (qk := q) end.
  destruct (query_items_sorted qk (db w) gsi_k3) as (sorted & Hq & Hperm & Hsort & Hall);
    [reflexivity..|].
  rewrite Hq. cbn [ProjectionExpression qk].
  assert (Hperm' : Permutation sorted
            (List.filter (in_albumb album_id completed after_rank) (map_to_list (db w)).*2)).
  { rewrite Hperm. erewrite List.filter_ext; [reflexivity|].
    intros it. rewrite <- (album_query_hits album_id completed after_rank it Hone).
    subst qk. cbn [KeyConditionExpression].
    destruct Hone as [-> | ->]; [by destruct after_rank|by destruct completed as [[]|]]. }
  destruct (post_ids_of_keys sorted) as (ids & Hids & Hf2).
  { rewrite Forall_forall. intros it Hit. rewrite Hperm' in Hit.
    apply list_elem_of_In, filter_In in Hit as [Hit Hin].
    apply list_elem_of_In, list_elem_of_fmap in Hit as ([k it'] & -> & Hk).
    apply elem_of_map_to_list in Hk. apply (Hkeys k); [done|].
    rewrite <- (album_query_hits album_id completed after_rank _ Hone) in Hin.
    by apply andb_true_iff in Hin as [? _]. }
  exists sorted, ids. cbn [lift fst]. split; [exact Hids|]. split; [exact Hf2|].
  split; [exact Hperm'|]. split; [|apply in_albumb_spec].
  eapply StronglySorted_weaken; [|exact Hall|exact Hsort].
  unfold indexed, in_index, sk_leb, by_rank. cbn [pk_attr sk_attr sk_numeric gsi_k3].
  intros a b Ha Hb Hle.
  destruct (a !! "gsiK3PartitionKey") as [[]|]; try done.
  destruct (b !! "gsiK3PartitionKey") as [[]|]; try done.
  destruct (a !! "gsiK3SortKey") as [[|x| | |]|]; try done.
  destruct (b !! "gsiK3SortKey") as [[|y| | |]|]; try done.
  exists x, y. split; [done|]. split; [done|]. by apply value_leb_num.
Qed.

Lemma album_keys_okb_sound (t : table) (ids : list string) :
  album_keys_okb t ids = true ->
  forall k it, t !! k = Some it -> in_index gsi_k3 it = true ->
    exists id, no_slash id /\ it !! "partitionKey" = Some (Str ("post/" +:+ id)).
Proof.
  intros H k it Hit Hidx. unfold album_keys_okb in H. rewrite forallb_forall in H.
  apply elem_of_map_to_list, list_elem_of_In in Hit. specialize (H _ Hit).
  cbn [fst snd] in H. rewrite Hidx in H. cbn [negb orb] in H.
  apply existsb_exists in H as (id & _ & [Hs Hp]%andb_true_iff).
  exists id. split; [by apply negb_true_iff in Hs|].
  destruct (it !! "partitionKey") as [[p| | | |]|]; try done.
  by apply String.eqb_eq in Hp as ->.
Qed.

Lemma post_ids_in_album_witness :
  (generate_post_ids_in_album "aid" (Some true) None album_world_completed).1 = Ok ["pid"]
  /\ exists entries ids,
       (generate_post_ids_in_album "aid" (Some true) None album_world_completed).1 = Ok ids
       /\ Forall2 (fun it id => it !! "partitionKey" = Some (Str ("post/" +:+ id))) entries ids
       /\ Permutation entries
            (List.filter (in_albumb "aid" (Some true) None)
               (map_to_list (db album_world_completed)).*2)
       /\ StronglySorted by_rank entries
       /\ (forall it, in_albumb "aid" (Some true) None it = true
                      <-> in_album "aid" (Some true) None it).
Proof.
  split; [vm_compute; reflexivity|].
  apply (post_ids_in_album album_world_completed "aid" (Some true) None).
  - by right.
  - apply (album_keys_okb_sound _ ["pid"]). vm_compute. reflexivity.
Defined.

(** ** [generate_posts_by_user] *)

Lemma filter_filter_and {A} (f g : A -> bool) (l : list A) :
  List.filter f (List.filter g l) = List.filter (fun x => g x && f x) l.
Proof.
  induction l as [|x l IH]; [done|]. cbn [List.filter].
  destruct (g x); cbn [List.filter andb]; [by rewrite IH|exact IH].
Qed.

Lemma status_keptb_spec (completed : option bool) (it : item) :
  status_keptb completed it = true
  <-> match completed with
      | Some true => it !! "postStatus" = Some (Str PostStatus.COMPLETED)
      | Some false => it !! "postStatus" <> Some (Str PostStatus.COMPLETED)
      | None => True
      end.
Proof.
  unfold status_keptb. destruct completed as [[]|]; [| |done].
  - destruct (it !! "postStatus") as [v|]; [|done]. split.
    + by intros ->%value_eqb_eq.
    + intros [= ->]. apply value_eqb_refl_str.
  - destruct (it !! "postStatus") as [v|]; [|done].
    destruct (value_eqb v (Str PostStatus.COMPLETED)) eqn:E; cbn [negb].
    + apply value_eqb_eq in E as ->. split; [done|]. by intros [].
    + split; [|done]. intros _ [= ->]. by rewrite value_eqb_refl_str in E.
Qed.

(** X17.  [generate_posts_by_user] yields the records filed under the user in
    the status index, each once, in ascending order of the sort key
    [<status>/<postedAt>]: all of them without [completed], those whose
    status is [COMPLETED] when [completed] is true, and those whose status
    is not [COMPLETED] when it is false.  The table is not written. *)
Theorem posts_by_user (w : world) (user_id : string) (completed : option bool) :
  exists posts,
    (generate_posts_by_user user_id completed w).1 = Ok posts
    /\ db (generate_posts_by_user user_id completed w).2 = db w
    /\ Permutation posts
         (List.filter (fun it => posted_byb user_id it && status_keptb completed it)
            (map_to_list (db w)).*2)
    /\ StronglySorted by_status_key posts
    /\ (forall it, status_keptb completed it = true
                   <-> match completed with
                       | Some true => it !! "postStatus" = Some (Str PostStatus.COMPLETED)
                       | Some false => it !! "postStatus" <> Some (Str PostStatus.COMPLETED)
                       | None => True
                       end)
    /\ (forall it, posted_byb user_id it = true
                   <-> it !! "gsiA2PartitionKey" = Some (Str ("post/" +:+ user_id))
                       /\ exists s, it !! "gsiA2SortKey" = Some (Str s)).
Proof.
  unfold generate_posts_by_user. rewrite generate_all_query_run. cbn [fst snd db].
  match goal with |- context [query_items ?q _] => set (qk := q) end.
  assert (Hhits : forall it,
            in_index gsi_a2 it && eval_condition ∅ ∅ it (KeyConditionExpression qk)
            = posted_byb user_id it).
  { intros it. subst qk. cbn [KeyConditionExpression eval_condition].
    unfold in_index, posted_byb, resolve_name, compare_with.
    cbn [pk_attr sk_attr sk_numeric gsi_a2]. rewrite lookup_empty. cbn [default resolve].
    destruct (it !! "gsiA2PartitionKey") as [[p| | | |]|]; try done.
    destruct (it !! "gsiA2SortKey") as [[s| | | |]|]; try done.
    by rewrite value_eqb_str. }
  assert (Hsorted : forall sorted,
            Forall (indexed gsi_a2) sorted ->
            StronglySorted (fun a b => sk_leb gsi_a2 a b = true) sorted ->
            StronglySorted by_status_key sorted).
  { intros sorted Hall Hsort. eapply StronglySorted_weaken; [|exact Hall|exact Hsort].
    unfold indexed, in_index, sk_leb, by_status_key. cbn [pk_attr sk_attr sk_numeric gsi_a2].
    intros a b Ha Hb Hle.
    destruct (a !! "gsiA2PartitionKey") as [[]|]; try done.
    destruct (b !! "gsiA2PartitionKey") as [[]|]; try done.
    destruct (a !! "gsiA2SortKey") as [[x| | | |]|]; try done.
    destruct (b !! "gsiA2SortKey") as [[y| | | |]|]; try done.
    exists x, y. split; [done|]. split; [done|]. exact Hle. }
  assert (Hspec : forall it, posted_byb user_id it = true
                   <-> it !! "gsiA2PartitionKey" = Some (Str ("post/" +:+ user_id))
                       /\ exists s, it !! "gsiA2SortKey" = Some (Str s)).
  { intros it. unfold posted_byb. split.
    - destruct (it !! "gsiA2PartitionKey") as [[p| | | |]|]; try done.
      destruct (it !! "gsiA2SortKey") as [[s| | | |]|]; try done.
      intros ->%String.eqb_eq. eauto.
    - intros [-> [s ->]]. apply String.eqb_refl. }
  pose proof (status_keptb_spec completed) as Hkept.
  destruct completed as [c|].
  - destruct (query_items_filtered qk (db w) gsi_a2
                (if c then CEq "postStatus" (Lit (Str PostStatus.COMPLETED))
                 else CNe "postStatus" (Lit (Str PostStatus.COMPLETED))))
      as (sorted & Hq & Hperm & Hsort & Hall); [reflexivity..|].
    rewrite Hq. cbn [ProjectionExpression qk].
    change (project None) with (fun it : item => it). rewrite list_fmap_id.
    eexists. split; [reflexivity|]. split; [reflexivity|]. split; [|split; [|split]].
    + erewrite (List.filter_ext _ (status_keptb (Some c))).
      * etransitivity; [apply filter_perm, Hperm|]. rewrite filter_filter_and.
        erewrite List.filter_ext; [reflexivity|]. intros it. cbn beta. by rewrite Hhits.
      * intros it. unfold status_keptb. destruct c; cbn [eval_condition];
          unfold resolve_name, compare_with; rewrite lookup_empty; cbn [default resolve];
          by destruct (it !! "postStatus").
    + apply StronglySorted_filter, Hsorted; [exact Hall|exact Hsort].
    + exact Hkept.
    + exact Hspec.
  - destruct (query_items_sorted qk (db w) gsi_a2) as (sorted & Hq & Hperm & Hsort & Hall);
      [reflexivity..|].
    rewrite Hq. cbn [ProjectionExpression qk].
    change (project None) with (fun it : item => it). rewrite list_fmap_id.
    exists sorted. split; [reflexivity|]. split; [reflexivity|]. split; [|split; [|split]].
    + rewrite Hperm. erewrite List.filter_ext; [reflexivity|]. intros it. cbn beta.
      rewrite Hhits. cbn [status_keptb]. by rewrite andb_true_r.
    + by apply Hsorted.
    + exact Hkept.
    + exact Hspec.
Qed.

(** ** Updates of a post that is not stored *)

(** X18.  [set] never creates a record: for a post that is not stored it
    raises, either its own assertion when no field is supplied or
    [ConditionalCheckFailedException] from the store, and the table is left
    as it was. *)
Theorem set_never_creates (w : world) (post_id : string) (text : option string)
    (text_tags : option (list (string * string)))
    (comments_disabled likes_disabled sharing_disabled verification_hidden : option bool) :
  db w !! post_pk post_id = None ->
  exists w',
    set_ post_id text text_tags comments_disabled likes_disabled sharing_disabled
      verification_hidden w
    = (Raise (if bool_decide (is_Some text) || bool_decide (is_Some comments_disabled)
                 || bool_decide (is_Some likes_disabled)
                 || bool_decide (is_Some sharing_disabled)
                 || bool_decide (is_Some verification_hidden)
              then ConditionalCheckFailedException
              else AssertionError "Action-less post edit requested"), w')
    /\ db w' = db w.
Proof.
  intros Hnone. unfold set_. unfold bind at 1, lift at 1.
  destruct (bool_decide (is_Some text) || bool_decide (is_Some comments_disabled)
            || bool_decide (is_Some likes_disabled) || bool_decide (is_Some sharing_disabled)
            || bool_decide (is_Some verification_hidden));
    cbn [assert]; [|eexists; split; reflexivity].
  assert (Hrun : forall rm st (names : gmap string string) vals,
            names !! "partitionKey" = None ->
            exists w',
              (let '(exp_set, exp_values) :=
                 (fun acc : list action * gmap string attr_value =>
                    match verification_hidden with
                    | Some b => ((acc.1 ++ [SET "verificationHidden" ":vd"])%list,
                                 <[":vd" := Boolean b]> acc.2)
                    | None => acc
                    end)
                 ((fun acc : list action * gmap string attr_value =>
                    match sharing_disabled with
                    | Some b => ((acc.1 ++ [SET "sharingDisabled" ":sd"])%list,
                                 <[":sd" := Boolean b]> acc.2)
                    | None => acc
                    end)
                 ((fun acc : list action * gmap string attr_value =>
                    match likes_disabled with
                    | Some b => ((acc.1 ++ [SET "likesDisabled" ":ld"])%list,
                                 <[":ld" := Boolean b]> acc.2)
                    | None => acc
                    end)
                 ((fun acc : list action * gmap string attr_value =>
                    match comments_disabled with
                    | Some b => ((acc.1 ++ [SET "commentsDisabled" ":cd"])%list,
                                 <[":cd" := Boolean b]> acc.2)
                    | None => acc
                    end) (st, vals)))) in
               update_item (mkUpdate (post_pk post_id) (rm ++ exp_set)%list names exp_values
                              None)) w
              = (Raise ConditionalCheckFailedException, w') /\ db w' = db w).
  { intros rm st names vals Hn.
    match goal with |- context [let '(a, b) := ?e in _] => destruct e as [es ev] end.
    destruct (update_item_absent (mkUpdate (post_pk post_id) (rm ++ es)%list names ev None) w)
      as [r ->]; [exact Hnone|reflexivity|exact Hn|].
    eexists. split; reflexivity. }
  destruct text as [s|]; [destruct (String.eqb s "")|]; apply Hrun; by lookups.
Qed.

Lemma set_never_creates_witness :
  db empty_world !! post_pk "pid" = None
  /\ exists w',
       set_ "pid" (Some "lore") None None (Some true) None None empty_world
       = (Raise (if bool_decide (is_Some (Some "lore"))
                    || bool_decide (is_Some (@None bool))
                    || bool_decide (is_Some (Some true))
                    || bool_decide (is_Some (@None bool))
                    || bool_decide (is_Some (@None bool))
                 then ConditionalCheckFailedException
                 else AssertionError "Action-less post edit requested"), w')
       /\ db w' = db empty_world.
Proof.
  split; [reflexivity|].
  exact (set_never_creates empty_world "pid" (Some "lore") None None (Some true) None None
           eq_refl).
Defined.

Lemma post_update_shape (post_id : string) (tx : transact_item) :
  post_update post_id tx ->
  exists u c,
    tx = Update u
    /\ Key u = post_pk post_id
    /\ (ConditionExpression u = Some (attribute_exists "partitionKey")
        \/ ConditionExpression u = Some (CAnd (attribute_exists "partitionKey") c))
    /\ ExpressionAttributeNames u !! "partitionKey" = None.
Proof.
  destruct 1 as [post_item status opi album_rank tx Hid H
                |post_item album_id album_rank tx Hid H
                |album_rank|new_value|c tx H|c tx H].
  - unfold transact_set_post_status in H.
    destruct (Bool.eqb _ _); [|discriminate H]. cbn [assert rbind] in H.
    destruct (getitem_str post_item "postedAt") as [pa|]; [|discriminate H].
    cbn [rbind] in H.
    destruct (getitem_str post_item "postType") as [pt|]; [|discriminate H].
    cbn [rbind] in H.
    destruct (opt_truthy opi), (truthy (post_item !! "albumId")),
      (bool_decide (is_Some (post_item !! "expiresAt")));
      try (destruct (getitem_str post_item "expiresAt") as [ea|]; [|discriminate H]);
      cbn [rbind] in H; rewrite (getitem_str_Some _ _ _ Hid) in H; cbn [rbind] in H;
      injection H as <-; eexists _, (attribute_exists ""); (split; [reflexivity|]);
      cbn [Key ConditionExpression ExpressionAttributeNames]; by auto.
  - unfold transact_set_album_id in H. rewrite (getitem_str_Some _ _ _ Hid) in H.
    cbn [rbind] in H.
    destruct (getitem_str post_item "postStatus") as [ps|]; [|discriminate H].
    cbn [rbind] in H. destruct (Bool.eqb _ _); [|discriminate H]. cbn [assert rbind] in H.
    destruct (opt_truthy album_id); injection H as <-;
      eexists _, (CEq "postStatus" (Ref ":ps"));
      (split; [reflexivity|]); cbn [Key ConditionExpression ExpressionAttributeNames];
      by auto.
  - eexists _, (attribute_exists ""). split; [reflexivity|].
    cbn [Key ConditionExpression ExpressionAttributeNames]. by auto.
  - unfold transact_set_has_new_comment_activity.
    destruct new_value; eexists _, _; (split; [reflexivity|]);
      cbn [Key ConditionExpression ExpressionAttributeNames]; by auto.
  - destruct (transact_increment_shape c post_id) as (u & Hu & Hk & Hc & Hn).
    rewrite Hu in H. injection H as <-. exists u, (attribute_exists ""). by auto.
  - destruct c; cbn in H; injection H as <-; eexists _, _; (split; [reflexivity|]);
      cbn [Key ConditionExpression ExpressionAttributeNames]; by auto.
Qed.

(** X19.  No update of a post creates its record: for a post that is not
    stored, the status update, the album update, the rank update, the
    comment-activity update and every counter increment or decrement are
    cancelled by the store, and the table is left as it was. *)
Theorem updates_never_create (w : world) (post_id : string) (tx : transact_item) :
  post_update post_id tx ->
  db w !! post_pk post_id = None ->
  exists w',
    transact_write_items [tx] w = (Raise TransactionCanceledException, w')
    /\ db w' = db w.
Proof.
  intros (u & c & -> & Hk & Hc & Hn)%post_update_shape Hnone.
  rewrite transact_write_update_run.
  rewrite (update_table_absent u (db w) c); [|by rewrite Hk|exact Hc|exact Hn].
  eexists. split; reflexivity.
Qed.

Lemma updates_never_create_witness :
  post_update "gone" (transact_set_album_rank "gone" (Q2Qc (1 # 2)))
  /\ db plain_world !! post_pk "gone" = None
  /\ exists w',
       transact_write_items [transact_set_album_rank "gone" (Q2Qc (1 # 2))] plain_world
       = (Raise TransactionCanceledException, w')
       /\ db w' = db plain_world.
Proof.
  assert (H : db plain_world !! post_pk "gone" = None) by (vm_compute; reflexivity).
  split; [constructor|]. split; [exact H|].
  exact (updates_never_create plain_world "gone" _
           (update_album_rank "gone" (Q2Qc (1 # 2))) H).
Defined.

(** ** Pending posts and stories *)

Lemma stories_insert_other (t : table) (k : key) (it : item) (u : string) :
  t !! k = None -> is_story u it = false ->
  Permutation (stories (<[k := it]> t) u) (stories t u).
Proof.
  intros Hnone Hit. unfold stories.
  etransitivity; [apply filter_perm, values_insert_perm|].
  cbn [List.filter]. rewrite Hit. by rewrite (delete_id _ _ Hnone).
Qed.

Lemma pending_is_no_story (it : item) (u e : string) :
  it !! "gsiA1SortKey" = None
  \/ it !! "gsiA1SortKey" = Some (Str (PostStatus.PENDING +:+ "/" +:+ e)) ->
  is_story u it = false.
Proof.
  unfold is_story, in_index. cbn [pk_attr sk_attr sk_numeric gsi_a1 eval_condition].
  unfold resolve_name. rewrite !lookup_empty. cbn [default].
  intros [-> | ->].
  - destruct (it !! "gsiA1PartitionKey") as [[]|]; reflexivity.
  - unfold PostStatus.PENDING, PostStatus.COMPLETED. rewrite !append_cons.
    cbn [String.prefix]. destruct (ascii_dec "C" "P") as [E|_]; [discriminate E|].
    by rewrite !andb_false_r.
Qed.

(** X20.  A post that has just been added is pending, so it is not a story:
    whatever expiry it is given, the stories of every user are the same
    records after the add as before, and it is not the next completed post
    to expire of anyone. *)
Theorem add_pending_post_is_no_story (w : world) (now : DateTime)
    (posted_by_user_id post_id post_type : string) (posted_at expires_at : option DateTime)
    (album_id text : option string) (text_tags : option (list (string * string)))
    (comments_disabled likes_disabled sharing_disabled verification_hidden : option bool) :
  db w !! post_pk post_id = None ->
  exists w' it,
    transact_write_items
      [transact_add_pending_post now posted_by_user_id post_id post_type posted_at expires_at
         album_id text text_tags comments_disabled likes_disabled sharing_disabled
         verification_hidden] w = (Ok tt, w')
    /\ db w' !! post_pk post_id = Some it
    /\ it !! "expiresAt" = (fun e => Str (to_iso8601_string e)) <$> expires_at
    /\ forall user_id,
         is_story user_id it = false
         /\ Permutation (stories (db w') user_id) (stories (db w) user_id).
Proof.
  intros Hnone.
  rewrite (add_pending_post_put now posted_by_user_id post_id post_type posted_at expires_at
             album_id text text_tags comments_disabled likes_disabled sharing_disabled
             verification_hidden).
  rewrite (transact_write_put_run _ _ (post_pk post_id)) by apply add_pending_post_key.
  unfold condition_holds. rewrite Hnone. cbn [default eval_condition].
  unfold resolve_name. rewrite !lookup_empty. cbn [default]. rewrite ?lookup_empty.
  rewrite bool_decide_eq_false_2 by (by intros [? ?]). cbn [negb].
  eexists _, _. split; [reflexivity|]. cbn [db].
  split; [apply lookup_insert_eq|]. split; [pending_post_lookup|].
  intros user_id.
  assert (Hno : is_story user_id
                  (put_item (transact_add_pending_post now posted_by_user_id post_id post_type
                     posted_at expires_at album_id text text_tags comments_disabled
                     likes_disabled sharing_disabled verification_hidden)) = false).
  { apply (pending_is_no_story _ _ (from_option to_iso8601_string "" expires_at)).
    destruct expires_at as [e|]; [right|left]; pending_post_lookup. }
  split; [exact Hno|]. by apply stories_insert_other.
Qed.

Lemma add_pending_post_is_no_story_witness :
  db empty_world !! post_pk "pid" = None
  /\ exists w' it,
       transact_write_items
         [transact_add_pending_post noon "uid" "pid" "TEXT_ONLY" None (Some afternoon)
            (Some "aid") (Some "lore") None None None None None] empty_world = (Ok tt, w')
       /\ db w' !! post_pk "pid" = Some it
       /\ it !! "expiresAt" = (fun e => Str (to_iso8601_string e)) <$> Some afternoon
       /\ forall user_id,
            is_story user_id it = false
            /\ Permutation (stories (db w') user_id) (stories (db empty_world) user_id).
Proof.
  split; [reflexivity|].
  exact (add_pending_post_is_no_story empty_world noon "uid" "pid" "TEXT_ONLY" None
           (Some afternoon) (Some "aid") (Some "lore") None None None None None eq_refl).
Defined.

(** ** [transact_set_album_rank] *)

(** X21.  On a stored post filed under an album, [transact_set_album_rank]
    writes the rank and nothing else; the post then satisfies the condition
    of the album listing with a cursor exactly when the new rank is above
    the cursor, and the condition of the listing of completed posts exactly
    when the new rank is above -1. *)
Theorem set_album_rank_then_listing (w : world) (post_id album_id : string) (it : item)
    (album_rank : Qc) (after_rank : option Qc) :
  stored (db w) (post_pk post_id) it ->
  it !! "gsiK3PartitionKey" = Some (Str ("post/" +:+ album_id)) ->
  exists w',
    transact_write_items [transact_set_album_rank post_id album_rank] w = (Ok tt, w')
    /\ db w' = <[post_pk post_id := <["gsiK3SortKey" := Num album_rank]> it]> (db w)
    /\ (in_albumb album_id None after_rank (<["gsiK3SortKey" := Num album_rank]> it) = true
        <-> forall a, after_rank = Some a -> (a < album_rank)%Qc)
    /\ (in_albumb album_id (Some true) None (<["gsiK3SortKey" := Num album_rank]> it) = true
        <-> (unranked < album_rank)%Qc).
Proof.
  intros (Hit & Hpk & _) Halbum. unfold transact_set_album_rank.
  rewrite transact_write_update_run.
  unfold update_table, condition_holds, item_at.
  cbn [Key ExpressionAttributeNames ExpressionAttributeValues ConditionExpression
       UpdateExpression].
  rewrite Hit. cbn [default id eval_condition]. unfold resolve_name.
  rewrite lookup_empty. cbn [default]. rewrite Hpk.
  rewrite bool_decide_eq_true_2 by eauto.
  cbn [apply_actions apply_action rbind]. unfold resolve_name.
  rewrite lookup_empty. cbn [default]. rewrite lookup_singleton_eq. cbn [rbind].
  eexists. split; [reflexivity|]. split; [reflexivity|].
  unfold in_albumb. rewrite lookup_insert_ne by done. rewrite Halbum, lookup_insert_eq.
  rewrite String.eqb_refl. cbn [andb]. split.
  - destruct after_rank as [a|]; [|done]. rewrite value_ltb_num. split.
    + by intros H ? [= <-].
    + intros H. by apply H.
  - rewrite andb_true_r. apply value_ltb_num.
Qed.

Lemma set_album_rank_then_listing_witness :
  stored (db album_world_completed) (post_pk "pid")
    (record_at (db album_world_completed) (post_pk "pid"))
  /\ record_at (db album_world_completed) (post_pk "pid") !! "gsiK3PartitionKey"
     = Some (Str ("post/" +:+ "aid"))
  /\ exists w',
       transact_write_items [transact_set_album_rank "pid" (Q2Qc (3 # 4))]
         album_world_completed = (Ok tt, w')
       /\ db w' = <[post_pk "pid" :=
                      <["gsiK3SortKey" := Num (Q2Qc (3 # 4))]>
                        (record_at (db album_world_completed) (post_pk "pid"))]>
                    (db album_world_completed)
       /\ (in_albumb "aid" None (Some (Q2Qc (1 # 2)))
             (<["gsiK3SortKey" := Num (Q2Qc (3 # 4))]>
                (record_at (db album_world_completed) (post_pk "pid"))) = true
           <-> forall a, Some (Q2Qc (1 # 2)) = Some a -> (a < Q2Qc (3 # 4))%Qc)
       /\ (in_albumb "aid" (Some true) None
             (<["gsiK3SortKey" := Num (Q2Qc (3 # 4))]>
                (record_at (db album_world_completed) (post_pk "pid"))) = true
           <-> (unranked < Q2Qc (3 # 4))%Qc).
Proof.
  assert (H1 : stored (db album_world_completed) (post_pk "pid")
                 (record_at (db album_world_completed) (post_pk "pid")))
    by (apply record_at_stored; vm_compute; reflexivity).
  assert (H2 : record_at (db album_world_completed) (post_pk "pid") !! "gsiK3PartitionKey"
               = Some (Str ("post/" +:+ "aid"))) by (vm_compute; reflexivity).
  split; [exact H1|]. split; [exact H2|].
  exact (set_album_rank_then_listing album_world_completed "pid" "aid" _ (Q2Qc (3 # 4))
           (Some (Q2Qc (1 # 2))) H1 H2).
Defined.

(** ** [batch_get_posted_by_user_ids] *)

Lemma batch_owners (t : table) (post_ids : list string) :
  (forall id it, In id post_ids -> t !! post_pk id = Some it ->
     exists u, it !! "postedByUserId" = Some (Str u)) ->
  rmap (fun r : item => DynamoReads.typed_str r "postedByUserId")
    (omap (fun k => project (Some ["postedByUserId"]) <$> t !! k) (post_pk <$> post_ids))
  = Ok (omap (owner_of t) post_ids).
Proof.
  induction post_ids as [|id ids IH]; intros Hown; [reflexivity|].
  cbn [fmap list_fmap omap list_omap]. unfold owner_of at 1.
  fold (fmap (M := list) post_pk ids).
  fold (omap (M := list) (fun k => project (Some ["postedByUserId"]) <$> t !! k)
          (post_pk <$> ids)).
  fold (omap (M := list) (owner_of t) ids).
  destruct (t !! post_pk id) as [it|] eqn:Hit; cbn [fmap option_fmap option_map mbind
    option_bind].
  - destruct (Hown id it) as [u Hu]; [by left|done|]. rewrite Hu.
    cbn [rmap]. unfold DynamoReads.typed_str at 1.
    rewrite project_lookup by set_solver. rewrite Hu. cbn [rbind].
    rewrite IH; [reflexivity|]. intros id' it' Hin. apply Hown. by right.
  - apply IH. intros id' it' Hin. apply Hown. by right.
Qed.

(** X22.  When the stored posts among [post_ids] name their owner,
    [batch_get_posted_by_user_ids] returns the owners of the posts that are
    stored, one for each, and skips the ids that are not: the result is a
    list of owners, not a mapping, it can be shorter than [post_ids], and it
    is empty when none of the posts is stored.  The table is not written. *)
Theorem batch_posted_by_user_ids (w : world) (post_ids : list string) :
  (forall id it, In id post_ids -> db w !! post_pk id = Some it ->
     exists u, it !! "postedByUserId" = Some (Str u)) ->
  exists owners,
    batch_get_posted_by_user_ids post_ids w = (Ok owners, w)
    /\ Permutation owners (omap (owner_of (db w)) post_ids)
    /\ length owners <= length post_ids
    /\ ((forall id, In id post_ids -> db w !! post_pk id = None) -> owners = []).
Proof.
  intros Hown. unfold batch_get_posted_by_user_ids, DynamoReads.batch_get_items.
  unfold bind, get_db, ret, lift. rewrite (batch_owners _ _ Hown).
  eexists. split; [reflexivity|]. split; [reflexivity|]. split.
  - clear Hown. induction post_ids as [|id ids IH]; [done|].
    cbn [omap list_omap length]. fold (omap (M := list) (owner_of (db w)) ids).
    destruct (owner_of (db w) id); cbn [length]; lia.
  - intros Hnone. clear Hown. induction post_ids as [|id ids IH]; [done|].
    cbn [omap list_omap]. fold (omap (M := list) (owner_of (db w)) ids).
    unfold owner_of at 1. rewrite (Hnone id) by (by left). cbn.
    apply IH. intros id' Hin. apply Hnone. by right.
Qed.

Lemma batch_posted_by_user_ids_witness :
  (batch_get_posted_by_user_ids ["gone"; "pid2"; "pid"] two_posts_world).1 = Ok ["uid"; "uid"]
  /\ exists owners,
       batch_get_posted_by_user_ids ["gone"; "pid2"; "pid"] two_posts_world
       = (Ok owners, two_posts_world)
       /\ Permutation owners (omap (owner_of (db two_posts_world)) ["gone"; "pid2"; "pid"])
       /\ length owners <= length ["gone"; "pid2"; "pid"]
       /\ ((forall id, In id ["gone"; "pid2"; "pid"] ->
              db two_posts_world !! post_pk id = None) -> owners = []).
Proof.
  split; [vm_compute; reflexivity|].
  apply (batch_posted_by_user_ids two_posts_world ["gone"; "pid2"; "pid"]).
  intros id it Hin Hit.
  assert (Hown : owner_of (db two_posts_world) id <> None).
  { destruct Hin as [<-|[<-|[<-|[]]]].
    - exfalso. revert Hit. vm_compute. discriminate.
    - vm_compute. discriminate.
    - vm_compute. discriminate. }
  unfold owner_of in Hown. rewrite Hit in Hown. cbn [mbind option_bind] in Hown.
  destruct (it !! "postedByUserId") as [[u| | | |]|];
    [exists u; reflexivity|exfalso; apply Hown; reflexivity..].
Defined.

(** ** [generate_expired_post_pks_with_scan] *)

Lemma expired_beforeb_spec (cut_off_date : Date) (it : item) :
  expired_beforeb cut_off_date it = true <-> expired_before cut_off_date it.
Proof.
  unfold expired_beforeb, expired_before. split.
  - destruct (it !! "partitionKey") as [[pk| | | |]|]; try done.
    destruct (it !! "expiresAt") as [[e| | | |]|]; try done.
    intros [[p ->]%prefix_app_inv Hlt]%andb_true_iff. by exists p, e.
  - intros (p & e & -> & -> & Hlt). by rewrite prefix_app, Hlt.
Qed.

(** An instant against a date, as the store compares their renderings. *)
Lemma iso8601_date_compare (dt : DateTime) (c : Date) :
  valid_date (date dt) -> valid_date c ->
  String.compare (to_iso8601_string dt) (date_str c)
  = lex (year (date dt) ?= year c)%nat
      (lex (month (date dt) ?= month c)%nat (lex (day (date dt) ?= day c)%nat Gt)).
Proof.
  intros (Hy & Hm & Hd) (Hy' & Hm' & Hd'). unfold to_iso8601_string, date_str.
  rewrite !append_assoc. rewrite <- (append_empty_r (pad 2 (day c))).
  rewrite compare_pad by done. f_equal.
  rewrite ?append_cons, ?append_nil. cbn [String.compare]. rewrite ascii_compare_refl.
  rewrite compare_pad by done. f_equal.
  rewrite ?append_cons, ?append_nil. cbn [String.compare]. rewrite ascii_compare_refl.
  rewrite compare_pad by done. f_equal.
Qed.

(** X23.  The scan for expired posts yields the keys of exactly the post
    records whose expiry is, as a string, before the rendered cut-off date,
    each once.  An expiry written by [to_iso8601_string] is before the
    rendered cut-off date exactly when its day is before the cut-off date,
    so posts that expire on the cut-off date are left out. *)
Theorem expired_post_pks_with_scan (w : world) (cut_off_date : Date) :
  exists entries,
    generate_expired_post_pks_with_scan cut_off_date w = (Ok (key_of <$> entries), w)
    /\ Permutation entries
         (List.filter (expired_beforeb cut_off_date) (map_to_list (db w)).*2)
    /\ (forall it, expired_beforeb cut_off_date it = true <-> expired_before cut_off_date it)
    /\ (forall dt, valid_date (date dt) -> valid_date cut_off_date ->
          (String.ltb (to_iso8601_string dt) (date_str cut_off_date) = true
           <-> date_lt (date dt) cut_off_date)).
Proof.
  eexists. split; [reflexivity|]. split; [|split; [apply expired_beforeb_spec|]].
  - cbn [DynamoReads.ScanFilterExpression]. erewrite List.filter_ext; [reflexivity|].
    intros it. unfold expired_beforeb. cbn [eval_condition].
    unfold resolve_name, compare_with. rewrite !lookup_empty. cbn [default resolve].
    destruct (it !! "partitionKey") as [[pk| | | |]|]; try done;
      destruct (it !! "expiresAt") as [[e| | | |]|]; try done;
      by rewrite ?andb_false_r.
  - intros dt Hv Hc. unfold String.ltb. rewrite iso8601_date_compare by done.
    unfold date_lt, lex.
    destruct (Nat.compare_spec (year (date dt)) (year cut_off_date)),
      (Nat.compare_spec (month (date dt)) (month cut_off_date)),
      (Nat.compare_spec (day (date dt)) (day cut_off_date));
      split; intros Hlt; try done; try lia.
Qed.

(** * Instants as the store orders them *)

Lemma fraction_z_compare (a b : nat) :
  a < 10 ^ 6 -> b < 10 ^ 6 -> (a = 0 <-> b = 0) ->
  String.compare (fraction a +:+ "Z") (fraction b +:+ "Z") = (a ?= b)%nat.
Proof.
  intros Ha Hb Hsame. unfold fraction.
  destruct (Nat.eqb_spec a 0) as [->|Ha0], (Nat.eqb_spec b 0) as [->|Hb0].
  - reflexivity.
  - exfalso. apply Hb0. by apply Hsame.
  - exfalso. apply Ha0. by apply Hsame.
  - rewrite !append_assoc, !append_cons, !append_nil. cbn [String.compare].
    rewrite ascii_compare_refl. rewrite compare_pad by done.
    cbn [String.compare]. rewrite ascii_compare_refl. by destruct (a ?= b)%nat.
Qed.

(** Renderings of two instants of the same precision compare as the
    instants do. *)
Lemma iso8601_compare (a b : DateTime) :
  valid_datetime a -> valid_datetime b -> same_precision a b ->
  String.compare (to_iso8601_string a) (to_iso8601_string b) = datetime_compare a b.
Proof.
  intros [(Hy & Hm & Hd) (Hh & Hmi & Hs & Hus)] [(Hy' & Hm' & Hd') (Hh' & Hmi' & Hs' & Hus')]
    Hsame.
  unfold to_iso8601_string, date_str, time_str, datetime_compare, time_compare.
  fold (fraction (microsecond (time a))) (fraction (microsecond (time b))).
  rewrite !append_assoc.
  rewrite compare_pad by done. f_equal.
  rewrite ?append_cons, ?append_nil. cbn [String.compare]. rewrite ascii_compare_refl.
  rewrite compare_pad by done. f_equal.
  rewrite ?append_cons, ?append_nil. cbn [String.compare]. rewrite ascii_compare_refl.
  rewrite compare_pad by done. f_equal.
  rewrite ?append_cons, ?append_nil. cbn [String.compare]. rewrite ascii_compare_refl.
  rewrite compare_pad by (simpl; lia). f_equal.
  rewrite ?append_cons, ?append_nil. cbn [String.compare]. rewrite ascii_compare_refl.
  rewrite compare_pad by (simpl; lia). f_equal.
  rewrite ?append_cons, ?append_nil. cbn [String.compare]. rewrite ascii_compare_refl.
  rewrite compare_pad by (simpl; lia). f_equal.
  by apply fraction_z_compare.
Qed.

Lemma time_compare_spec (a b : TimeOfDay) :
  match time_compare a b with
  | Lt => time_lt a b
  | Eq => a = b
  | Gt => time_lt b a
  end.
Proof.
  destruct a as [h m s us], b as [h' m' s' us']. unfold time_compare, time_lt, lex.
  cbn [hour minute second microsecond].
  destruct (Nat.compare_spec h h'); [|lia..].
  destruct (Nat.compare_spec m m'); [|lia..].
  destruct (Nat.compare_spec s s'); [|lia..].
  destruct (Nat.compare_spec us us'); [by subst|lia..].
Qed.

Lemma datetime_compare_spec (a b : DateTime) :
  match datetime_compare a b with
  | Lt => datetime_lt a b
  | Eq => a = b
  | Gt => datetime_lt b a
  end.
Proof.
  pose proof (time_compare_spec (time a) (time b)) as Ht.
  destruct a as [[y m d] ta], b as [[y' m' d'] tb].
  unfold datetime_compare, datetime_lt, date_lt, lex in *.
  cbn [date time year month day] in *.
  destruct (Nat.compare_spec y y'); [|left; lia..].
  destruct (Nat.compare_spec m m'); [|left; lia..].
  destruct (Nat.compare_spec d d'); [|left; lia..].
  subst. destruct (time_compare ta tb); [by subst|by right..].
Qed.

Lemma time_lt_asym (a b : TimeOfDay) : time_lt a b -> time_lt b a -> False.
Proof. unfold time_lt. lia. Qed.

Lemma datetime_lt_asym (a b : DateTime) : datetime_lt a b -> datetime_lt b a -> False.
Proof.
  unfold datetime_lt, date_lt. intros [H1|[E1 H1]] [H2|[E2 H2]]; try lia.
  - rewrite E2 in H1. lia.
  - rewrite E1 in H2. lia.
  - by apply (time_lt_asym (time a) (time b)).
Qed.

Lemma datetime_lt_irrefl (a : DateTime) : ~ datetime_lt a a.
Proof. intros H. by apply (datetime_lt_asym a a). Qed.


Lemma iso8601_leb (a b : DateTime) :
  valid_datetime a -> valid_datetime b -> same_precision a b ->
  (String.leb (to_iso8601_string a) (to_iso8601_string b) = true <-> datetime_le a b).
Proof.
  intros Ha Hb Hsame. unfold String.leb. rewrite iso8601_compare by done.
  pose proof (datetime_compare_spec a b) as H. unfold datetime_le.
  destruct (datetime_compare a b); split; try done; auto.
  intros [H'| ->]; [by destruct (datetime_lt_asym a b)|by apply datetime_lt_irrefl in H].
Qed.

(** * Stories in the order of the expiry index *)

(** X9.  Once [set_expires_at] has given a completed post of a user an
    expiry, the user has a next completed post to expire, and its expiry is
    not above the expiry just set in the order of the index, the order of the
    rendered strings.  When its expiry is the rendering of an instant of the
    same precision as the one just set (both with a fractional second, or both
    without), it expires no later than the post just changed. *)
Theorem completed_post_with_expiry_is_story (w w' : world) (post_item new : item)
    (expires_at : DateTime) (user_id : string) :
  set_expires_at post_item expires_at w = (Ok new, w') ->
  post_item !! "postStatus" = Some (Str PostStatus.COMPLETED) ->
  post_item !! "postedByUserId" = Some (Str user_id) ->
  In new (stories (db w') user_id)
  /\ exists s e,
       (get_next_completed_post_to_expire user_id None w').1 = Ok (Some s)
       /\ In s (stories (db w') user_id)
       /\ expires s e
       /\ String.leb e (to_iso8601_string expires_at) = true
       /\ (forall dt, e = to_iso8601_string dt ->
              valid_datetime dt -> valid_datetime expires_at ->
              same_precision dt expires_at -> datetime_le dt expires_at).
Proof.
  intros Hrun Hst Hu.
  destruct (set_expires_at_inv _ _ _ _ _ Hrun)
    as (post_id & u & st & it & _ & Hu' & Hst' & _ & _ & -> & Hdb).
  rewrite Hu in Hu'. injection Hu' as <-. rewrite Hst in Hst'. injection Hst' as <-.
  assert (Hexp : expires (with_expiry it user_id PostStatus.COMPLETED expires_at)
                   (to_iso8601_string expires_at)).
  { unfold expires, with_expiry. by rewrite !lookup_insert_ne, lookup_insert_eq by done. }
  assert (Hin : In (with_expiry it user_id PostStatus.COMPLETED expires_at)
                  (stories (db w') user_id)).
  { apply filter_In. split.
    - apply (record_in_values _ (post_pk post_id)). rewrite Hdb. apply lookup_insert_eq.
    - unfold is_story, in_index. cbn [pk_attr sk_attr sk_numeric gsi_a1 eval_condition].
      unfold resolve_name, compare_with. rewrite !lookup_empty. cbn [default resolve].
      unfold with_expiry.
      rewrite !(lookup_insert_ne _ _ "gsiA1PartitionKey") by done.
      rewrite !(lookup_insert_ne _ _ "gsiA1SortKey") by done.
      rewrite !lookup_insert_eq. rewrite value_eqb_refl_str. cbn [negb andb].
      rewrite <- (append_assoc PostStatus.COMPLETED "/"). apply prefix_app. }
  split; [exact Hin|].
  destruct (next_to_expire_run user_id w') as (sorted & q & Hq & Hperm & Hsort).
  pose proof (head_first_story (db w') user_id sorted Hperm Hsort) as Hhead.
  rewrite Hq. cbn [fst]. destruct (head sorted) as [s|].
  - destruct Hhead as [Hs Hmin].
    destruct (story_expires user_id s) as [e He].
    { by apply filter_In in Hs as [_ ?]. }
    assert (Hle : String.leb e (to_iso8601_string expires_at) = true)
      by (by apply (Hmin _ e (to_iso8601_string expires_at) Hin)).
    exists s, e. split; [reflexivity|]. split; [exact Hs|]. split; [exact He|].
    split; [exact Hle|]. intros dt -> Hv Hv' Hsame. by apply iso8601_leb.
  - rewrite Hhead in Hin. destruct Hin.
Qed.

Lemma completed_post_with_expiry_is_story_witness :
  set_expires_at plain_post afternoon plain_world_completed = (Ok plain_story, story_world)
  /\ plain_post !! "postStatus" = Some (Str PostStatus.COMPLETED)
  /\ plain_post !! "postedByUserId" = Some (Str "uid")
  /\ In plain_story (stories (db story_world) "uid")
  /\ exists s e,
       (get_next_completed_post_to_expire "uid" None story_world).1 = Ok (Some s)
       /\ In s (stories (db story_world) "uid")
       /\ expires s e
       /\ String.leb e (to_iso8601_string afternoon) = true
       /\ (forall dt, e = to_iso8601_string dt ->
              valid_datetime dt -> valid_datetime afternoon ->
              same_precision dt afternoon -> datetime_le dt afternoon).
Proof.
  assert (H2 : plain_post !! "postStatus" = Some (Str PostStatus.COMPLETED))
    by (vm_compute; reflexivity).
  assert (H3 : plain_post !! "postedByUserId" = Some (Str "uid")) by (vm_compute; reflexivity).
  split; [exact story_world_run|]. split; [exact H2|]. split; [exact H3|].
  exact (completed_post_with_expiry_is_story plain_world_completed story_world plain_post
           plain_story afternoon "uid" story_world_run H2 H3).
Defined.

(** X10.  With a post to exclude, [get_next_completed_post_to_expire]
    returns a story of the user that is not the excluded post and whose
    expiry is least, in the order of the index (the order of the rendered
    strings), among the stories that are not the excluded post; it returns
    nothing exactly when every story of the user is the excluded post.  The
    table is not written, and an empty post id excludes nothing.  On the
    renderings of two instants of the same precision the order of the index
    is the chronological order. *)
Theorem next_completed_post_excluding (w : world) (user_id exclude_post_id : string) :
  exclude_post_id <> "" ->
  match (get_next_completed_post_to_expire user_id (Some exclude_post_id) w).1 with
  | Ok (Some s) =>
      In s (stories (db w) user_id)
      /\ s !! "postId" <> Some (Str exclude_post_id)
      /\ forall s' e e',
           In s' (stories (db w) user_id) -> s' !! "postId" <> Some (Str exclude_post_id) ->
           expires s e -> expires s' e' -> String.leb e e' = true
  | Ok None =>
      forall s, In s (stories (db w) user_id) -> s !! "postId" = Some (Str exclude_post_id)
  | Raise _ => False
  end
  /\ db (get_next_completed_post_to_expire user_id (Some exclude_post_id) w).2 = db w
  /\ get_next_completed_post_to_expire user_id (Some "") w
     = get_next_completed_post_to_expire user_id None w
  /\ (forall a b, valid_datetime a -> valid_datetime b -> same_precision a b ->
        (String.leb (to_iso8601_string a) (to_iso8601_string b) = true <-> datetime_le a b)).
Proof.
  intros Hx.
  destruct (next_to_expire_excluding_run user_id exclude_post_id w Hx)
    as (sorted & q & -> & Hperm & Hsort).
  cbn [fst snd db]. split; [|split; [reflexivity|split; [reflexivity|apply iso8601_leb]]].
  set (keep := fun s : item =>
                 eval_condition ∅ ∅ s (CNe "postId" (Lit (Str exclude_post_id)))).
  pose proof (StronglySorted_filter _ keep _ Hsort) as Hsort'.
  destruct (head (List.filter keep sorted)) as [s|] eqn:Hhead.
  - assert (Hs : In s (List.filter keep sorted)).
    { destruct (List.filter keep sorted); [done|]. injection Hhead as ->. by left. }
    apply filter_In in Hs as [Hs Hkeep]. split.
    { apply list_elem_of_In. rewrite <- Hperm. by apply list_elem_of_In. }
    split; [by apply post_id_ne_spec|].
    intros s' e e' Hs' Hne He He'.
    apply (sorted_head_least (List.filter keep sorted) s s'); try done.
    apply filter_In. split; [|by apply post_id_ne_spec].
    apply list_elem_of_In. rewrite Hperm. by apply list_elem_of_In.
  - intros s Hs. apply list_elem_of_In in Hs. rewrite <- Hperm in Hs.
    apply list_elem_of_In in Hs.
    destruct (keep s) eqn:Hkeep.
    + assert (In s (List.filter keep sorted)) as Hin by (by apply filter_In).
      destruct (List.filter keep sorted); [destruct Hin|done].
    + unfold keep in Hkeep. cbn [eval_condition] in Hkeep.
      unfold resolve_name, compare_with in Hkeep. rewrite lookup_empty in Hkeep.
      cbn [default resolve] in Hkeep. destruct (s !! "postId") as [v|]; [|done].
      apply negb_false_iff, value_eqb_eq in Hkeep. by subst.
Qed.

Lemma next_completed_post_excluding_witness :
  "other" <> ""
  /\ match (get_next_completed_post_to_expire "uid" (Some "other") story_world).1 with
     | Ok (Some s) =>
         In s (stories (db story_world) "uid")
         /\ s !! "postId" <> Some (Str "other")
         /\ forall s' e e',
              In s' (stories (db story_world) "uid") -> s' !! "postId" <> Some (Str "other") ->
              expires s e -> expires s' e' -> String.leb e e' = true
     | Ok None =>
         forall s, In s (stories (db story_world) "uid") -> s !! "postId" = Some (Str "other")
     | Raise _ => False
     end
  /\ db (get_next_completed_post_to_expire "uid" (Some "other") story_world).2
     = db story_world
  /\ get_next_completed_post_to_expire "uid" (Some "") story_world
     = get_next_completed_post_to_expire "uid" None story_world
  /\ (forall a b, valid_datetime a -> valid_datetime b -> same_precision a b ->
        (String.leb (to_iso8601_string a) (to_iso8601_string b) = true <-> datetime_le a b)).
Proof.
  assert (H : "other" <> "") by discriminate.
  split; [exact H|]. exact (next_completed_post_excluding story_world "uid" "other" H).
Defined.

(** * The first post with a checksum *)




(** * Updates built from an item read earlier *)

(** The write of a status update is guarded by the existence of the record
    only.  Built from an item read before the post joined an album, the
    update validates against that item, succeeds on the stored record, and
    leaves a completed post of an album with the sentinel in its album-rank
    key. *)
Lemma stale_item_keeps_sentinel :
  item_read_early !! "albumId" = None
  /\ record_at (db joined_album_world) (post_pk "pid") !! "albumId" = Some (Str "aid")
  /\ (write_one (transact_set_post_status item_read_early PostStatus.COMPLETED None None)
        joined_album_world).1 = Ok tt
  /\ record_at
       (db (write_one (transact_set_post_status item_read_early PostStatus.COMPLETED
                         None None) joined_album_world).2)
       (post_pk "pid") !! "albumId" = Some (Str "aid")
  /\ record_at
       (db (write_one (transact_set_post_status item_read_early PostStatus.COMPLETED
                         None None) joined_album_world).2)
       (post_pk "pid") !! "postStatus" = Some (Str PostStatus.COMPLETED)
  /\ record_at
       (db (write_one (transact_set_post_status item_read_early PostStatus.COMPLETED
                         None None) joined_album_world).2)
       (post_pk "pid") !! "gsiK3SortKey" = Some (Num unranked).
Proof. repeat split; vm_compute; reflexivity. Qed.

(** * The refresh of the followed-first-story aggregate *)



(** ** The order of the expiry strings *)



(** ** Writing the pointers *)



(** ** One refresh call *)


Section OneRefresh.
Variable followers : string -> list string.



End OneRefresh.

(** ** The stories before and after a change *)
















(** ** One change and its refresh call *)

Section OneChange.
Variable followers : string -> list string.



End OneChange.



Section Changes.
Variable followers : string -> list string.




End Changes.

(** ** Changes one after the other *)




(** ** Examples *)





(** The model against the assertions of [test_manager.py].  A refresh call
    for a story that is not stored sets the pointer
    ([test_refresh_after_add_story_not_yet_in_db]), and one for the removal
    of a story that is not stored leaves no pointer
    ([test_refresh_after_remove_story_not_yet_in_db]).  With two stories
    stored, the refresh call for the removal of the first to expire, applied
    before the removal, moves the pointer to the other story (the last step
    of [test_refresh_remove_story_order]). *)
Lemma refresh_as_the_tests_assert :
  (stories (db plain_world_completed) "uid" = []
   /\ record_at (db (apply_events one_follower [Refresh None (Some plain_story)]
                       plain_world_completed)) (ffs_pk "fid" "uid") !! "postId"
      = Some (Str "pid")
   /\ db (apply_events one_follower [Refresh (Some plain_story) None] plain_world_completed)
        !! ffs_pk "fid" "uid" = None)
  /\ (let w := apply_changes one_follower
                 [(GiveExpiry "pid" afternoon, false); (GiveExpiry "pid2" evening, false)]
                 two_completed_world in
      record_at (db w) (ffs_pk "fid" "uid") !! "postId" = Some (Str "pid")
      /\ record_at (db (apply_events one_follower [Refresh (story_of (db w) "pid") None] w))
           (ffs_pk "fid" "uid") !! "postId" = Some (Str "pid2")
      /\ bool_decide (is_Some (story_of
                                 (db (apply_events one_follower
                                        [Refresh (story_of (db w) "pid") None] w)) "pid"))
         = true).
Proof.
  split; [split; [|split]|cbv zeta; split; [|split]]; vm_compute; reflexivity.
Qed.
